(** * MultiArena: a shallow embedding of the arena memory resources

    The development follows [include/MultiArena/MultiArena.h].  Machine
    integers are integers of [Z] with the wrap-around of their C++ type
    written out: [SizeType] is [uint32_t], [std::size_t] and [uintptr_t]
    are 64 bits wide.  Arrays ([std::array], [std::pmr::vector]) are lists
    read and written by index; an access outside the array has no defined
    behaviour in C++ and is modelled by [None]. *)

From Stdlib Require Import ZArith Lia QArith Qround Qpower Lqa.
From stdpp Require Import base option list numbers sorting.

Local Open Scope Z_scope.

(** ** Machine arithmetic *)

Definition wrap32 (x : Z) : Z := x mod 2 ^ 32.
Definition wrap64 (x : Z) : Z := x mod 2 ^ 64.

(** [alignof(std::max_align_t)] on the 64-bit platforms the library targets. *)
Definition max_align : Z := 16.

(** [a] is a power of two. *)
Definition is_pow2 (a : Z) : Prop := ∃ k : Z, 0 ≤ k ∧ a = 2 ^ k.

(** ** Arrays indexed by [SizeType] *)

Definition read (l : list Z) (i : Z) : option Z := l !! Z.to_nat i.

Definition write (l : list Z) (i : Z) (v : Z) : option (list Z) :=
  if decide (Z.to_nat i < length l)%nat then Some (<[Z.to_nat i := v]> l) else None.

(** ** Geometry and build configuration

    [numArenas] and [arenaSize] are the template or constructor arguments,
    [arenaData] is the address [_arenaData.data()], [exceptionsEnabled] is
    the constant of the same name (unset [MULTIARENA_DISABLE_EXCEPTIONS]). *)

Record Config := {
  numArenas : Z;
  arenaSize : Z;
  arenaData : Z;
  exceptionsEnabled : bool
}.

(** The pools that are followed through their runs: what the
    constructors assert (at least one arena, an arena size that is a
    multiple of [alignof(std::max_align_t)]) and, which they do not
    check, an arena that is not empty, a storage of fewer than [2 ^ 32]
    bytes, so that every offset into it is a [SizeType], and a storage
    that lies in the address space at a non-null address. *)
Definition valid_geometry (c : Config) : Prop :=
  0 < numArenas c ∧ 0 < arenaSize c ∧ arenaSize c mod max_align = 0 ∧
  numArenas c * arenaSize c < 2 ^ 32 ∧
  0 < arenaData c ∧ arenaData c + numArenas c * arenaSize c < 2 ^ 64.

(** ** Exceptions and outcomes of a call *)

Inductive Exn :=
| AllocateTooLargeBlock (bytesNeeded bytesAvailable : Z)
| OutOfFreeArenas (numArenasIn : Z)
| ArenaMemoryResourceCorruption (address bytes alignment : Z)
| RuntimeError.

(** A call returns a value in a new state, throws in the state reached at
    the throw, or has no defined behaviour. *)
Inductive outcome (S A : Type) :=
| Returned (v : A) (s : S)
| Thrown (e : Exn) (s : S)
| Undefined.
Arguments Returned {S A} v s.
Arguments Thrown {S A} e s.
Arguments Undefined {S A}.

Definition nullptr : Z := 0.

(** The free list written by [initializeArenas]: slot [i] holds
    [numArenas - 1 - i]. *)
Definition initialFreeList (c : Config) : list Z :=
  (λ i, wrap32 (numArenas c - 1 - i)) <$> seqZ 0 (numArenas c).

Definition zeroCounters (c : Config) : list Z :=
  replicate (Z.to_nat (numArenas c)) 0.

(** [result += allocationsInArena(i)] for [i] from 0 below [n], in
    [std::size_t]. *)
Fixpoint sumArenas (allocationsInArena : Z → option Z) (n : nat) : option Z :=
  match n with
  | O => Some 0
  | S k =>
      r ← sumArenas allocationsInArena k;
      a ← allocationsInArena (Z.of_nat k);
      Some (wrap64 (r + a))
  end.

(** ** The unsynchronized engine: [UnsynchronizedArenaResourceBase] *)

Module Unsync.

Record State := {
  data : Z;
  bytesLeft : Z;
  activeArenaId : Z;
  freeListHead : Z;
  freeList : list Z;
  numAllocationsInArena : list Z
}.

Definition allocationsInArena (st : State) (arenaId : Z) : option Z :=
  read (numAllocationsInArena st) arenaId.

Definition numberOfAllocations (c : Config) (st : State) : option Z :=
  sumArenas (allocationsInArena st) (Z.to_nat (numArenas c)).

Definition numberOfBusyArenas (c : Config) (st : State) : option Z :=
  let result := wrap32 (numArenas c - freeListHead st) in
  if result =? 1 then
    n ← allocationsInArena st (activeArenaId st);
    Some (if n =? 0 then 0 else result)
  else Some result.

(** One past the last byte of arena [arenaId]. *)
Definition arenaTop (c : Config) (arenaId : Z) : Z :=
  wrap64 (arenaData c + wrap32 (arenaSize c * wrap32 (arenaId + 1))).

Definition reserveNextArena (c : Config) (st : State) : option (bool * State) :=
  if freeListHead st =? 0 then Some (false, st)
  else
    let head := wrap32 (freeListHead st - 1) in
    a ← read (freeList st) head;
    Some (true,
          {| data := arenaTop c a;
             bytesLeft := arenaSize c;
             activeArenaId := a;
             freeListHead := head;
             freeList := freeList st;
             numAllocationsInArena := numAllocationsInArena st |}).

Definition resetActiveArena (c : Config) (st : State) : option State :=
  counters ← write (numAllocationsInArena st) (activeArenaId st) 0;
  Some {| data := arenaTop c (activeArenaId st);
          bytesLeft := arenaSize c;
          activeArenaId := activeArenaId st;
          freeListHead := freeListHead st;
          freeList := freeList st;
          numAllocationsInArena := counters |}.

Definition releaseArena (st : State) (arenaId : Z) : option State :=
  fl ← write (freeList st) (freeListHead st) arenaId;
  counters ← write (numAllocationsInArena st) arenaId 0;
  Some {| data := data st;
          bytesLeft := bytesLeft st;
          activeArenaId := activeArenaId st;
          freeListHead := wrap32 (freeListHead st + 1);
          freeList := fl;
          numAllocationsInArena := counters |}.

Definition initializeArenas (c : Config) : option State :=
  '(_, st) ← reserveNextArena c
      {| data := 0; bytesLeft := 0; activeArenaId := 0;
         freeListHead := numArenas c;
         freeList := initialFreeList c;
         numAllocationsInArena := zeroCounters c |};
  Some st.

(** [do_allocate_details]; the recursive call follows a successful
    [reserveNextArena], which lowers [_freeListHead], so [fuel] counts the
    arenas still on the free list.  The result is the returned pointer
    ([nullptr] on failure) and the state. *)
Fixpoint do_allocate_details_rec (fuel : nat) (c : Config) (st : State)
    (bytes alignment : Z) : option (Z * State) :=
  let ptrAsInteger := wrap64 (data st - bytes) in
  let alignmentOffset := wrap32 (Z.land ptrAsInteger (wrap64 (alignment - 1))) in
  let numBytesNeeded := wrap32 (wrap32 bytes + alignmentOffset) in
  if bytesLeft st <? numBytesNeeded then
    if bytes <=? arenaSize c then
      '(reserved, st') ← reserveNextArena c st;
      if (reserved : bool) then
        match fuel with
        | O => None
        | S fuel' => do_allocate_details_rec fuel' c st' bytes alignment
        end
      else Some (nullptr, st')
    else Some (nullptr, st)
  else
    let p := wrap64 (ptrAsInteger - alignmentOffset) in
    n ← read (numAllocationsInArena st) (activeArenaId st);
    counters ← write (numAllocationsInArena st) (activeArenaId st) (wrap32 (n + 1));
    Some (p,
          {| data := p;
             bytesLeft := wrap32 (bytesLeft st - numBytesNeeded);
             activeArenaId := activeArenaId st;
             freeListHead := freeListHead st;
             freeList := freeList st;
             numAllocationsInArena := counters |}).

Definition do_allocate_details (c : Config) (st : State) (bytes alignment : Z)
  : option (Z * State) :=
  do_allocate_details_rec (Z.to_nat (freeListHead st)) c st bytes alignment.

Definition do_allocate (c : Config) (st : State) (bytes alignment : Z)
  : outcome State Z :=
  if bytes =? 0 then Returned nullptr st
  else
    match do_allocate_details c st bytes alignment with
    | None => Undefined
    | Some (result, st') =>
        if exceptionsEnabled c && (result =? nullptr) then
          if arenaSize c <? bytes
          then Thrown (AllocateTooLargeBlock bytes (arenaSize c)) st'
          else Thrown (OutOfFreeArenas (numArenas c)) st'
        else Returned result st'
    end.

(** The arena id that [do_deallocate] computes from an address. *)
Definition arenaIdOf (c : Config) (p : Z) : Z :=
  wrap32 (wrap64 (p - arenaData c)) / arenaSize c.

Definition do_deallocate (c : Config) (st : State) (p bytes alignment : Z)
  : outcome State unit :=
  if arenaSize c =? 0 then Undefined
  else
    let arenaId := arenaIdOf c p in
    if exceptionsEnabled c && (numArenas c <=? arenaId) then
      Thrown (ArenaMemoryResourceCorruption p bytes alignment) st
    else
      match
        n ← read (numAllocationsInArena st) arenaId;
        let numAllocs := wrap32 (n - 1) in
        counters ← write (numAllocationsInArena st) arenaId numAllocs;
        let st1 := {| data := data st;
                      bytesLeft := bytesLeft st;
                      activeArenaId := activeArenaId st;
                      freeListHead := freeListHead st;
                      freeList := freeList st;
                      numAllocationsInArena := counters |} in
        if numAllocs =? 0 then
          if arenaId =? activeArenaId st then resetActiveArena c st1
          else releaseArena st1 arenaId
        else Some st1
      with
      | Some st' => Returned () st'
      | None => Undefined
      end.

End Unsync.

(** ** The synchronized engine: [SynchronizedArenaResourceBase]

    The calls are modelled one at a time: a call runs from its first to
    its last statement without another thread in between, so locking and
    unlocking [_mtx] leave no trace and an atomic counter is a plain
    [SizeType]. *)

Module Sync.

Record State := {
  data : Z;
  bytesReserved : Z;
  activeArenaId : Z;
  freeListHead : Z;
  freeList : list Z;
  numAllocationsInArena : list Z;
  numDeallocationsInArena : list Z
}.

Definition allocationsInArena (st : State) (arenaId : Z) : option Z :=
  na ← read (numAllocationsInArena st) arenaId;
  nd ← read (numDeallocationsInArena st) arenaId;
  Some (wrap32 (na - nd)).

Definition numberOfAllocations (c : Config) (st : State) : option Z :=
  sumArenas (allocationsInArena st) (Z.to_nat (numArenas c)).

Definition numberOfBusyArenas (c : Config) (st : State) : option Z :=
  let result := wrap32 (numArenas c - freeListHead st) in
  if result =? 1 then
    n ← allocationsInArena st (activeArenaId st);
    Some (if n =? 0 then 0 else result)
  else Some result.

(** The first byte of arena [arenaId]. *)
Definition arenaBase (c : Config) (arenaId : Z) : Z :=
  wrap64 (arenaData c + wrap32 (arenaId * arenaSize c)).

Definition reserveNextArena (c : Config) (st : State) : option (bool * State) :=
  if freeListHead st =? 0 then Some (false, st)
  else
    let head := wrap32 (freeListHead st - 1) in
    a ← read (freeList st) head;
    Some (true,
          {| data := arenaBase c a;
             bytesReserved := 0;
             activeArenaId := a;
             freeListHead := head;
             freeList := freeList st;
             numAllocationsInArena := numAllocationsInArena st;
             numDeallocationsInArena := numDeallocationsInArena st |}).

Definition resetActiveArena (c : Config) (st : State) : option State :=
  deallocs ← write (numDeallocationsInArena st) (activeArenaId st) 0;
  allocs ← write (numAllocationsInArena st) (activeArenaId st) 0;
  Some {| data := arenaBase c (activeArenaId st);
          bytesReserved := 0;
          activeArenaId := activeArenaId st;
          freeListHead := freeListHead st;
          freeList := freeList st;
          numAllocationsInArena := allocs;
          numDeallocationsInArena := deallocs |}.

Definition releaseArena (st : State) (arenaId : Z) : option State :=
  fl ← write (freeList st) (freeListHead st) arenaId;
  deallocs ← write (numDeallocationsInArena st) arenaId 0;
  allocs ← write (numAllocationsInArena st) arenaId 0;
  Some {| data := data st;
          bytesReserved := bytesReserved st;
          activeArenaId := activeArenaId st;
          freeListHead := wrap32 (freeListHead st + 1);
          freeList := fl;
          numAllocationsInArena := allocs;
          numDeallocationsInArena := deallocs |}.

Definition initializeArenas (c : Config) : option State :=
  '(_, st) ← reserveNextArena c
      {| data := 0; bytesReserved := 0; activeArenaId := 0;
         freeListHead := numArenas c;
         freeList := initialFreeList c;
         numAllocationsInArena := zeroCounters c;
         numDeallocationsInArena := zeroCounters c |};
  Some st.

(** [do_allocate_details]; [fuel] as in the unsynchronized engine. *)
Fixpoint do_allocate_details_rec (fuel : nat) (c : Config) (st : State)
    (bytes : Z) : option (Z * State) :=
  let numReservedBytes := wrap64 (bytesReserved st + bytes) in
  if arenaSize c <? numReservedBytes then
    '(reserved, st') ← reserveNextArena c st;
    if (reserved : bool) then
      match fuel with
      | O => None
      | S fuel' => do_allocate_details_rec fuel' c st' bytes
      end
    else Some (nullptr, st')
  else
    let result := data st in
    n ← read (numAllocationsInArena st) (activeArenaId st);
    allocs ← write (numAllocationsInArena st) (activeArenaId st) (wrap32 (n + 1));
    Some (result,
          {| data := wrap64 (data st + bytes);
             bytesReserved := numReservedBytes;
             activeArenaId := activeArenaId st;
             freeListHead := freeListHead st;
             freeList := freeList st;
             numAllocationsInArena := allocs;
             numDeallocationsInArena := numDeallocationsInArena st |}).

Definition do_allocate_details (c : Config) (st : State) (bytes : Z)
  : option (Z * State) :=
  do_allocate_details_rec (Z.to_nat (freeListHead st)) c st bytes.

(** The alignment argument is ignored: the block is a whole number of
    bins of [binSize = alignof(max_align_t)] bytes. *)
Definition do_allocate (c : Config) (st : State) (bytes alignment : Z)
  : outcome State Z :=
  if bytes =? 0 then Returned nullptr st
  else
    let binSize := max_align in
    let numBinsForData := wrap64 (wrap64 (bytes + binSize) - 1) / binSize in
    let numBytesNeeded := wrap64 (numBinsForData * binSize) in
    if arenaSize c <? numBytesNeeded then Returned nullptr st
    else
      match do_allocate_details c st numBytesNeeded with
      | None => Undefined
      | Some (result, st') =>
          if exceptionsEnabled c && (result =? nullptr) then
            if arenaSize c <? numBytesNeeded
            then Thrown (AllocateTooLargeBlock bytes (arenaSize c)) st'
            else Thrown (OutOfFreeArenas (numArenas c)) st'
          else Returned result st'
      end.

Definition arenaIdOf (c : Config) (p : Z) : Z :=
  wrap32 (wrap64 (p - arenaData c)) / arenaSize c.

Definition do_deallocate (c : Config) (st : State) (p bytes alignment : Z)
  : outcome State unit :=
  if arenaSize c =? 0 then Undefined
  else
    let arenaId := arenaIdOf c p in
    if exceptionsEnabled c && (numArenas c <=? arenaId) then
      Thrown (ArenaMemoryResourceCorruption p bytes alignment) st
    else
      match
        nd ← read (numDeallocationsInArena st) arenaId;
        let numDeallocs := wrap32 (nd + 1) in
        deallocs ← write (numDeallocationsInArena st) arenaId numDeallocs;
        numAllocs ← read (numAllocationsInArena st) arenaId;
        let st1 := {| data := data st;
                      bytesReserved := bytesReserved st;
                      activeArenaId := activeArenaId st;
                      freeListHead := freeListHead st;
                      freeList := freeList st;
                      numAllocationsInArena := numAllocationsInArena st;
                      numDeallocationsInArena := deallocs |} in
        if numAllocs =? numDeallocs then
          (* under the lock the two counters are read again *)
          na' ← read (numAllocationsInArena st1) arenaId;
          nd' ← read (numDeallocationsInArena st1) arenaId;
          let arenaIsVacant := (numAllocs =? na') && (numAllocs =? nd') in
          if arenaIsVacant then
            if arenaId =? activeArenaId st1 then resetActiveArena c st1
            else releaseArena st1 arenaId
          else Some st1
        else Some st1
      with
      | Some st' => Returned () st'
      | None => Undefined
      end.

End Sync.

(** ** [std::pmr::map] with integer keys: entries in ascending key order *)

Module StdMap.

Definition t := list (Z * Z).

(** [m[k]], reading: the mapped value, value-initialised when absent. *)
Fixpoint at_ (m : t) (k : Z) : Z :=
  match m with
  | [] => 0
  | (k', v') :: rest =>
      if k <? k' then 0 else if k =? k' then v' else at_ rest k
  end.

(** [m[k] = v]. *)
Fixpoint assign (m : t) (k v : Z) : t :=
  match m with
  | [] => [(k, v)]
  | (k', v') :: rest =>
      if k <? k' then (k, v) :: m
      else if k =? k' then (k, v) :: rest
      else (k', v') :: assign rest k v
  end.

(** [m.erase(k)]: the number of entries removed and the map left. *)
Fixpoint erase (m : t) (k : Z) : Z * t :=
  match m with
  | [] => (0, [])
  | (k', v') :: rest =>
      if k <? k' then (0, m)
      else if k =? k' then (1, rest)
      else let '(n, rest') := erase rest k in (n, (k', v') :: rest')
  end.

Definition size (m : t) : Z := Z.of_nat (length m).

End StdMap.

(** ** [double] arithmetic

    A finite [double] (IEEE 754 binary64) is the rational it stands for.
    The result of an operation is the exact result rounded to the nearest
    double, ties to the even significand: 53 bits of significand in the
    binade of the number, and steps of [2 ^ -1074] below [2 ^ -1022].
    Numbers of magnitude [2 ^ 1024] and more, which are infinite as
    doubles, are left as they are: the conversion to [std::size_t] has no
    defined behaviour from [2 ^ 64] on. *)

(** The integer nearest to [m], the even one of two that are as near. *)
Definition roundHalfEven (m : Q) : Z :=
  let q := Qfloor m in
  match (m - inject_Z q ?= 1 # 2)%Q with
  | Lt => q
  | Gt => q + 1
  | Eq => if Z.even q then q else q + 1
  end.

(** The exponent [e] with [2 ^ e <= x < 2 ^ (e + 1)], for [x > 0]. *)
Definition binade (x : Q) : Z :=
  if Qle_bool 1 x then Z.log2 (Qfloor x) else - Z.log2_up (Qceiling (/ x)).

(** The double nearest to [x > 0]. *)
Definition roundPositive (x : Q) : Q :=
  let k := Z.max (binade x - 52) (-1074) in
  (inject_Z (roundHalfEven (x * 2 ^ (- k))) * 2 ^ k)%Q.

Definition roundDouble (x : Q) : Q :=
  match (x ?= 0)%Q with
  | Eq => 0%Q
  | Gt => roundPositive x
  | Lt => (- roundPositive (- x))%Q
  end.

(** The conversion of a [double] to [std::size_t]: the fractional part is
    dropped, and there is no defined behaviour when what is left is not a
    value of [std::size_t]. *)
Definition toSize (x : Q) : option Z :=
  let t := if Qle_bool 0 x then Qfloor x else Qceiling x in
  if (0 <=? t) && (t <? 2 ^ 64) then Some t else None.

(** ** The statistics wrapper: [StatisticsArenaResource]

    The base class is the unsynchronized engine with run-time geometry.
    The factor [pc] of [percentile] is the value of its [double]
    argument; in [pc * sum] the sum is converted to [double], the product
    is rounded to a [double], and the initialisation of [upperLimit]
    converts it to [std::size_t]. *)

Module Statistics.

Record State := {
  pool : Unsync.State;
  addressToBytesMap : StdMap.t;
  maxBusyArenas : Z;
  maxNumberOfAllocations : Z
}.

Definition construct (c : Config) : option State :=
  st ← Unsync.initializeArenas c;
  Some {| pool := st; addressToBytesMap := [];
          maxBusyArenas := 0; maxNumberOfAllocations := 0 |}.

Definition bytesAllocated (st : State) : Z :=
  fold_left (λ init ptrBytesPair, wrap64 (init + ptrBytesPair.2))
            (addressToBytesMap st) 0.

(** [hist[it->second] += 1] over the entries of [_map]. *)
Definition histogram (st : State) : StdMap.t :=
  fold_left (λ hist ptrBytesPair,
               StdMap.assign hist ptrBytesPair.2
                 (wrap32 (StdMap.at_ hist ptrBytesPair.2 + 1)))
            (addressToBytesMap st) [].

Definition totalFrequency (hist : StdMap.t) : Z :=
  fold_left (λ init sizeFreqPair, wrap64 (init + sizeFreqPair.2)) hist 0.

(** The [while] loop of [percentile] and the final [std::prev(it)->first].
    [hist] is what lies from [it] on, [last] is the key before [it];
    reading [*it] at the end of the map, or stepping back from its
    beginning, has no defined behaviour. *)
Fixpoint walk (hist : StdMap.t) (accumulatedSum upperLimit : Z)
    (last : option Z) {struct hist} : option Z :=
  if accumulatedSum <? upperLimit then
    match hist with
    | [] => None
    | (size, freq) :: rest =>
        walk rest (wrap64 (accumulatedSum + freq)) upperLimit (Some size)
    end
  else last.

Definition clamp (pc lo hi : Q) : Q :=
  if Qle_bool lo pc then (if Qle_bool pc hi then pc else hi) else lo.

(** [std::size_t upperLimit = pc * sum]. *)
Definition upperLimit (pc : Q) (sum : Z) : option Z :=
  toSize (roundDouble (pc * roundDouble (inject_Z sum))).

Definition percentile (st : State) (pc : Q) : option Z :=
  let pc := clamp pc 0 1 in
  if Qeq_bool pc 0 then Some 0
  else
    let hist := histogram st in
    let sum := totalFrequency hist in
    if sum =? 0 then Some 0
    else
      match upperLimit pc sum with
      | None => None
      | Some upperLimit => walk hist 0 upperLimit None
      end.

Definition do_allocate (c : Config) (st : State) (bytes alignment : Z)
  : outcome State Z :=
  match Unsync.do_allocate c (pool st) bytes alignment with
  | Undefined => Undefined
  | Thrown e pool' =>
      Thrown e {| pool := pool'; addressToBytesMap := addressToBytesMap st;
                  maxBusyArenas := maxBusyArenas st;
                  maxNumberOfAllocations := maxNumberOfAllocations st |}
  | Returned p pool' =>
      let m := StdMap.assign (addressToBytesMap st) p (wrap32 bytes) in
      match Unsync.numberOfBusyArenas c pool' with
      | None => Undefined
      | Some busy =>
          Returned p {| pool := pool'; addressToBytesMap := m;
                        maxBusyArenas := Z.max (maxBusyArenas st) busy;
                        maxNumberOfAllocations :=
                          Z.max (maxNumberOfAllocations st) (StdMap.size m) |}
      end
  end.

Definition with_pool (st : State) (pool' : Unsync.State) : State :=
  {| pool := pool'; addressToBytesMap := addressToBytesMap st;
     maxBusyArenas := maxBusyArenas st;
     maxNumberOfAllocations := maxNumberOfAllocations st |}.

(** The erasure is inside [if constexpr (exceptionsEnabled)]. *)
Definition do_deallocate (c : Config) (st : State) (p bytes alignment : Z)
  : outcome State unit :=
  let '(erased, m) :=
    if exceptionsEnabled c then StdMap.erase (addressToBytesMap st) p
    else (1, addressToBytesMap st) in
  if exceptionsEnabled c && (erased =? 0) then Thrown RuntimeError st
  else
    let st1 := {| pool := pool st; addressToBytesMap := m;
                  maxBusyArenas := maxBusyArenas st;
                  maxNumberOfAllocations := maxNumberOfAllocations st |} in
    match Unsync.do_deallocate c (pool st) p bytes alignment with
    | Undefined => Undefined
    | Thrown e pool' => Thrown e (with_pool st1 pool')
    | Returned u pool' => Returned u (with_pool st1 pool')
    end.

End Statistics.

(** ** The consumer-facing operations of an engine *)

Class ArenaResource (St : Type) := {
  construct : Config → option St;
  allocate : Config → St → Z → Z → outcome St Z;
  deallocate : Config → St → Z → Z → Z → outcome St unit;
  liveAllocations : Config → St → option Z;
  busyArenas : Config → St → option Z
}.

#[export] Instance unsynchronized_resource : ArenaResource Unsync.State := {|
  construct := Unsync.initializeArenas;
  allocate := Unsync.do_allocate;
  deallocate := Unsync.do_deallocate;
  liveAllocations := Unsync.numberOfAllocations;
  busyArenas := Unsync.numberOfBusyArenas
|}.

#[export] Instance synchronized_resource : ArenaResource Sync.State := {|
  construct := Sync.initializeArenas;
  allocate := Sync.do_allocate;
  deallocate := Sync.do_deallocate;
  liveAllocations := Sync.numberOfAllocations;
  busyArenas := Sync.numberOfBusyArenas
|}.

Inductive Engine := Unsynchronized | Synchronized.

Definition EngineState (e : Engine) : Type :=
  match e with
  | Unsynchronized => Unsync.State
  | Synchronized => Sync.State
  end.

#[export] Instance engine_resource (e : Engine) : ArenaResource (EngineState e) :=
  match e with
  | Unsynchronized => unsynchronized_resource
  | Synchronized => synchronized_resource
  end.

(** The alignment an engine gives to a block requested with alignment [a]. *)
Definition grantedAlignment (e : Engine) (a : Z) : Z :=
  match e with
  | Unsynchronized => a
  | Synchronized => max_align
  end.

Definition inStorage (c : Config) (p : Z) : Prop :=
  arenaData c ≤ p < arenaData c + numArenas c * arenaSize c.

(** ** Histories of calls

    A run records the state of the pool, the pointers handed out and not
    yet given back, and how many allocate calls returned a block and how
    many deallocate calls were made. *)

Record Run (St : Type) := {
  resource : St;
  live : list Z;
  numAllocated : Z;
  numDeallocated : Z
}.
Arguments resource {St} r.
Arguments live {St} r.
Arguments numAllocated {St} r.
Arguments numDeallocated {St} r.

(** Remove one occurrence of [p]. *)
Fixpoint giveBack (p : Z) (l : list Z) : list Z :=
  match l with
  | [] => []
  | q :: rest => if p =? q then rest else q :: giveBack p rest
  end.

(** A request within [SizeType]: a size and a power of two as alignment
    that add up to [2 ^ 32] at most. *)
Definition sane_request (bytes alignment : Z) : Prop :=
  0 ≤ bytes ∧ is_pow2 alignment ∧ bytes + alignment ≤ 2 ^ 32.

(** The runs of a consumer that keeps to the contract of [deallocate]:
    it gives back pointers it holds.  A failed allocate (an exception or
    the null pointer) leaves the consumer with the state the call left. *)
Inductive reachable {St} `{ArenaResource St} (c : Config) : Run St → Prop :=
| reach_construct st :
    construct c = Some st →
    reachable c {| resource := st; live := []; numAllocated := 0; numDeallocated := 0 |}
| reach_allocate r bytes alignment p st' :
    reachable c r → sane_request bytes alignment →
    allocate c (resource r) bytes alignment = Returned p st' → p ≠ nullptr →
    reachable c {| resource := st'; live := p :: live r;
                   numAllocated := numAllocated r + 1;
                   numDeallocated := numDeallocated r |}
| reach_allocate_null r bytes alignment st' :
    reachable c r → sane_request bytes alignment →
    allocate c (resource r) bytes alignment = Returned nullptr st' →
    reachable c {| resource := st'; live := live r;
                   numAllocated := numAllocated r;
                   numDeallocated := numDeallocated r |}
| reach_allocate_thrown r bytes alignment e st' :
    reachable c r → sane_request bytes alignment →
    allocate c (resource r) bytes alignment = Thrown e st' →
    reachable c {| resource := st'; live := live r;
                   numAllocated := numAllocated r;
                   numDeallocated := numDeallocated r |}
| reach_deallocate r p bytes alignment st' :
    reachable c r → p ∈ live r →
    deallocate c (resource r) p bytes alignment = Returned () st' →
    reachable c {| resource := st'; live := giveBack p (live r);
                   numAllocated := numAllocated r;
                   numDeallocated := numDeallocated r + 1 |}.

(** ** Pools and states used as concrete inputs *)

(** Three arenas of 48 bytes at address 4096, exceptions enabled. *)
Definition pool3x48 : Config :=
  {| numArenas := 3; arenaSize := 48; arenaData := 4096; exceptionsEnabled := true |}.

(** Two arenas of 48 bytes at address 4096. *)
Definition pool2x48 : Config :=
  {| numArenas := 2; arenaSize := 48; arenaData := 4096; exceptionsEnabled := true |}.

(** Two arenas of 64 bytes at address 4096. *)
Definition pool2x64 : Config :=
  {| numArenas := 2; arenaSize := 64; arenaData := 4096; exceptionsEnabled := true |}.

(** Three arenas of 16 bytes at address 4096. *)
Definition pool3x16 : Config :=
  {| numArenas := 3; arenaSize := 16; arenaData := 4096; exceptionsEnabled := true |}.

(** Three arenas of 16 bytes at address [2 ^ 33]. *)
Definition pool3x16high : Config :=
  {| numArenas := 3; arenaSize := 16; arenaData := 2 ^ 33; exceptionsEnabled := true |}.

(** The doubles nearest to 0.6 and to one third. *)
Definition double_0_6 : Q := 5404319552844595 # 9007199254740992.
Definition double_third : Q := 6004799503160661 # 18014398509481984.

Definition ustate (d left active head : Z) (fl counters : list Z) : Unsync.State :=
  {| Unsync.data := d; Unsync.bytesLeft := left; Unsync.activeArenaId := active;
     Unsync.freeListHead := head; Unsync.freeList := fl;
     Unsync.numAllocationsInArena := counters |}.

Definition sstate (d reserved active head : Z) (fl allocs deallocs : list Z)
  : Sync.State :=
  {| Sync.data := d; Sync.bytesReserved := reserved; Sync.activeArenaId := active;
     Sync.freeListHead := head; Sync.freeList := fl;
     Sync.numAllocationsInArena := allocs;
     Sync.numDeallocationsInArena := deallocs |}.

(** ** Notions for the statements about [percentile] *)

(** The sizes of the tracked allocations. *)
Definition sizes (st : Statistics.State) : list Z :=
  (Statistics.addressToBytesMap st).*2.

Fixpoint countIf (P : Z → bool) (l : list Z) : Z :=
  match l with
  | [] => 0
  | x :: rest => (if P x then 1 else 0) + countIf P rest
  end.

(** How many tracked allocations are smaller than [k], and how many are
    not larger. *)
Definition countBelow (k : Z) (st : Statistics.State) : Z :=
  countIf (λ s, s <? k) (sizes st).
Definition countUpTo (k : Z) (st : Statistics.State) : Z :=
  countIf (λ s, s <=? k) (sizes st).

(** The frequencies of a histogram at the keys that satisfy [P], added up. *)
Definition mass (P : Z → bool) (h : StdMap.t) : Z :=
  foldr (λ e acc, (if P e.1 then e.2 else 0) + acc) 0 h.

(** The percentile as the specification words it: the entries are taken
    in ascending order while the running total does not exceed [p * T],
    and the size of the last entry taken is the result. *)
Fixpoint percentile_walk_as_specified (hist : StdMap.t) (running : Z) (limit : Q)
    (lastIncluded : Z) : Z :=
  match hist with
  | [] => lastIncluded
  | (size, count) :: rest =>
      if Qle_bool (inject_Z (running + count)) limit
      then percentile_walk_as_specified rest (running + count) limit size
      else lastIncluded
  end.

Definition percentile_as_specified (st : Statistics.State) (p : Q) : Z :=
  let p := Statistics.clamp p 0 1 in
  let hist := Statistics.histogram st in
  let T := Statistics.totalFrequency hist in
  if (T =? 0) || Qeq_bool p 0 then 0
  else percentile_walk_as_specified hist 0 (p * inject_Z T) 0.

(** A tracking map with the given sizes at the addresses 4096, 4196, ... *)
Definition tracking (l : list Z) : Statistics.State :=
  {| Statistics.pool := ustate 0 0 0 0 [] [];
     Statistics.addressToBytesMap := imap (λ i s, (4096 + 100 * Z.of_nat i, s)) l;
     Statistics.maxBusyArenas := 0;
     Statistics.maxNumberOfAllocations := 0 |}.

(** ** Consistency of a pool with the blocks its consumer holds *)

(** How many of the held pointers [lv] lie in arena [a]. *)
Definition liveIn (c : Config) (a : Z) (lv : list Z) : Z :=
  countIf (λ p, Unsync.arenaIdOf c p =? a) lv.

(** The first [head] slots of the free list hold different arenas, none
    of them the active one, all of them [vacant]. *)
Definition freeListOk (c : Config) (fl : list Z) (head active : Z)
    (vacant : Z → Prop) : Prop :=
  0 ≤ head < numArenas c ∧ length fl = Z.to_nat (numArenas c) ∧
  NoDup (take (Z.to_nat head) fl) ∧
  ∀ i, 0 ≤ i < head →
       ∃ a, read fl i = Some a ∧ 0 ≤ a < numArenas c ∧ a ≠ active ∧ vacant a.

Record unsync_inv (c : Config) (st : Unsync.State) (lv : list Z) : Prop := {
  ui_active : 0 ≤ Unsync.activeArenaId st < numArenas c;
  ui_free : freeListOk c (Unsync.freeList st) (Unsync.freeListHead st)
              (Unsync.activeArenaId st)
              (λ a, read (Unsync.numAllocationsInArena st) a = Some 0);
  ui_left : 0 ≤ Unsync.bytesLeft st ≤ arenaSize c;
  ui_data : Unsync.data st
            = arenaData c + arenaSize c * Unsync.activeArenaId st + Unsync.bytesLeft st;
  ui_counts : ∀ a, 0 ≤ a < numArenas c →
                   read (Unsync.numAllocationsInArena st) a = Some (liveIn c a lv);
  ui_bound : ∀ a, 0 ≤ a < numArenas c → liveIn c a lv ≤ arenaSize c;
  ui_active_bound :
    liveIn c (Unsync.activeArenaId st) lv ≤ arenaSize c - Unsync.bytesLeft st;
  ui_live : Forall (inStorage c) lv
}.

Record sync_inv (c : Config) (st : Sync.State) (lv : list Z) : Prop := {
  si_active : 0 ≤ Sync.activeArenaId st < numArenas c;
  si_free : freeListOk c (Sync.freeList st) (Sync.freeListHead st)
              (Sync.activeArenaId st)
              (λ a, read (Sync.numAllocationsInArena st) a = Some 0 ∧
                    read (Sync.numDeallocationsInArena st) a = Some 0);
  si_reserved : 0 ≤ Sync.bytesReserved st ≤ arenaSize c;
  si_bins : Sync.bytesReserved st mod max_align = 0;
  si_data : Sync.data st
            = arenaData c + Sync.activeArenaId st * arenaSize c + Sync.bytesReserved st;
  si_counts : ∀ a, 0 ≤ a < numArenas c →
      ∃ na nd, read (Sync.numAllocationsInArena st) a = Some na ∧
               read (Sync.numDeallocationsInArena st) a = Some nd ∧
               0 ≤ nd ≤ na ∧ na ≤ arenaSize c ∧ na - nd = liveIn c a lv;
  si_active_bound :
    ∀ na, read (Sync.numAllocationsInArena st) (Sync.activeArenaId st) = Some na →
          na ≤ Sync.bytesReserved st;
  si_live : Forall (inStorage c) lv
}.

Definition engine_inv (e : Engine) : Config → EngineState e → list Z → Prop :=
  match e with
  | Unsynchronized => unsync_inv
  | Synchronized => sync_inv
  end.

(** [f 0 + ... + f (n - 1)]. *)
Fixpoint sumTo (n : nat) (f : Z → Z) : Z :=
  match n with
  | O => 0
  | S k => sumTo k f + f (Z.of_nat k)
  end.

(** ** Notions for the further properties of the engines *)

(** The alignment divides the arena size and the address of the storage. *)
Definition alignedFor (c : Config) (alignment : Z) : Prop :=
  arenaSize c mod alignment = 0 ∧ arenaData c mod alignment = 0.

(** The requests for which an engine is followed below: any for the
    synchronized engine, which ignores the alignment; for the
    unsynchronized engine those whose alignment divides the arena size and
    the address of the storage. *)
Definition requestOk (e : Engine) (c : Config) (bytes alignment : Z) : Prop :=
  match e with
  | Unsynchronized => alignedFor c alignment
  | Synchronized => True
  end.

(** [bytes] rounded up to whole bins of [alignof(max_align_t)] bytes. *)
Definition binBytes (bytes : Z) : Z :=
  max_align * ((bytes + max_align - 1) / max_align).

(** The bytes a block of [bytes] bytes ending at [d] takes with its
    padding in the unsynchronized engine. *)
Definition unsyncNeeded (d bytes alignment : Z) : Z :=
  bytes + (d - bytes) mod alignment.

(** The state after the block has been placed in the active arena. *)
Definition unsyncPlace (st : Unsync.State) (bytes alignment : Z) : Unsync.State :=
  let needed := unsyncNeeded (Unsync.data st) bytes alignment in
  ustate (Unsync.data st - needed) (Unsync.bytesLeft st - needed)
         (Unsync.activeArenaId st) (Unsync.freeListHead st) (Unsync.freeList st)
         (<[Z.to_nat (Unsync.activeArenaId st) :=
              default 0 (read (Unsync.numAllocationsInArena st) (Unsync.activeArenaId st)) + 1]>
            (Unsync.numAllocationsInArena st)).

(** The state after arena [a] has been taken from the top of the free list. *)
Definition unsyncReserve (c : Config) (st : Unsync.State) (a : Z) : Unsync.State :=
  ustate (arenaData c + arenaSize c * a + arenaSize c) (arenaSize c) a
         (Unsync.freeListHead st - 1) (Unsync.freeList st)
         (Unsync.numAllocationsInArena st).

Definition syncPlace (st : Sync.State) (n : Z) : Sync.State :=
  sstate (Sync.data st + n) (Sync.bytesReserved st + n)
         (Sync.activeArenaId st) (Sync.freeListHead st) (Sync.freeList st)
         (<[Z.to_nat (Sync.activeArenaId st) :=
              default 0 (read (Sync.numAllocationsInArena st) (Sync.activeArenaId st)) + 1]>
            (Sync.numAllocationsInArena st))
         (Sync.numDeallocationsInArena st).

Definition syncReserve (c : Config) (st : Sync.State) (a : Z) : Sync.State :=
  sstate (arenaData c + a * arenaSize c) 0 a
         (Sync.freeListHead st - 1) (Sync.freeList st)
         (Sync.numAllocationsInArena st) (Sync.numDeallocationsInArena st).

(** Remove the block that starts at [p]. *)
Fixpoint removeBlock (p : Z) (blocks : list (Z * Z)) : list (Z * Z) :=
  match blocks with
  | [] => []
  | (q, b) :: rest => if p =? q then rest else (q, b) :: removeBlock p rest
  end.

(** The states a consumer reaches who keeps to the contract, with the
    blocks it holds (address and requested size) and with requests in
    [ok] only. *)
Inductive history {St} `{ArenaResource St} (ok : Z → Z → Prop) (c : Config)
  : St → list (Z * Z) → Prop :=
| hist_construct st :
    construct c = Some st → history ok c st []
| hist_allocate st blocks bytes alignment p st' :
    history ok c st blocks → sane_request bytes alignment → ok bytes alignment →
    allocate c st bytes alignment = Returned p st' → p ≠ nullptr →
    history ok c st' ((p, bytes) :: blocks)
| hist_allocate_null st blocks bytes alignment st' :
    history ok c st blocks → sane_request bytes alignment → ok bytes alignment →
    allocate c st bytes alignment = Returned nullptr st' →
    history ok c st' blocks
| hist_allocate_thrown st blocks bytes alignment x st' :
    history ok c st blocks → sane_request bytes alignment → ok bytes alignment →
    allocate c st bytes alignment = Thrown x st' →
    history ok c st' blocks
| hist_deallocate st blocks p bytes alignment st' :
    history ok c st blocks → p ∈ blocks.*1 →
    deallocate c st p bytes alignment = Returned () st' →
    history ok c st' (removeBlock p blocks).

(** No two of the blocks share a byte. *)
Fixpoint pairwiseDisjoint (blocks : list (Z * Z)) : Prop :=
  match blocks with
  | [] => True
  | q :: rest =>
      Forall (λ q', q.1 + q.2 ≤ q'.1 ∨ q'.1 + q'.2 ≤ q.1) rest ∧ pairwiseDisjoint rest
  end.

(** The block is not empty and lies in the arena of its first byte. *)
Definition blockInArena (c : Config) (q : Z * Z) : Prop :=
  0 < q.2 ∧
  arenaData c + Unsync.arenaIdOf c q.1 * arenaSize c ≤ q.1 ∧
  q.1 + q.2 ≤ arenaData c + (Unsync.arenaIdOf c q.1 + 1) * arenaSize c.

Definition blockInStorage (c : Config) (q : Z * Z) : Prop :=
  arenaData c ≤ q.1 ∧ q.1 + q.2 ≤ arenaData c + numArenas c * arenaSize c.

(** No arena is lost: an empty active arena is untouched, and every other
    arena without a block is on the free list. *)
Record unsync_tight (c : Config) (st : Unsync.State) (lv : list Z) : Prop := {
  ut_empty : liveIn c (Unsync.activeArenaId st) lv = 0 →
             Unsync.bytesLeft st = arenaSize c;
  ut_listed : ∀ a, 0 ≤ a < numArenas c → a ≠ Unsync.activeArenaId st →
                   liveIn c a lv = 0 →
                   ∃ i, 0 ≤ i < Unsync.freeListHead st ∧
                        read (Unsync.freeList st) i = Some a
}.

Record sync_tight (c : Config) (st : Sync.State) (lv : list Z) : Prop := {
  st_empty : liveIn c (Sync.activeArenaId st) lv = 0 → Sync.bytesReserved st = 0;
  st_listed : ∀ a, 0 ≤ a < numArenas c → a ≠ Sync.activeArenaId st →
                   liveIn c a lv = 0 →
                   ∃ i, 0 ≤ i < Sync.freeListHead st ∧
                        read (Sync.freeList st) i = Some a
}.

Definition engine_tight (e : Engine) : Config → EngineState e → list Z → Prop :=
  match e with
  | Unsynchronized => unsync_tight
  | Synchronized => sync_tight
  end.

(** The held blocks lie each in one arena, apart from one another, and
    those of the active arena on the used side of the bump pointer. *)
Record unsync_blocks (c : Config) (st : Unsync.State) (blocks : list (Z * Z)) : Prop := {
  ub_within : Forall (blockInArena c) blocks;
  ub_used : Forall (λ q, Unsync.arenaIdOf c q.1 = Unsync.activeArenaId st →
                         Unsync.data st ≤ q.1) blocks;
  ub_disjoint : pairwiseDisjoint blocks
}.

Record sync_blocks (c : Config) (st : Sync.State) (blocks : list (Z * Z)) : Prop := {
  sb_within : Forall (blockInArena c) blocks;
  sb_used : Forall (λ q, Unsync.arenaIdOf c q.1 = Sync.activeArenaId st →
                         q.1 + q.2 ≤ Sync.data st) blocks;
  sb_disjoint : pairwiseDisjoint blocks
}.

Definition engine_blocks (e : Engine) : Config → EngineState e → list (Z * Z) → Prop :=
  match e with
  | Unsynchronized => unsync_blocks
  | Synchronized => sync_blocks
  end.

(** The head of the free list and the active arena of either engine. *)
Definition freeListHeadOf (e : Engine) : EngineState e → Z :=
  match e with
  | Unsynchronized => Unsync.freeListHead
  | Synchronized => Sync.freeListHead
  end.

Definition activeArenaOf (e : Engine) : EngineState e → Z :=
  match e with
  | Unsynchronized => Unsync.activeArenaId
  | Synchronized => Sync.activeArenaId
  end.

(** The arenas other than the active one in which the consumer holds a
    block. *)
Definition busyNonActiveArenas (c : Config) (active : Z) (lv : list Z) : list Z :=
  filter (λ a, a ≠ active ∧ 0 < liveIn c a lv) (seqZ 0 (numArenas c)).

(** ** Notions for the statistics wrapper along a run *)

(** [StatisticsArenaResource] as a resource: [numberOfAllocations] and
    [numberOfBusyArenas] are those of its base class. *)
#[export] Instance statistics_resource : ArenaResource Statistics.State := {|
  construct := Statistics.construct;
  allocate := Statistics.do_allocate;
  deallocate := Statistics.do_deallocate;
  liveAllocations c st := Unsync.numberOfAllocations c (Statistics.pool st);
  busyArenas c st := Unsync.numberOfBusyArenas c (Statistics.pool st)
|}.

(** Three arenas of 16 bytes at address 4096, built with
    [MULTIARENA_DISABLE_EXCEPTIONS]. *)
Definition pool3x16quiet : Config :=
  {| numArenas := 3; arenaSize := 16; arenaData := 4096; exceptionsEnabled := false |}.

Definition stats (pool : Unsync.State) (m : StdMap.t) (maxBusy maxAllocations : Z)
  : Statistics.State :=
  {| Statistics.pool := pool; Statistics.addressToBytesMap := m;
     Statistics.maxBusyArenas := maxBusy;
     Statistics.maxNumberOfAllocations := maxAllocations |}.

(** The sizes of the blocks, added up. *)
Definition sumSizes (blocks : list (Z * Z)) : Z :=
  foldr (λ q acc, q.2 + acc) 0 blocks.

(** The tracking map against the blocks the consumer holds: the map is in
    ascending order of address, lists every held block with its size and
    has never had more entries than [maxNumberOfAllocations]; when
    exceptions are enabled it lists nothing else, but for the null
    pointer with size 0. *)
Record stat_inv (c : Config) (st : Statistics.State) (blocks : list (Z * Z)) : Prop := {
  sv_sorted : StronglySorted Z.lt ((Statistics.addressToBytesMap st).*1);
  sv_held : ∀ q, q ∈ blocks → q ∈ Statistics.addressToBytesMap st;
  sv_size : StdMap.size (Statistics.addressToBytesMap st)
            ≤ Statistics.maxNumberOfAllocations st;
  sv_tracked : exceptionsEnabled c = true →
               ∀ p b, (p, b) ∈ Statistics.addressToBytesMap st →
                      (p ≠ nullptr ∧ (p, b) ∈ blocks) ∨ (p = nullptr ∧ b = 0)
}.

(* ================================================================== *)
(** * Properties *)

(** ** Machine arithmetic and arrays *)

Lemma wrap32_small x : 0 ≤ x < 2 ^ 32 → wrap32 x = x.
Proof. intros. unfold wrap32. apply Z.mod_small; lia. Qed.

Lemma wrap64_small x : 0 ≤ x < 2 ^ 64 → wrap64 x = x.
Proof. intros. unfold wrap64. apply Z.mod_small; lia. Qed.

Lemma wrap32_range x : 0 ≤ wrap32 x < 2 ^ 32.
Proof. unfold wrap32. apply Z.mod_pos_bound. lia. Qed.

Lemma wrap64_range x : 0 ≤ wrap64 x < 2 ^ 64.
Proof. unfold wrap64. apply Z.mod_pos_bound. lia. Qed.

Lemma land_pow2_mask x k : 0 ≤ k → Z.land x (2 ^ k - 1) = x mod 2 ^ k.
Proof.
  intros Hk. rewrite <- Z.land_ones by assumption.
  f_equal. rewrite Z.ones_equiv. lia.
Qed.

Lemma read_Some l i : 0 ≤ i < Z.of_nat (length l) → is_Some (read l i).
Proof. intros. unfold read. apply lookup_lt_is_Some. lia. Qed.

Lemma write_Some l i v :
  0 ≤ i < Z.of_nat (length l) → write l i v = Some (<[Z.to_nat i := v]> l).
Proof. intros. unfold write. rewrite decide_True; [done | lia]. Qed.

Lemma write_Some_nat l i v :
  (Z.to_nat i < length l)%nat → write l i v = Some (<[Z.to_nat i := v]> l).
Proof. intros. unfold write. rewrite decide_True; done. Qed.

Lemma write_inv l i v l' :
  write l i v = Some l' → l' = <[Z.to_nat i := v]> l ∧ (Z.to_nat i < length l)%nat.
Proof. unfold write. case_decide; [|done]. intros [= <-]. done. Qed.

Lemma read_insert_eq l i v :
  0 ≤ i < Z.of_nat (length l) → read (<[Z.to_nat i := v]> l) i = Some v.
Proof. intros. unfold read. apply list_lookup_insert_eq. lia. Qed.

Lemma read_insert_ne l i j v :
  0 ≤ i → 0 ≤ j → i ≠ j → read (<[Z.to_nat i := v]> l) j = read l j.
Proof. intros. unfold read. apply list_lookup_insert_ne. lia. Qed.

(** ** Over-aligned requests in the unsynchronized engine *)

Ltac sane_pow k :=
  split; [lia | split; [exists k; split; [lia | reflexivity] | lia]].

Ltac run_construct := apply reach_construct; vm_compute; reflexivity.

(** After [allocate(48, 32)] on a fresh pool of three arenas of 48 bytes
    the first arena is full. *)
Lemma pool3x48_first_reachable :
  reachable pool3x48
    {| resource := ustate 4096 0 0 2 [2; 1; 0] [1; 0; 0]; live := [4096];
       numAllocated := 0 + 1; numDeallocated := 0 |}.
Proof.
  apply (reach_allocate pool3x48
           {| resource := ustate 4144 48 0 2 [2; 1; 0] [0; 0; 0]; live := [];
              numAllocated := 0; numDeallocated := 0 |} 48 32 4096).
  - run_construct.
  - sane_pow 5.
  - vm_compute; reflexivity.
  - discriminate.
Qed.

(** C3, at a concrete input: the pool of three arenas of 48 bytes at
    address 4096, whose first arena is full after one [allocate(48, 32)].
    A second [allocate(48, 32)] does not fit the active arena, asks for no
    more than an arena and finds two arenas on the free list; the arena it
    reserves first (arena 1, whose top 4192 less 48 bytes is 16 above a
    multiple of 32) cannot take the block either, so a second arena is
    popped: the free list head goes from 2 to 0 and arena 1 is left neither
    active nor free, with no allocation in it. *)
Theorem retry_in_reserved_arena_fails :
  let st := ustate 4096 0 0 2 [2; 1; 0] [1; 0; 0] in
  let st1 := ustate 4192 48 1 1 [2; 1; 0] [1; 0; 0] in
  sane_request 48 32 ∧ 48 ≤ arenaSize pool3x48 ∧ 0 < Unsync.freeListHead st ∧
  Unsync.reserveNextArena pool3x48 st = Some (true, st1) ∧
  Unsync.do_allocate_details pool3x48 st1 48 32
    = Some (4192, ustate 4192 0 2 0 [2; 1; 0] [1; 0; 1]) ∧
  Unsync.do_allocate pool3x48 st 48 32
    = Returned 4192 (ustate 4192 0 2 0 [2; 1; 0] [1; 0; 1]).
Proof.
  cbv zeta. split; [sane_pow 5|].
  repeat split; try (vm_compute; reflexivity); vm_compute; congruence.
Qed.

(** C2, at a concrete input: the pool of two arenas of 48 bytes at address
    4096 after one [allocate(48, 32)].  The next [allocate(48, 32)] throws
    [OutOfFreeArenas], and the state at the throw differs from the state
    before the call: the last free arena has been made the active one. *)
Theorem failed_allocate_changes_state :
  let st := ustate 4096 0 0 1 [1; 0] [1; 0] in
  let st' := ustate 4192 48 1 0 [1; 0] [1; 0] in
  reachable pool2x48
    {| resource := st; live := [4096]; numAllocated := 0 + 1; numDeallocated := 0 |} ∧
  Unsync.do_allocate pool2x48 st 48 32 = Thrown (OutOfFreeArenas 2) st' ∧
  Unsync.activeArenaId st' ≠ Unsync.activeArenaId st ∧
  Unsync.freeListHead st' ≠ Unsync.freeListHead st ∧
  Unsync.bytesLeft st' ≠ Unsync.bytesLeft st ∧
  Unsync.data st' ≠ Unsync.data st.
Proof.
  cbv zeta. split.
  - apply (reach_allocate pool2x48
             {| resource := ustate 4144 48 0 1 [1; 0] [0; 0]; live := [];
                numAllocated := 0; numDeallocated := 0 |} 48 32 4096).
    + run_construct.
    + sane_pow 5.
    + vm_compute; reflexivity.
    + discriminate.
  - repeat split; try (vm_compute; reflexivity); vm_compute; congruence.
Qed.

(** C1, at a concrete input: on the pool of three arenas of 48 bytes at
    address 4096 the calls [allocate(48, 32)] (giving 4096),
    [allocate(48, 32)] (giving 4192), [deallocate(4096)], [deallocate(4192)]
    give back every block, and [numberOfAllocations()] is 0, yet
    [numberOfBusyArenas()] is 2: arena 1 was passed over by the second
    allocation and is lost to the pool. *)
Theorem busy_arenas_after_everything_is_freed :
  ∃ r : Run Unsync.State,
    reachable pool3x48 r ∧ live r = [] ∧
    numAllocated r = 2 ∧ numDeallocated r = 2 ∧
    liveAllocations pool3x48 (resource r) = Some 0 ∧
    busyArenas pool3x48 (resource r) = Some 2.
Proof.
  exists {| resource := ustate 4240 48 2 1 [0; 1; 0] [0; 0; 0]; live := [];
            numAllocated := 0 + 1 + 1; numDeallocated := 0 + 1 + 1 |}.
  split; [| repeat split; vm_compute; reflexivity].
  apply (reach_deallocate pool3x48
           {| resource := ustate 4192 0 2 1 [0; 1; 0] [0; 0; 1]; live := [4192];
              numAllocated := 0 + 1 + 1; numDeallocated := 0 + 1 |} 4192 48 32);
    [| repeat constructor | vm_compute; reflexivity].
  apply (reach_deallocate pool3x48
           {| resource := ustate 4192 0 2 0 [2; 1; 0] [1; 0; 1]; live := [4192; 4096];
              numAllocated := 0 + 1 + 1; numDeallocated := 0 |} 4096 48 32);
    [| repeat constructor | vm_compute; reflexivity].
  apply (reach_allocate pool3x48 _ 48 32 4192 _ pool3x48_first_reachable).
  - sane_pow 5.
  - vm_compute; reflexivity.
  - discriminate.
Qed.

(** ** What [do_deallocate] checks *)

Lemma arenaId_nonneg c p : 0 < arenaSize c → 0 ≤ wrap32 (wrap64 (p - arenaData c)) / arenaSize c.
Proof.
  intros. apply Z.div_pos; [|lia].
  pose proof (wrap32_range (wrap64 (p - arenaData c))). lia.
Qed.

Lemma unsync_deallocate_thrown c st p bytes alignment :
  exceptionsEnabled c = true → 0 < arenaSize c →
  numArenas c ≤ Unsync.arenaIdOf c p →
  Unsync.do_deallocate c st p bytes alignment
    = Thrown (ArenaMemoryResourceCorruption p bytes alignment) st.
Proof.
  intros Hx HS Hid. unfold Unsync.do_deallocate.
  destruct (Z.eqb_spec (arenaSize c) 0) as [|_]; [lia|].
  rewrite Hx. simpl. destruct (Z.leb_spec (numArenas c) (Unsync.arenaIdOf c p)); [done | lia].
Qed.

Lemma unsync_deallocate_thrown_inv c st p bytes alignment x st' :
  0 < arenaSize c →
  Unsync.do_deallocate c st p bytes alignment = Thrown x st' →
  numArenas c ≤ Unsync.arenaIdOf c p ∧
  x = ArenaMemoryResourceCorruption p bytes alignment ∧ st' = st.
Proof.
  intros HS. unfold Unsync.do_deallocate.
  destruct (Z.eqb_spec (arenaSize c) 0) as [|_]; [lia|].
  destruct (exceptionsEnabled c); simpl.
  - destruct (Z.leb_spec (numArenas c) (Unsync.arenaIdOf c p)).
    + intros [= <- <-]. done.
    + destruct (_ ≫= _); discriminate.
  - destruct (_ ≫= _); discriminate.
Qed.

Lemma sync_deallocate_thrown c st p bytes alignment :
  exceptionsEnabled c = true → 0 < arenaSize c →
  numArenas c ≤ Sync.arenaIdOf c p →
  Sync.do_deallocate c st p bytes alignment
    = Thrown (ArenaMemoryResourceCorruption p bytes alignment) st.
Proof.
  intros Hx HS Hid. unfold Sync.do_deallocate.
  destruct (Z.eqb_spec (arenaSize c) 0) as [|_]; [lia|].
  rewrite Hx. simpl. destruct (Z.leb_spec (numArenas c) (Sync.arenaIdOf c p)); [done | lia].
Qed.

Lemma sync_deallocate_thrown_inv c st p bytes alignment x st' :
  0 < arenaSize c →
  Sync.do_deallocate c st p bytes alignment = Thrown x st' →
  numArenas c ≤ Sync.arenaIdOf c p ∧
  x = ArenaMemoryResourceCorruption p bytes alignment ∧ st' = st.
Proof.
  intros HS. unfold Sync.do_deallocate.
  destruct (Z.eqb_spec (arenaSize c) 0) as [|_]; [lia|].
  destruct (exceptionsEnabled c); simpl.
  - destruct (Z.leb_spec (numArenas c) (Sync.arenaIdOf c p)).
    + intros [= <- <-]. done.
    + destruct (_ ≫= _); discriminate.
  - destruct (_ ≫= _); discriminate.
Qed.

(** C5 as stated fails: on the fresh pool of three arenas of 16 bytes at
    address 4096 the address [4096 + 2 ^ 32] lies outside the storage and
    its offset divided by the arena size is [2 ^ 28], not below 3, yet
    [deallocate] raises nothing: the offset is cut to 32 bits first, which
    gives arena 0, whose counter is decremented. *)
Lemma foreign_address_not_detected :
  let p := 4096 + 2 ^ 32 in
  let st := ustate 4112 16 0 2 [2; 1; 0] [0; 0; 0] in
  Unsync.initializeArenas pool3x16 = Some st ∧
  ¬ inStorage pool3x16 p ∧
  numArenas pool3x16 ≤ (p - arenaData pool3x16) / arenaSize pool3x16 ∧
  Unsync.do_deallocate pool3x16 st p 0 16
    = Returned () (ustate 4112 16 0 2 [2; 1; 0] [2 ^ 32 - 1; 0; 0]).
Proof.
  cbv zeta. repeat split; try (vm_compute; reflexivity).
  - unfold inStorage. vm_compute. intros [_ H]. discriminate H.
  - vm_compute. discriminate.
Qed.

(** C5, amended: with exceptions enabled and in either engine,
    [deallocate] raises [ArenaMemoryResourceCorruption] exactly when the
    offset of the address from the storage, cut to 32 bits and divided by
    the arena size, is not below the number of arenas; it raises nothing
    else and leaves the state as it was; in particular it raises for every
    address from the end of the storage up to [2 ^ 32] bytes above its
    start. *)
Theorem corruption_raised_iff (e : Engine) (c : Config) (st : EngineState e)
    (p bytes alignment : Z) :
  exceptionsEnabled c = true → 0 < arenaSize c → 0 ≤ numArenas c →
  ((∃ x st', deallocate c st p bytes alignment = Thrown x st') ↔
   numArenas c ≤ wrap32 (wrap64 (p - arenaData c)) / arenaSize c) ∧
  (∀ x st', deallocate c st p bytes alignment = Thrown x st' →
            x = ArenaMemoryResourceCorruption p bytes alignment ∧ st' = st) ∧
  (arenaData c + numArenas c * arenaSize c ≤ p < arenaData c + 2 ^ 32 →
   deallocate c st p bytes alignment
     = Thrown (ArenaMemoryResourceCorruption p bytes alignment) st).
Proof.
  intros Hx HS HN.
  assert (Hfar : arenaData c + numArenas c * arenaSize c ≤ p < arenaData c + 2 ^ 32 →
                 numArenas c ≤ wrap32 (wrap64 (p - arenaData c)) / arenaSize c).
  { intros Hp. rewrite wrap64_small by nia. rewrite wrap32_small by nia.
    apply Z.div_le_lower_bound; nia. }
  destruct e; simpl in *.
  - split; [split|split].
    + intros (x & st' & H). by apply unsync_deallocate_thrown_inv in H as (? & _).
    + intros H. eexists _, _. by apply unsync_deallocate_thrown.
    + intros x st' H. by apply unsync_deallocate_thrown_inv in H as (_ & ? & ?).
    + intros Hp. apply unsync_deallocate_thrown; auto.
  - split; [split|split].
    + intros (x & st' & H). by apply sync_deallocate_thrown_inv in H as (? & _).
    + intros H. eexists _, _. by apply sync_deallocate_thrown.
    + intros x st' H. by apply sync_deallocate_thrown_inv in H as (_ & ? & ?).
    + intros Hp. apply sync_deallocate_thrown; auto.
Qed.

Lemma corruption_raised_iff_witness :
  exceptionsEnabled pool3x16 = true ∧ 0 < arenaSize pool3x16 ∧ 0 ≤ numArenas pool3x16 ∧
  Unsync.do_deallocate pool3x16 (ustate 4112 16 0 2 [2; 1; 0] [0; 0; 0]) 4144 0 16
    = Thrown (ArenaMemoryResourceCorruption 4144 0 16)
             (ustate 4112 16 0 2 [2; 1; 0] [0; 0; 0]).
Proof.
  split; [reflexivity | split; [reflexivity | split; [discriminate |]]].
  apply (corruption_raised_iff Unsynchronized pool3x16
           (ustate 4112 16 0 2 [2; 1; 0] [0; 0; 0]) 4144 0 16);
    [reflexivity | reflexivity | discriminate | vm_compute; split; [discriminate | reflexivity]].
Defined.

(** ** The unchecked decrement of [do_deallocate] *)

Lemma read_lt l i n : read l i = Some n → (Z.to_nat i < length l)%nat.
Proof. unfold read. apply lookup_lt_Some. Qed.

(** C9 as stated fails in its last part: on the pool of three arenas of
    16 bytes at address 4096, [deallocate(4112)] on the fresh pool wraps
    the counter of arena 1 to [2 ^ 32 - 1].  Then [allocate(16, 1)] fills
    arena 0, [allocate(8, 1)] reserves arena 1 and wraps its counter to 0,
    [allocate(8, 1)] raises it to 1, [allocate(16, 1)] reserves arena 2,
    and [deallocate(4112)] brings the counter of arena 1 to zero again and
    releases arena 1 to the free list. *)
Lemma wrapped_counter_returns_to_zero :
  let c := pool3x16 in
  let s0 := ustate 4112 16 0 2 [2; 1; 0] [0; 0; 0] in
  let s1 := ustate 4112 16 0 2 [2; 1; 0] [0; 2 ^ 32 - 1; 0] in
  let s2 := ustate 4096 0 0 2 [2; 1; 0] [1; 2 ^ 32 - 1; 0] in
  let s3 := ustate 4120 8 1 1 [2; 1; 0] [1; 0; 0] in
  let s4 := ustate 4112 0 1 1 [2; 1; 0] [1; 1; 0] in
  let s5 := ustate 4128 0 2 0 [2; 1; 0] [1; 1; 1] in
  let s6 := ustate 4128 0 2 1 [1; 1; 0] [1; 0; 1] in
  Unsync.initializeArenas c = Some s0 ∧
  Unsync.arenaIdOf c 4112 = 1 ∧
  Unsync.do_deallocate c s0 4112 0 16 = Returned () s1 ∧
  Unsync.do_allocate c s1 16 1 = Returned 4096 s2 ∧
  Unsync.do_allocate c s2 8 1 = Returned 4120 s3 ∧
  Unsync.do_allocate c s3 8 1 = Returned 4112 s4 ∧
  Unsync.do_allocate c s4 16 1 = Returned 4128 s5 ∧
  Unsync.do_deallocate c s5 4112 8 1 = Returned () s6 ∧
  Unsync.allocationsInArena s6 1 = Some 0 ∧
  read (Unsync.freeList s6) 0 = Some 1 ∧ 0 < Unsync.freeListHead s6.
Proof. cbv zeta. repeat split; vm_compute; reflexivity. Qed.

(** C9, amended: in the unsynchronized engine a [deallocate] whose arena
    id (the offset of the address cut to 32 bits, divided by the arena
    size) is below the number of arenas raises nothing and leaves in that
    arena's counter its old value less one modulo [2 ^ 32], the other
    counters unchanged (the free list must have a slot left, for the case
    that the arena is released); on a counter that is 0 the call leaves
    [2 ^ 32 - 1] there and changes nothing else, so it neither resets nor
    releases the arena.  Nothing is said about later calls: the counter
    can return to zero. *)
Theorem deallocate_decrements_unchecked (c : Config) (st : Unsync.State)
    (p bytes alignment n : Z) :
  0 < arenaSize c →
  Unsync.arenaIdOf c p < numArenas c →
  Unsync.allocationsInArena st (Unsync.arenaIdOf c p) = Some n →
  (Z.to_nat (Unsync.freeListHead st) < length (Unsync.freeList st))%nat →
  ∃ st', Unsync.do_deallocate c st p bytes alignment = Returned () st' ∧
    Unsync.allocationsInArena st' (Unsync.arenaIdOf c p) = Some (wrap32 (n - 1)) ∧
    (∀ j, 0 ≤ j → j ≠ Unsync.arenaIdOf c p →
          Unsync.allocationsInArena st' j = Unsync.allocationsInArena st j) ∧
    (n = 0 →
     st' = {| Unsync.data := Unsync.data st;
              Unsync.bytesLeft := Unsync.bytesLeft st;
              Unsync.activeArenaId := Unsync.activeArenaId st;
              Unsync.freeListHead := Unsync.freeListHead st;
              Unsync.freeList := Unsync.freeList st;
              Unsync.numAllocationsInArena :=
                <[Z.to_nat (Unsync.arenaIdOf c p) := 2 ^ 32 - 1]>
                  (Unsync.numAllocationsInArena st) |}).
Proof.
  intros HS Hid Hn Hfree.
  pose proof (arenaId_nonneg c p HS) as Hid0. fold (Unsync.arenaIdOf c p) in Hid0.
  set (id := Unsync.arenaIdOf c p) in *.
  unfold Unsync.allocationsInArena in *.
  pose proof (read_lt _ _ _ Hn) as Hlen.
  unfold Unsync.do_deallocate. fold id.
  destruct (Z.eqb_spec (arenaSize c) 0) as [|_]; [lia|].
  destruct (Z.leb_spec (numArenas c) id) as [|_]; [lia|].
  rewrite andb_false_r. rewrite Hn. simpl.
  rewrite write_Some by lia. simpl.
  destruct (Z.eqb_spec (wrap32 (n - 1)) 0) as [Hz|Hz].
  - assert (n ≠ 0) by (intros ->; vm_compute in Hz; discriminate).
    destruct (Z.eqb_spec id (Unsync.activeArenaId st)) as [Ha|Ha].
    + unfold Unsync.resetActiveArena. simpl. rewrite <- Ha.
      rewrite write_Some by (rewrite length_insert; lia). simpl.
      eexists. split; [reflexivity|]. simpl. rewrite Hz.
      split; [|split]; [| |done].
      * apply read_insert_eq. rewrite length_insert. lia.
      * intros j Hj Hne. rewrite !read_insert_ne by lia. done.
    + unfold Unsync.releaseArena. simpl.
      rewrite (write_Some_nat (Unsync.freeList st)) by lia. simpl.
      rewrite write_Some by (rewrite length_insert; lia). simpl.
      eexists. split; [reflexivity|]. simpl. rewrite Hz.
      split; [|split]; [| |done].
      * apply read_insert_eq. rewrite length_insert. lia.
      * intros j Hj Hne. rewrite !read_insert_ne by lia. done.
  - eexists. split; [reflexivity|]. simpl.
    split; [|split].
    + apply read_insert_eq. lia.
    + intros j Hj Hne. rewrite !read_insert_ne by lia. done.
    + intros ->. reflexivity.
Qed.

Lemma deallocate_decrements_unchecked_witness :
  0 < arenaSize pool3x16 ∧
  Unsync.arenaIdOf pool3x16 4112 < numArenas pool3x16 ∧
  Unsync.do_deallocate pool3x16 (ustate 4112 16 0 2 [2; 1; 0] [0; 0; 0]) 4112 0 16
    = Returned () (ustate 4112 16 0 2 [2; 1; 0] [0; 2 ^ 32 - 1; 0]).
Proof.
  split; [reflexivity | split; [reflexivity |]].
  destruct (deallocate_decrements_unchecked pool3x16
              (ustate 4112 16 0 2 [2; 1; 0] [0; 0; 0]) 4112 0 16 0)
    as (st' & Hst & _ & _ & Heq);
    [reflexivity | reflexivity | reflexivity | simpl; lia |].
  rewrite Hst, (Heq eq_refl). reflexivity.
Defined.

(** ** The statistics wrapper and requests of zero bytes *)

Lemma assign_elem m k v : (k, v) ∈ StdMap.assign m k v.
Proof.
  induction m as [|[k' v'] rest IH]; simpl.
  - constructor.
  - destruct (k <? k'); [constructor|].
    destruct (k =? k'); [constructor|]. by constructor.
Qed.

Lemma assign_length_fresh m k v :
  k ∉ m.*1 → length (StdMap.assign m k v) = S (length m).
Proof.
  induction m as [|[k' v'] rest IH]; simpl; intros Hk; [done|].
  destruct (k <? k'); [done|].
  destruct (Z.eqb_spec k k') as [->|Hne].
  - exfalso. apply Hk. constructor.
  - simpl. f_equal. apply IH. intros Hin. apply Hk. by constructor.
Qed.

(** C10: in the statistics wrapper [allocate(0, a)] returns the null
    pointer and leaves the pool as it was, yet the entry (null pointer, 0)
    is in the tracking map afterwards and both high-water marks are
    updated; when the null pointer was not a key before, the map grows by
    one entry, so on a map that was empty it has one entry and
    [maxNumberOfAllocations] is at least one although the pool holds what
    it held. *)
Theorem statistics_allocate_zero (c : Config) (st : Statistics.State)
    (alignment busy : Z) :
  Unsync.numberOfBusyArenas c (Statistics.pool st) = Some busy →
  ∃ st', Statistics.do_allocate c st 0 alignment = Returned nullptr st' ∧
    Statistics.pool st' = Statistics.pool st ∧
    (nullptr, 0) ∈ Statistics.addressToBytesMap st' ∧
    Statistics.maxBusyArenas st' = Z.max (Statistics.maxBusyArenas st) busy ∧
    Statistics.maxNumberOfAllocations st'
      = Z.max (Statistics.maxNumberOfAllocations st)
              (StdMap.size (Statistics.addressToBytesMap st')) ∧
    (nullptr ∉ (Statistics.addressToBytesMap st).*1 →
     StdMap.size (Statistics.addressToBytesMap st')
       = StdMap.size (Statistics.addressToBytesMap st) + 1) ∧
    (Statistics.addressToBytesMap st = [] →
     StdMap.size (Statistics.addressToBytesMap st') = 1 ∧
     1 ≤ Statistics.maxNumberOfAllocations st' ∧
     Unsync.numberOfAllocations c (Statistics.pool st')
       = Unsync.numberOfAllocations c (Statistics.pool st)).
Proof.
  intros Hbusy. unfold Statistics.do_allocate, Unsync.do_allocate. simpl.
  rewrite Hbusy. change (wrap32 0) with 0.
  eexists. split; [reflexivity|]. simpl.
  split; [done|]. split; [apply assign_elem|].
  split; [done|]. split; [done|]. split.
  - intros Hfresh. unfold StdMap.size. rewrite assign_length_fresh by done. lia.
  - intros ->. simpl. split; [done|]. split; [|done]. unfold StdMap.size. simpl. lia.
Qed.

Lemma statistics_allocate_zero_witness :
  Unsync.numberOfBusyArenas pool3x16 (ustate 4112 16 0 2 [2; 1; 0] [0; 0; 0]) = Some 0 ∧
  Statistics.do_allocate pool3x16
    {| Statistics.pool := ustate 4112 16 0 2 [2; 1; 0] [0; 0; 0];
       Statistics.addressToBytesMap := [];
       Statistics.maxBusyArenas := 0; Statistics.maxNumberOfAllocations := 0 |} 0 8
  = Returned nullptr
    {| Statistics.pool := ustate 4112 16 0 2 [2; 1; 0] [0; 0; 0];
       Statistics.addressToBytesMap := [(nullptr, 0)];
       Statistics.maxBusyArenas := 0; Statistics.maxNumberOfAllocations := 1 |}.
Proof.
  split; [reflexivity|].
  destruct (statistics_allocate_zero pool3x16
              {| Statistics.pool := ustate 4112 16 0 2 [2; 1; 0] [0; 0; 0];
                 Statistics.addressToBytesMap := [];
                 Statistics.maxBusyArenas := 0;
                 Statistics.maxNumberOfAllocations := 0 |} 8 0)
    as (st' & Hst & _); [reflexivity|].
  rewrite Hst. vm_compute in Hst. injection Hst as <-. reflexivity.
Defined.

(** ** Rounding to a [double] *)

Lemma Zle_inject (a b : Z) : (inject_Z a <= inject_Z b)%Q → a ≤ b.
Proof. by rewrite <- Zle_Qle. Qed.

Lemma Zlt_inject (a b : Z) : (inject_Z a < inject_Z b)%Q → a < b.
Proof. by rewrite <- Zlt_Qlt. Qed.

Lemma floor_above (z : Z) (x : Q) : (inject_Z z <= x)%Q → z ≤ Qfloor x.
Proof. intros H. rewrite <- (Qfloor_Z z). by apply Qfloor_resp_le. Qed.

Lemma ceiling_below (z : Z) (x : Q) : (x <= inject_Z z)%Q → Qceiling x ≤ z.
Proof. intros H. rewrite <- (Qceiling_Z z). by apply Qceiling_resp_le. Qed.

Lemma roundHalfEven_bounds m : Qfloor m ≤ roundHalfEven m ≤ Qceiling m.
Proof.
  unfold roundHalfEven.
  pose proof (Qfloor_le m) as Hfl. pose proof (Qle_ceiling m) as Hce.
  assert (Hfc : Qfloor m ≤ Qceiling m) by (apply Zle_inject, Qle_floor_ceiling).
  assert (Hup : (0 < m - inject_Z (Qfloor m))%Q → Qfloor m + 1 ≤ Qceiling m).
  { intros Hpos. assert (Qfloor m < Qceiling m); [|lia].
    apply Zlt_inject. lra. }
  destruct (Qcompare_spec (m - inject_Z (Qfloor m)) (1 # 2)) as [He|Hl|Hg].
  - destruct (Z.even (Qfloor m)); [lia|]. split; [lia|]. apply Hup. lra.
  - lia.
  - split; [lia|]. apply Hup. lra.
Qed.

Lemma roundHalfEven_above (z : Z) m : (inject_Z z <= m)%Q → z ≤ roundHalfEven m.
Proof.
  intros H. pose proof (roundHalfEven_bounds m). pose proof (floor_above z m H). lia.
Qed.

Lemma roundHalfEven_below (z : Z) m : (m <= inject_Z z)%Q → roundHalfEven m ≤ z.
Proof.
  intros H. pose proof (roundHalfEven_bounds m). pose proof (ceiling_below z m H). lia.
Qed.

Lemma roundHalfEven_comp x y : x == y → roundHalfEven x = roundHalfEven y.
Proof.
  intros H. unfold roundHalfEven. rewrite (Qfloor_comp _ _ H).
  assert (Hc : (x - inject_Z (Qfloor y) ?= 1 # 2)%Q = (y - inject_Z (Qfloor y) ?= 1 # 2)%Q).
  { apply Qcompare_comp; [by rewrite H | reflexivity]. }
  by rewrite Hc.
Qed.

Lemma roundHalfEven_mono a b : (a <= b)%Q → roundHalfEven a ≤ roundHalfEven b.
Proof.
  intros Hab. pose proof (Qfloor_resp_le _ _ Hab) as Hfl.
  pose proof (roundHalfEven_bounds b) as [Hb _].
  unfold roundHalfEven in *.
  destruct (Z.eq_dec (Qfloor a) (Qfloor b)) as [Heq|Hne].
  - rewrite Heq in *.
    destruct (Qcompare_spec (a - inject_Z (Qfloor b)) (1 # 2)) as [He|Hl|Hg];
      destruct (Qcompare_spec (b - inject_Z (Qfloor b)) (1 # 2)) as [He'|Hl'|Hg'];
      try lia; try lra; destruct (Z.even (Qfloor b)); lia.
  - assert (Qfloor a + 1 ≤ Qfloor b) by lia.
    destruct (Qcompare_spec (a - inject_Z (Qfloor a)) (1 # 2)) as [He|Hl|Hg];
      try destruct (Z.even (Qfloor a)); lia.
Qed.

Lemma pow2_pos k : (0 < 2 ^ k)%Q.
Proof. by apply Qpower_0_lt. Qed.

Lemma pow2_Z k : 0 ≤ k → (2 ^ k)%Q == inject_Z (2 ^ k).
Proof. intros Hk. symmetry. by apply (Zpower_Qpower 2). Qed.

Lemma pow2_add a b : (2 ^ (a + b) == 2 ^ a * 2 ^ b)%Q.
Proof. by apply Qpower_plus. Qed.

Lemma pow2_cancel k : (2 ^ (- k) * 2 ^ k == 1)%Q.
Proof. rewrite <- pow2_add. replace (- k + k) with 0 by lia. reflexivity. Qed.

Lemma pow2_le a b : a ≤ b → (2 ^ a <= 2 ^ b)%Q.
Proof.
  intros Hab. replace b with (a + (b - a)) by lia. rewrite pow2_add.
  pose proof (pow2_pos a). assert (1 <= 2 ^ (b - a))%Q; [|nra].
  apply Qpower_1_le; [lra | lia].
Qed.

Lemma binade_comp x y : x == y → binade x = binade y.
Proof.
  intros H. unfold binade.
  rewrite (Qfloor_comp _ _ H), (Qceiling_comp (/ x) (/ y)) by (by rewrite H).
  assert (Hb : Qle_bool 1 x = Qle_bool 1 y) by (by rewrite H).
  by rewrite Hb.
Qed.

Lemma binade_small x : (0 < x)%Q → (x < inject_Z (2 ^ 53))%Q → binade x ≤ 52.
Proof.
  intros Hx Hlt. unfold binade. destruct (Qle_bool 1 x) eqn:H1.
  - apply Qle_bool_iff in H1.
    assert (1 ≤ Qfloor x) by (by apply floor_above).
    assert (Qfloor x < 2 ^ 53).
    { apply Zlt_inject. pose proof (Qfloor_le x). lra. }
    assert (Z.log2 (Qfloor x) < 53); [|lia].
    apply Z.log2_lt_pow2; lia.
  - pose proof (Z.log2_up_nonneg (Qceiling (/ x))). lia.
Qed.

(** The double nearest to a positive number below [2 ^ 53] lies between
    the integers around the number. *)
Lemma roundPositive_between x :
  (0 < x)%Q → (x < inject_Z (2 ^ 53))%Q →
  (inject_Z (Qfloor x) <= roundPositive x)%Q ∧
  (roundPositive x <= inject_Z (Qceiling x))%Q.
Proof.
  intros Hx Hlt. unfold roundPositive.
  pose proof (binade_small x Hx Hlt) as He.
  set (k := Z.max (binade x - 52) (-1074)).
  assert (Hk : k ≤ 0) by lia.
  pose proof (pow2_pos k) as Hpk. pose proof (pow2_pos (- k)) as Hpnk.
  pose proof (pow2_cancel k) as Hcan.
  pose proof (pow2_Z (- k) ltac:(lia)) as HP.
  pose proof (Qfloor_le x) as Hfl. pose proof (Qle_ceiling x) as Hce.
  assert (Hlo : Qfloor x * 2 ^ (- k) ≤ roundHalfEven (x * 2 ^ (- k))).
  { apply roundHalfEven_above. rewrite inject_Z_mult, <- HP. nra. }
  assert (Hhi : roundHalfEven (x * 2 ^ (- k)) ≤ Qceiling x * 2 ^ (- k)).
  { apply roundHalfEven_below. rewrite inject_Z_mult, <- HP. nra. }
  rewrite Zle_Qle, inject_Z_mult, <- HP in Hlo.
  rewrite Zle_Qle, inject_Z_mult, <- HP in Hhi.
  split.
  - assert (E : inject_Z (Qfloor x) == inject_Z (Qfloor x) * 2 ^ (- k) * 2 ^ k)
      by (rewrite <- Qmult_assoc, Hcan; ring).
    rewrite E. apply Qmult_le_compat_r; [done | lra].
  - assert (E : inject_Z (Qceiling x) == inject_Z (Qceiling x) * 2 ^ (- k) * 2 ^ k)
      by (rewrite <- Qmult_assoc, Hcan; ring).
    rewrite E. apply Qmult_le_compat_r; [done | lra].
Qed.

Lemma roundPositive_comp x y : x == y → roundPositive x == roundPositive y.
Proof.
  intros H. unfold roundPositive. rewrite (binade_comp _ _ H).
  rewrite (roundHalfEven_comp (x * _) (y * 2 ^ (- Z.max (binade y - 52) (-1074))))
    by (by rewrite H).
  reflexivity.
Qed.

Lemma roundDouble_comp x y : x == y → roundDouble x == roundDouble y.
Proof.
  intros H. unfold roundDouble.
  assert (Hc : (x ?= 0)%Q = (y ?= 0)%Q) by (by rewrite H).
  rewrite Hc. destruct (y ?= 0)%Q; [reflexivity | |].
  - apply Qopp_comp, roundPositive_comp. by rewrite H.
  - by apply roundPositive_comp.
Qed.

Lemma toSize_comp x y : x == y → toSize x = toSize y.
Proof.
  intros H. unfold toSize.
  assert (Hb : Qle_bool 0 x = Qle_bool 0 y) by (by rewrite H).
  by rewrite Hb, (Qfloor_comp _ _ H), (Qceiling_comp _ _ H).
Qed.

Lemma toSize_round x :
  (0 < x)%Q → (x < inject_Z (2 ^ 53))%Q →
  toSize (roundDouble x) = Some (Qfloor (roundDouble x)) ∧
  Qfloor x ≤ Qfloor (roundDouble x) ≤ Qceiling x.
Proof.
  intros Hx Hlt. destruct (roundPositive_between x Hx Hlt) as [Hlo Hhi].
  assert (Hr : roundDouble x = roundPositive x).
  { unfold roundDouble. apply Qgt_alt in Hx. by rewrite Hx. }
  rewrite Hr.
  assert (H0 : 0 ≤ Qfloor x) by (apply floor_above; change (inject_Z 0) with 0%Q; lra).
  assert (Hfl : Qfloor x ≤ Qfloor (roundPositive x)) by (by apply floor_above).
  assert (Hce : Qfloor (roundPositive x) ≤ Qceiling x).
  { rewrite <- (Qfloor_Z (Qceiling x)). by apply Qfloor_resp_le. }
  assert (Hc53 : Qceiling x ≤ 2 ^ 53) by (apply ceiling_below; lra).
  split; [|lia].
  unfold toSize.
  assert (Hnn : Qle_bool 0 (roundPositive x) = true).
  { apply Qle_bool_iff. pose proof (Qfloor_le x).
    assert (0 <= inject_Z (Qfloor x))%Q by (by rewrite <- (Zle_Qle 0)). lra. }
  rewrite Hnn.
  destruct (Z.leb_spec 0 (Qfloor (roundPositive x))); [|lia].
  destruct (Z.ltb_spec (Qfloor (roundPositive x)) (2 ^ 64)); [done | lia].
Qed.

Lemma roundDouble_Z T : 0 ≤ T < 2 ^ 53 → roundDouble (inject_Z T) == inject_Z T.
Proof.
  intros HT. destruct (Z.eq_dec T 0) as [->|Hne]; [reflexivity|].
  assert (Hpos : (0 < inject_Z T)%Q) by (rewrite <- (Zlt_Qlt 0); lia).
  assert (Hlt : (inject_Z T < inject_Z (2 ^ 53))%Q) by (rewrite <- Zlt_Qlt; lia).
  destruct (roundPositive_between _ Hpos Hlt) as [Hlo Hhi].
  rewrite Qfloor_Z in Hlo. rewrite Qceiling_Z in Hhi.
  unfold roundDouble. apply Qgt_alt in Hpos. rewrite Hpos. by apply Qle_antisym.
Qed.

Lemma binade_spec x :
  (0 < x)%Q → (2 ^ binade x <= x)%Q ∧ (x < 2 ^ (binade x + 1))%Q.
Proof.
  intros Hx. unfold binade. destruct (Qle_bool 1 x) eqn:H1.
  - apply Qle_bool_iff in H1.
    assert (Hn : 1 ≤ Qfloor x) by (by apply floor_above).
    destruct (Z.log2_spec (Qfloor x) ltac:(lia)) as [Hlo Hhi].
    pose proof (Z.log2_nonneg (Qfloor x)) as He.
    pose proof (Qfloor_le x) as Hfl. pose proof (Qlt_floor x) as Hlt.
    rewrite !pow2_Z by lia. rewrite Zle_Qle in Hlo.
    assert (Hhi' : Qfloor x + 1 ≤ 2 ^ (Z.log2 (Qfloor x) + 1)) by lia.
    rewrite Zle_Qle in Hhi'. split; lra.
  - assert (Hx1 : (x < 1)%Q).
    { destruct (Qlt_le_dec x 1) as [|Hge]; [done|].
      apply Qle_bool_iff in Hge. congruence. }
    assert (Hinv : (x * / x == 1)%Q) by (apply Qmult_inv_r; lra).
    assert (Hix : (1 < / x)%Q).
    { apply Qlt_shift_inv_l; lra. }
    pose proof (Qle_ceiling (/ x)) as Hce. pose proof (Qceiling_lt (/ x)) as Hcl.
    assert (Hc : 1 < Qceiling (/ x)).
    { apply Zlt_inject. change (inject_Z 1) with 1%Q. lra. }
    destruct (Z.log2_up_spec (Qceiling (/ x)) Hc) as [Hlo Hhi].
    pose proof (Z.log2_up_pos _ Hc) as Hj.
    set (j := Z.log2_up (Qceiling (/ x))) in *.
    replace (Z.pred j) with (j - 1) in Hlo by lia.
    assert (Hlo' : 2 ^ (j - 1) ≤ Qceiling (/ x) - 1) by lia.
    rewrite Zle_Qle in Hhi, Hlo'.
    rewrite <- (pow2_Z j) in Hhi by lia.
    rewrite <- (pow2_Z (j - 1)) in Hlo' by lia.
    pose proof (pow2_pos j). pose proof (pow2_pos (j - 1)).
    replace (- j + 1) with (- (j - 1)) by lia. rewrite !Qpower_opp.
    split.
    + apply Qle_shift_inv_r; [done|]. nra.
    + apply Qlt_shift_inv_l; [done|]. nra.
Qed.

Lemma binade_mono x y : (0 < x)%Q → (x <= y)%Q → binade x ≤ binade y.
Proof.
  intros Hx Hxy.
  destruct (binade_spec x Hx) as [Hlo _].
  destruct (binade_spec y ltac:(lra)) as [_ Hhi].
  destruct (Z.le_gt_cases (binade x) (binade y)) as [|Hgt]; [done|]. exfalso.
  pose proof (pow2_le (binade y + 1) (binade x) ltac:(lia)). lra.
Qed.

Lemma roundPositive_nonneg x : (0 < x)%Q → (0 <= roundPositive x)%Q.
Proof.
  intros Hx. unfold roundPositive.
  set (k := Z.max (binade x - 52) (-1074)).
  pose proof (pow2_pos k). pose proof (pow2_pos (- k)).
  assert (0 ≤ roundHalfEven (x * 2 ^ (- k))).
  { apply roundHalfEven_above. change (inject_Z 0) with 0%Q. nra. }
  assert (0 <= inject_Z (roundHalfEven (x * 2 ^ (- k))))%Q
    by (by rewrite <- (Zle_Qle 0)).
  nra.
Qed.

(** Rounding to the nearest double keeps the order. *)
Lemma roundPositive_mono x y :
  (0 < x)%Q → (x <= y)%Q → (roundPositive x <= roundPositive y)%Q.
Proof.
  intros Hx Hxy. assert (Hy : (0 < y)%Q) by lra.
  pose proof (binade_mono x y Hx Hxy) as He.
  destruct (binade_spec x Hx) as [_ Hxhi].
  destruct (binade_spec y Hy) as [Hylo _].
  pose proof (roundPositive_nonneg y Hy) as Hy0.
  unfold roundPositive in *.
  set (kx := Z.max (binade x - 52) (-1074)) in *.
  set (ky := Z.max (binade y - 52) (-1074)) in *.
  pose proof (pow2_pos kx). pose proof (pow2_pos (- kx)).
  pose proof (pow2_pos ky). pose proof (pow2_pos (- ky)).
  destruct (Z.eq_dec kx ky) as [Hk|Hk].
  - rewrite <- Hk in *.
    assert (Hm : roundHalfEven (x * 2 ^ (- kx)) ≤ roundHalfEven (y * 2 ^ (- kx))).
    { apply roundHalfEven_mono. nra. }
    rewrite Zle_Qle in Hm. nra.
  - assert (Hlt : kx < ky) by lia.
    assert (Hky : ky = binade y - 52) by lia.
    assert (Hex : binade x + 1 ≤ binade y) by lia.
    (* the larger number rounds to at least the lower end of its binade *)
    assert (Hlow : (2 ^ binade y <= inject_Z (roundHalfEven (y * 2 ^ (- ky))) * 2 ^ ky)%Q).
    { assert (Hr : 2 ^ 52 ≤ roundHalfEven (y * 2 ^ (- ky))).
      { apply roundHalfEven_above. rewrite <- (pow2_Z 52) by lia.
        replace 52 with (binade y + - ky) at 1 by lia. rewrite pow2_add. nra. }
      rewrite Zle_Qle, <- (pow2_Z 52) in Hr by lia.
      replace (binade y) with (52 + ky) at 1 by lia. rewrite pow2_add. nra. }
    pose proof (pow2_le (binade x + 1) (binade y) Hex) as Hpow.
    (* the smaller number rounds to at most the upper end of its binade *)
    destruct (Z.le_gt_cases kx (binade x + 1)) as [Hn|Hs].
    + assert (Hr : roundHalfEven (x * 2 ^ (- kx)) ≤ 2 ^ (binade x + 1 - kx)).
      { apply roundHalfEven_below. rewrite <- pow2_Z by lia.
        replace (binade x + 1 - kx) with (binade x + 1 + - kx) by lia.
        rewrite pow2_add. nra. }
      rewrite Zle_Qle, <- pow2_Z in Hr by lia.
      assert (Hup : (inject_Z (roundHalfEven (x * 2 ^ (- kx))) * 2 ^ kx
                     <= 2 ^ (binade x + 1))%Q).
      { assert (E : 2 ^ (binade x + 1) == 2 ^ (binade x + 1 - kx) * 2 ^ kx).
        { rewrite <- pow2_add.
          replace (binade x + 1 - kx + kx) with (binade x + 1) by lia. reflexivity. }
        rewrite E. apply Qmult_le_compat_r; [exact Hr | lra]. }
      lra.
    + assert (Hr : roundHalfEven (x * 2 ^ (- kx)) ≤ 0).
      { assert (Hsmall : (x * 2 ^ (- kx) < 1 # 2)%Q).
        { pose proof (pow2_le (binade x + 1 + - kx) (-1) ltac:(lia)) as Hp.
          rewrite pow2_add in Hp.
          assert (2 ^ (-1) == 1 # 2)%Q by reflexivity. nra. }
        unfold roundHalfEven.
        assert (Hf : Qfloor (x * 2 ^ (- kx)) = 0).
        { pose proof (Qfloor_le (x * 2 ^ (- kx))) as Hf1.
          pose proof (Qlt_floor (x * 2 ^ (- kx))) as Hf2.
          assert (0 ≤ Qfloor (x * 2 ^ (- kx)))
            by (apply floor_above; change (inject_Z 0) with 0%Q; nra).
          assert (Qfloor (x * 2 ^ (- kx)) < 1); [|lia].
          apply Zlt_inject. change (inject_Z 1) with 1%Q. lra. }
        rewrite Hf. change (inject_Z 0) with 0%Q.
        destruct (Qcompare_spec (x * 2 ^ (- kx) - 0) (1 # 2)); [lra | lia | lra]. }
      rewrite Zle_Qle in Hr. change (inject_Z 0) with 0%Q in Hr. nra.
Qed.

Lemma roundDouble_positive x : (0 < x)%Q → roundDouble x = roundPositive x.
Proof. intros Hx. unfold roundDouble. apply Qgt_alt in Hx. by rewrite Hx. Qed.

(** ** The histogram and [percentile] *)

Lemma mass_app P h1 h2 : mass P (h1 ++ h2) = mass P h1 + mass P h2.
Proof. induction h1 as [|e h1 IH]; simpl; [done|]. unfold mass in *. simpl. lia. Qed.

Lemma mass_nonneg P h : Forall (λ e, 0 ≤ e.2) h → 0 ≤ mass P h.
Proof.
  induction 1 as [|e h He _ IH]; unfold mass in *; simpl; [done|].
  destruct (P e.1); lia.
Qed.

Lemma mass_le_all P h : Forall (λ e, 0 ≤ e.2) h → mass P h ≤ mass (λ _, true) h.
Proof.
  induction 1 as [|e h He _ IH]; unfold mass in *; simpl; [done|].
  destruct (P e.1); lia.
Qed.

Lemma mass_ext P Q h :
  Forall (λ e, P e.1 = Q e.1) h → mass P h = mass Q h.
Proof.
  induction 1 as [|e h He _ IH]; unfold mass in *; simpl; [done|].
  rewrite He, IH. done.
Qed.

Lemma mass_none P h : Forall (λ e, P e.1 = false) h → mass P h = 0.
Proof.
  induction 1 as [|e h He _ IH]; unfold mass in *; simpl; [done|].
  rewrite He, IH. done.
Qed.

Lemma at_bounds h s :
  Forall (λ e, 0 ≤ e.2) h → 0 ≤ StdMap.at_ h s ≤ mass (λ _, true) h.
Proof.
  induction 1 as [|[k v] h He Hall IH]; simpl; [done|].
  pose proof (mass_nonneg (λ _, true) h Hall).
  unfold mass in *. simpl in *.
  destruct (s <? k); [lia|]. destruct (s =? k); lia.
Qed.

Lemma mass_assign P h s v :
  mass P (StdMap.assign h s v)
  = mass P h + (if P s then v - StdMap.at_ h s else 0).
Proof.
  induction h as [|[k' v'] rest IH]; simpl.
  - unfold mass; simpl. destruct (P s); lia.
  - destruct (s <? k').
    + unfold mass; simpl. destruct (P s), (P k'); lia.
    + destruct (Z.eqb_spec s k') as [->|Hne].
      * unfold mass; simpl. destruct (P k'); lia.
      * unfold mass in *; simpl. rewrite IH. destruct (P s), (P k'); lia.
Qed.

Lemma assign_Forall (Q : Z * Z → Prop) h s v :
  Forall Q h → Q (s, v) → Forall Q (StdMap.assign h s v).
Proof.
  induction 1 as [|[k' v'] rest He Hall IH]; simpl; intros Hs.
  - by constructor.
  - destruct (s <? k'); [by repeat constructor|].
    destruct (s =? k'); constructor; auto.
Qed.

Lemma assign_sorted h s v :
  StronglySorted Z.lt (h.*1) → StronglySorted Z.lt ((StdMap.assign h s v).*1).
Proof.
  induction h as [|[k' v'] rest IH]; simpl; intros Hs.
  - repeat constructor.
  - apply StronglySorted_inv in Hs as [Hrest Hhd].
    destruct (Z.ltb_spec s k') as [Hlt|Hge]; simpl.
    + constructor; [by constructor|].
      constructor; [done|]. eapply Forall_impl; [exact Hhd|]. simpl. lia.
    + destruct (Z.eqb_spec s k') as [->|Hne]; simpl.
      * by constructor.
      * constructor; [by apply IH|].
        apply Forall_fmap.
        apply assign_Forall; [|simpl; lia].
        apply Forall_fmap. exact Hhd.
Qed.

Lemma countIf_nonneg P l : 0 ≤ countIf P l.
Proof. induction l as [|x l IH]; simpl; [done|]. destruct (P x); lia. Qed.

Lemma countIf_all l : countIf (λ _, true) l = Z.of_nat (length l).
Proof. induction l as [|x l IH]; simpl; lia. Qed.

Lemma countIf_pos_elem P l : 0 < countIf P l → ∃ x, x ∈ l ∧ P x = true.
Proof.
  induction l as [|x l IH]; simpl; [lia|].
  destruct (P x) eqn:HP.
  - intros _. exists x. split; [constructor | done].
  - intros H. destruct IH as (y & Hy & HPy); [lia|].
    exists y. split; [by constructor | done].
Qed.

Lemma countIf_all_le k l :
  countIf (λ s, s <=? k) l = Z.of_nat (length l) → ∀ s, s ∈ l → s ≤ k.
Proof.
  induction l as [|x l IH]; simpl; intros Hc s Hs.
  - by apply elem_of_nil in Hs.
  - pose proof (countIf_nonneg (λ s, s <=? k) l).
    assert (countIf (λ s, s <=? k) l ≤ Z.of_nat (length l)).
    { rewrite <- countIf_all. clear. induction l as [|y l IH]; simpl; [done|].
      destruct (y <=? k); lia. }
    destruct (Z.leb_spec x k).
    + apply elem_of_cons in Hs as [->|Hs]; [done|]. apply IH; [lia | done].
    + lia.
Qed.

(** The histogram of any tracking map: keys ascending, frequencies at
    least one, and the frequencies at the keys in [P] count the tracked
    sizes in [P]. *)
Lemma histogram_fold (m : list (Z * Z)) : ∀ h0 : StdMap.t,
  StronglySorted Z.lt (h0.*1) → Forall (λ e, 1 ≤ e.2) h0 →
  mass (λ _, true) h0 + Z.of_nat (length m) < 2 ^ 32 →
  let h := fold_left (λ hist ptrBytesPair,
                        StdMap.assign hist ptrBytesPair.2
                          (wrap32 (StdMap.at_ hist ptrBytesPair.2 + 1))) m h0 in
  StronglySorted Z.lt (h.*1) ∧ Forall (λ e, 1 ≤ e.2) h ∧
  ∀ P, mass P h = mass P h0 + countIf P (m.*2).
Proof.
  induction m as [|[p s] m IH]; intros h0 Hs Hpos Hlen.
  - simpl. split; [done|]. split; [done|]. intros P. lia.
  - rewrite fmap_cons. cbn [fold_left countIf snd length] in *.
    assert (Hnn : Forall (λ e, 0 ≤ e.2) h0).
    { eapply Forall_impl; [exact Hpos|]. simpl. lia. }
    pose proof (at_bounds h0 s Hnn) as Hat.
    rewrite (wrap32_small (StdMap.at_ h0 s + 1)) by lia.
    destruct (IH (StdMap.assign h0 s (StdMap.at_ h0 s + 1))) as (Hs' & Hpos' & Hm).
    + by apply assign_sorted.
    + apply assign_Forall; [done | simpl; lia].
    + rewrite mass_assign. lia.
    + split; [done|]. split; [done|].
      intros P. rewrite Hm, mass_assign. destruct (P s); lia.
Qed.

Lemma histogram_facts (st : Statistics.State) :
  StdMap.size (Statistics.addressToBytesMap st) < 2 ^ 32 →
  StronglySorted Z.lt ((Statistics.histogram st).*1) ∧
  Forall (λ e, 1 ≤ e.2) (Statistics.histogram st) ∧
  ∀ P, mass P (Statistics.histogram st) = countIf P (sizes st).
Proof.
  intros HT. unfold Statistics.histogram, sizes.
  destruct (histogram_fold (Statistics.addressToBytesMap st) []) as (H1 & H2 & H3).
  - constructor.
  - constructor.
  - unfold mass. simpl. unfold StdMap.size in HT. lia.
  - split; [done|]. split; [done|]. intros P. rewrite H3. unfold mass. simpl. lia.
Qed.

Lemma totalFrequency_fold h : ∀ init,
  Forall (λ e, 0 ≤ e.2) h → 0 ≤ init → init + mass (λ _, true) h < 2 ^ 64 →
  fold_left (λ init sizeFreqPair, wrap64 (init + sizeFreqPair.2)) h init
  = init + mass (λ _, true) h.
Proof.
  induction h as [|[k v] h IH]; intros init Hall Hinit Hlt.
  - unfold mass. simpl. lia.
  - apply Forall_cons in Hall as [Hv Hall]. simpl in Hv.
    pose proof (mass_nonneg (λ _, true) h Hall) as Hm.
    unfold mass in *. simpl in *.
    rewrite wrap64_small by lia. rewrite IH by (auto; lia). lia.
Qed.

Lemma totalFrequency_histogram (st : Statistics.State) :
  StdMap.size (Statistics.addressToBytesMap st) < 2 ^ 32 →
  Statistics.totalFrequency (Statistics.histogram st)
  = StdMap.size (Statistics.addressToBytesMap st).
Proof.
  intros HT. destruct (histogram_facts st HT) as (_ & Hpos & Hm).
  assert (Hall : mass (λ _, true) (Statistics.histogram st)
                 = StdMap.size (Statistics.addressToBytesMap st)).
  { rewrite Hm, countIf_all. unfold sizes, StdMap.size. by rewrite length_fmap. }
  unfold Statistics.totalFrequency. rewrite totalFrequency_fold.
  - lia.
  - eapply Forall_impl; [exact Hpos|]. simpl. lia.
  - done.
  - lia.
Qed.

Lemma walk_done h acc L last : L ≤ acc → Statistics.walk h acc L last = last.
Proof.
  intros. destruct h as [|[k v] h]; simpl;
    destruct (Z.ltb_spec acc L); (done || lia).
Qed.

(** The loop stops at the first entry with which the accumulated
    frequency reaches the limit. *)
Lemma walk_reaches rest : ∀ acc L last,
  Forall (λ e, 0 ≤ e.2) rest → 0 ≤ acc →
  acc < L ≤ acc + mass (λ _, true) rest →
  acc + mass (λ _, true) rest < 2 ^ 64 →
  ∃ pre k v post, rest = pre ++ (k, v) :: post ∧
    Statistics.walk rest acc L last = Some k ∧
    acc + mass (λ _, true) pre < L ≤ acc + mass (λ _, true) pre + v.
Proof.
  induction rest as [|[k v] rest IH]; intros acc L last Hall Hacc HL Hlt.
  - unfold mass in HL. simpl in HL. lia.
  - apply Forall_cons in Hall as [Hv Hall]. simpl in Hv.
    pose proof (mass_nonneg (λ _, true) rest Hall) as Hm.
    assert (Hcons : mass (λ _, true) ((k, v) :: rest) = v + mass (λ _, true) rest)
      by (unfold mass; simpl; lia).
    rewrite Hcons in HL, Hlt.
    simpl. destruct (Z.ltb_spec acc L); [|lia].
    rewrite wrap64_small by lia.
    destruct (Z.lt_ge_cases (acc + v) L) as [Hmore|Hstop].
    + destruct (IH (acc + v) L (Some k)) as (pre & k' & v' & post & -> & Hw & Hb);
        [done | lia | lia | lia |].
      exists ((k, v) :: pre), k', v', post. split; [done|]. split; [done|].
      assert (mass (λ _, true) ((k, v) :: pre) = v + mass (λ _, true) pre)
        by (unfold mass; simpl; lia).
      lia.
    + exists [], k, v, rest. split; [done|]. split.
      * by apply walk_done.
      * unfold mass. simpl. lia.
Qed.

(** In a histogram with ascending keys the entries before a key are the
    ones with a smaller key. *)
Lemma mass_sorted_split pre k v post :
  StronglySorted Z.lt ((pre ++ (k, v) :: post).*1) →
  mass (λ s, s <? k) (pre ++ (k, v) :: post) = mass (λ _, true) pre ∧
  mass (λ s, s <=? k) (pre ++ (k, v) :: post) = mass (λ _, true) pre + v.
Proof.
  intros Hs. rewrite fmap_app, fmap_cons in Hs. simpl in Hs.
  assert (Hpre : Forall (λ e, e.1 < k) pre).
  { apply Forall_forall. intros [k' v'] Hin. simpl.
    apply (StronglySorted_app_1_elem_of _ _ _ k' k Hs).
    - apply list_elem_of_fmap. by exists (k', v').
    - constructor. }
  assert (Hpost : Forall (λ e, k < e.1) post).
  { apply StronglySorted_app_1_r in Hs. apply StronglySorted_inv in Hs as [_ Hhd].
    rewrite Forall_fmap in Hhd. exact Hhd. }
  rewrite !mass_app.
  assert (Hk1 : mass (λ s, s <? k) ((k, v) :: post) = 0).
  { apply mass_none. constructor; simpl; [lia|].
    eapply Forall_impl; [exact Hpost|]. simpl. lia. }
  assert (Hk2 : mass (λ s, s <=? k) ((k, v) :: post) = v).
  { unfold mass. simpl. rewrite Z.leb_refl.
    fold (mass (λ s, s <=? k) post). rewrite mass_none; [lia|].
    eapply Forall_impl; [exact Hpost|]. simpl. lia. }
  rewrite Hk1, Hk2.
  rewrite (mass_ext (λ s, s <? k) (λ _, true) pre), (mass_ext (λ s, s <=? k) (λ _, true) pre).
  - lia.
  - eapply Forall_impl; [exact Hpre|]. simpl. lia.
  - eapply Forall_impl; [exact Hpre|]. simpl. lia.
Qed.

Lemma clamp_unit p : (0 < p)%Q → (p <= 1)%Q → Statistics.clamp p 0 1 = p.
Proof.
  intros H0 H1. unfold Statistics.clamp.
  assert (Ha : Qle_bool 0 p = true) by (apply Qle_bool_iff; by apply Qlt_le_weak).
  assert (Hb : Qle_bool p 1 = true) by (by apply Qle_bool_iff).
  by rewrite Ha, Hb.
Qed.

Lemma upperLimit_exact_sum pc T :
  0 ≤ T < 2 ^ 53 →
  Statistics.upperLimit pc T = toSize (roundDouble (pc * inject_Z T)).
Proof.
  intros HT. unfold Statistics.upperLimit.
  apply toSize_comp, roundDouble_comp. by rewrite (roundDouble_Z T HT).
Qed.

Lemma upperLimit_empty pc : Statistics.upperLimit pc 0 = Some 0.
Proof.
  rewrite upperLimit_exact_sum by lia.
  rewrite (toSize_comp _ (roundDouble 0)); [reflexivity|].
  apply roundDouble_comp. change (inject_Z 0) with 0%Q. ring.
Qed.

(** For a factor in (0, 1] and a total below [2 ^ 53] the limit is the
    product rounded to a double, without its fractional part: it is one
    of the two integers around the product and at most the total. *)
Lemma upperLimit_spec p T :
  (0 < p)%Q → (p <= 1)%Q → 1 ≤ T < 2 ^ 53 →
  ∃ L, Statistics.upperLimit p T = Some L ∧
       L = Qfloor (roundDouble (p * inject_Z T)) ∧
       Qfloor (p * inject_Z T) ≤ L ≤ Qceiling (p * inject_Z T) ∧
       0 ≤ L ≤ T.
Proof.
  intros Hp0 Hp1 HT.
  assert (HT1 : (1 <= inject_Z T)%Q) by (rewrite <- (Zle_Qle 1); lia).
  assert (HT53 : (inject_Z T < inject_Z (2 ^ 53))%Q) by (rewrite <- Zlt_Qlt; lia).
  assert (Hx0 : (0 < p * inject_Z T)%Q) by nra.
  assert (HxT : (p * inject_Z T <= inject_Z T)%Q) by nra.
  destruct (toSize_round (p * inject_Z T) Hx0 ltac:(lra)) as (Hs & Hlo & Hhi).
  exists (Qfloor (roundDouble (p * inject_Z T))).
  rewrite upperLimit_exact_sum by lia.
  split; [done|]. split; [done|]. split; [lia|].
  pose proof (ceiling_below T _ HxT).
  assert (0 ≤ Qfloor (p * inject_Z T))
    by (apply floor_above; change (inject_Z 0) with 0%Q; lra).
  lia.
Qed.

(** The limit does not decrease in the factor. *)
Lemma upperLimit_mono p q T Lp Lq :
  (0 < p)%Q → (p <= q)%Q → (q <= 1)%Q → 1 ≤ T < 2 ^ 53 →
  Statistics.upperLimit p T = Some Lp → Statistics.upperLimit q T = Some Lq →
  Lp ≤ Lq.
Proof.
  intros Hp0 Hpq Hq1 HT HLp HLq.
  assert (HT1 : (1 <= inject_Z T)%Q) by (rewrite <- (Zle_Qle 1); lia).
  destruct (upperLimit_spec p T Hp0 ltac:(lra) HT) as (L & HL & -> & _).
  destruct (upperLimit_spec q T ltac:(lra) Hq1 HT) as (L' & HL' & -> & _).
  rewrite HL in HLp. rewrite HL' in HLq.
  injection HLp as <-. injection HLq as <-.
  apply Qfloor_resp_le.
  rewrite !roundDouble_positive by nra.
  apply roundPositive_mono; nra.
Qed.

(** For a factor [p] in (0, 1] whose limit is at least one, [percentile]
    returns a tracked size [k] such that fewer than the limit entries are
    smaller than [k] and at least the limit are not larger. *)
Lemma percentile_reaches_limit (st : Statistics.State) (p : Q) (L : Z) :
  let T := StdMap.size (Statistics.addressToBytesMap st) in
  T < 2 ^ 32 → (0 < p)%Q → (p <= 1)%Q →
  Statistics.upperLimit p T = Some L → 1 ≤ L →
  ∃ k, Statistics.percentile st p = Some k ∧ k ∈ sizes st ∧
       countBelow k st < L ≤ countUpTo k st.
Proof.
  intros T HT Hp0 Hp1 HLim HL.
  assert (HT0 : 0 ≤ T) by (unfold T, StdMap.size; lia).
  assert (HT1 : 1 ≤ T).
  { destruct (Z.eq_dec T 0) as [Hz|]; [|lia].
    rewrite Hz, upperLimit_empty in HLim. injection HLim as <-. lia. }
  assert (HLT : L ≤ T).
  { destruct (upperLimit_spec p T Hp0 Hp1 ltac:(lia)) as (L' & HL' & _ & _ & Hb).
    rewrite HLim in HL'. injection HL' as <-. lia. }
  destruct (histogram_facts st HT) as (Hsorted & Hpos & Hmass).
  assert (Hnn : Forall (λ e, 0 ≤ e.2) (Statistics.histogram st)).
  { eapply Forall_impl; [exact Hpos|]. simpl. lia. }
  assert (Hall : mass (λ _, true) (Statistics.histogram st) = T).
  { rewrite Hmass, countIf_all. unfold sizes, T, StdMap.size. by rewrite length_fmap. }
  unfold Statistics.percentile. rewrite clamp_unit by done.
  destruct (Qeq_bool p 0) eqn:Hz.
  { apply Qeq_bool_iff in Hz. rewrite Hz in Hp0. by apply Qlt_irrefl in Hp0. }
  rewrite totalFrequency_histogram by done. fold T.
  destruct (Z.eqb_spec T 0) as [|_]; [lia|].
  rewrite HLim.
  destruct (walk_reaches (Statistics.histogram st) 0 L None)
    as (pre & k & v & post & Hsplit & Hwalk & Hb); [done | lia | lia | lia |].
  exists k. split; [done|].
  rewrite Hsplit in Hsorted, Hpos, Hnn.
  destruct (mass_sorted_split pre k v post Hsorted) as [Hlt Hle].
  rewrite <- Hsplit in Hlt, Hle. rewrite Hmass in Hlt, Hle.
  split; [|unfold countBelow, countUpTo; lia].
  destruct (countIf_pos_elem (λ s, s =? k) (sizes st)) as (x & Hx & Hxk).
  - rewrite <- Hmass, Hsplit, mass_app.
    apply Forall_app in Hnn as [Hnpre Hnpost].
    apply Forall_app in Hpos as [_ Hpost]. apply Forall_cons in Hpost as [Hv _].
    apply Forall_cons in Hnpost as [_ Hnpost]. simpl in Hv.
    pose proof (mass_nonneg (λ s, s =? k) pre Hnpre).
    pose proof (mass_nonneg (λ s, s =? k) post Hnpost).
    unfold mass in *. simpl. rewrite Z.eqb_refl. lia.
  - apply Z.eqb_eq in Hxk. by subst.
Qed.

(** [percentile] sees its factor through the clamp only. *)
Lemma percentile_clamped (st : Statistics.State) (p q : Q) :
  (Statistics.clamp p 0 1 == Statistics.clamp q 0 1)%Q →
  Statistics.percentile st p = Statistics.percentile st q.
Proof.
  intros Heq. unfold Statistics.percentile.
  assert (Hz : Qeq_bool (Statistics.clamp p 0 1) 0 = Qeq_bool (Statistics.clamp q 0 1) 0).
  { destruct (Qeq_bool (Statistics.clamp p 0 1) 0) eqn:Hp,
             (Qeq_bool (Statistics.clamp q 0 1) 0) eqn:Hq; try done.
    - apply Qeq_bool_iff in Hp. rewrite Heq in Hp. apply Qeq_bool_iff in Hp. congruence.
    - apply Qeq_bool_iff in Hq. rewrite <- Heq in Hq. apply Qeq_bool_iff in Hq. congruence. }
  rewrite Hz. destruct (Qeq_bool (Statistics.clamp q 0 1) 0); [done|].
  destruct (_ =? 0); [done|].
  assert (HL : Statistics.upperLimit (Statistics.clamp p 0 1)
                 (Statistics.totalFrequency (Statistics.histogram st))
               = Statistics.upperLimit (Statistics.clamp q 0 1)
                 (Statistics.totalFrequency (Statistics.histogram st))).
  { unfold Statistics.upperLimit. apply toSize_comp, roundDouble_comp. by rewrite Heq. }
  by rewrite HL.
Qed.

Lemma clamp_low p : (p <= 0)%Q → (Statistics.clamp p 0 1 == 0)%Q.
Proof.
  intros Hp. unfold Statistics.clamp.
  destruct (Qle_bool 0 p) eqn:H0; [|reflexivity].
  apply Qle_bool_iff in H0.
  assert (Hp1 : Qle_bool p 1 = true).
  { apply Qle_bool_iff. apply (Qle_trans _ 0); [done | discriminate]. }
  rewrite Hp1. by apply Qle_antisym.
Qed.

Lemma clamp_high p : (1 <= p)%Q → (Statistics.clamp p 0 1 == 1)%Q.
Proof.
  intros Hp. unfold Statistics.clamp.
  assert (H0 : Qle_bool 0 p = true).
  { apply Qle_bool_iff. apply (Qle_trans _ 1); [discriminate | done]. }
  rewrite H0. destruct (Qle_bool p 1) eqn:H1; [|reflexivity].
  apply Qle_bool_iff in H1. by apply Qle_antisym.
Qed.

(** C7, at a concrete input: four entries of 16, 8, 32 and 16 bytes in
    the tracking map and [percentile(0.5)].  The histogram is 8:1, 16:2,
    32:1 and the limit is 2.  Taking entries in ascending order while the
    running count does not exceed 2 takes the entry 8 only, so the claim
    gives 8, and one entry of four is not larger than 8.  The loop goes on
    until the count reaches the limit and returns 16, with three entries
    of four not larger than it: more than the half that the comment above
    [percentile] allows.  With a single entry the limit of
    [percentile(0.5)] is 0, the loop does not run and the iterator before
    the first entry is dereferenced, so the call has no defined result to
    compare with [percentile(1.0)]. *)
Theorem percentile_differs_from_specified :
  let st := tracking [16; 8; 32; 16] in
  StdMap.size (Statistics.addressToBytesMap st) = 4 ∧
  Statistics.histogram st = [(8, 1); (16, 2); (32, 1)] ∧
  Statistics.upperLimit (1 # 2) 4 = Some 2 ∧
  Statistics.percentile st (1 # 2) = Some 16 ∧
  percentile_as_specified st (1 # 2) = 8 ∧
  countUpTo 8 st = 1 ∧ countUpTo 16 st = 3 ∧
  Statistics.upperLimit (1 # 2) 1 = Some 0 ∧
  Statistics.percentile (tracking [16]) (1 # 2) = None ∧
  Statistics.percentile (tracking [16]) 1 = Some 16.
Proof. cbv zeta. repeat split; vm_compute; reflexivity. Qed.

(** What [percentile] computes, with fewer than [2 ^ 32] entries in the
    tracking map: 0 for the factor 0 and on an empty map; for a factor
    [p] in (0, 1] the limit is the product [p * T] rounded to a double
    and cut to an integer, one of the two integers around the product,
    and when it is at least one the result is the tracked size at which
    the count of entries in ascending order of size reaches the limit
    (fewer than the limit are smaller, at least the limit are not
    larger); for [p = 1] that is the largest tracked size; and
    [percentile(0.5)] is at most [percentile(1.0)] on every map with at
    least two entries.  A factor below 0 counts as 0 and one above 1 as
    1. *)
Theorem percentile_nearest_rank (st : Statistics.State) :
  let T := StdMap.size (Statistics.addressToBytesMap st) in
  T < 2 ^ 32 →
  Statistics.percentile st 0 = Some 0 ∧
  (Statistics.addressToBytesMap st = [] → ∀ p, Statistics.percentile st p = Some 0) ∧
  (∀ p, (0 < p)%Q → (p <= 1)%Q → 1 ≤ T →
     ∃ L, Statistics.upperLimit p T = Some L ∧
          L = Qfloor (roundDouble (p * inject_Z T)) ∧
          Qfloor (p * inject_Z T) ≤ L ≤ Qceiling (p * inject_Z T) ∧
          (1 ≤ L →
             ∃ k, Statistics.percentile st p = Some k ∧ k ∈ sizes st ∧
                  countBelow k st < L ≤ countUpTo k st)) ∧
  (Statistics.addressToBytesMap st ≠ [] →
     ∃ k, Statistics.percentile st 1 = Some k ∧ k ∈ sizes st ∧
          ∀ s, s ∈ sizes st → s ≤ k) ∧
  (2 ≤ T →
     ∃ k1 k2, Statistics.percentile st (1 # 2) = Some k1 ∧
              Statistics.percentile st 1 = Some k2 ∧ k1 ≤ k2) ∧
  (∀ p, (p <= 0)%Q → Statistics.percentile st p = Some 0) ∧
  (∀ p, (1 <= p)%Q → Statistics.percentile st p = Statistics.percentile st 1).
Proof.
  intros T HT.
  assert (HT0 : 0 ≤ T) by (unfold T, StdMap.size; lia).
  assert (Hone : 1 ≤ T → Statistics.upperLimit 1 T = Some T).
  { intros H1.
    destruct (upperLimit_spec 1 T) as (L & HL & _ & [Hlo Hhi] & _);
      [reflexivity | apply Qle_refl | lia |].
    rewrite (Qfloor_comp _ _ (Qmult_1_l (inject_Z T))), Qfloor_Z in Hlo.
    rewrite (Qceiling_comp _ _ (Qmult_1_l (inject_Z T))), Qceiling_Z in Hhi.
    rewrite HL. f_equal. lia. }
  assert (Hmax : 1 ≤ T →
     ∃ k, Statistics.percentile st 1 = Some k ∧ k ∈ sizes st ∧
          ∀ s, s ∈ sizes st → s ≤ k).
  { intros H1.
    destruct (percentile_reaches_limit st 1 T HT) as (k & Hk & Hin & Hb);
      [reflexivity | apply Qle_refl | by apply Hone | lia |].
    exists k. split; [done|]. split; [done|].
    apply countIf_all_le.
    assert (countUpTo k st ≤ T).
    { unfold countUpTo, T, StdMap.size.
      rewrite <- (length_fmap snd (Statistics.addressToBytesMap st)), <- countIf_all.
      fold (sizes st). generalize (sizes st). clear.
      induction l as [|x l IH]; simpl; [done|]. destruct (x <=? k); lia. }
    unfold countUpTo, T, StdMap.size, sizes in *. rewrite length_fmap. lia. }
  split; [reflexivity|]. split; [|split; [|split; [|split; [|split]]]].
  - intros Hempty p. unfold Statistics.percentile, Statistics.histogram.
    rewrite Hempty. simpl. by destruct (Qeq_bool _ _).
  - intros p Hp0 Hp1 H1.
    destruct (upperLimit_spec p T Hp0 Hp1 ltac:(lia)) as (L & HL & HLeq & Hb & _).
    exists L. split; [done|]. split; [done|]. split; [done|].
    intros HL1. by apply (percentile_reaches_limit st p L HT).
  - intros Hne. apply Hmax. unfold T, StdMap.size.
    destruct (Statistics.addressToBytesMap st); [done | simpl; lia].
  - intros H2.
    destruct (upperLimit_spec (1 # 2) T) as (L & HL & _ & [Hlo _] & _);
      [reflexivity | discriminate | lia |].
    assert (HL1 : 1 ≤ L).
    { apply (Z.le_trans _ (Qfloor ((1 # 2) * inject_Z T))); [|done].
      apply floor_above. change (inject_Z 1) with 1%Q.
      assert (2 <= inject_Z T)%Q by (rewrite <- (Zle_Qle 2); lia). lra. }
    destruct (percentile_reaches_limit st (1 # 2) L HT) as (k1 & Hk1 & Hin1 & _);
      [reflexivity | discriminate | done | done |].
    destruct Hmax as (k2 & Hk2 & _ & Hall); [lia|].
    exists k1, k2. split; [done|]. split; [done|]. by apply Hall.
  - intros p Hp. rewrite (percentile_clamped st p 0); [reflexivity|].
    by apply clamp_low.
  - intros p Hp. apply percentile_clamped. by apply clamp_high.
Qed.

(** The double nearest to 0.6 and five entries: the product is just
    below 3 and rounds to 3, so the limit is 3 and not 2. *)
Lemma percentile_nearest_rank_witness :
  let st := tracking [8; 16; 24; 32; 40] in
  StdMap.size (Statistics.addressToBytesMap st) < 2 ^ 32 ∧
  Qfloor (double_0_6 * inject_Z 5) = 2 ∧
  Statistics.upperLimit double_0_6 5 = Some 3 ∧
  ∃ k, Statistics.percentile st double_0_6 = Some k ∧ k ∈ sizes st ∧
       countBelow k st < 3 ≤ countUpTo k st.
Proof.
  cbv zeta. split; [reflexivity|]. split; [reflexivity|].
  pose proof (percentile_nearest_rank (tracking [8; 16; 24; 32; 40])) as H.
  cbv zeta in H. destruct H as (_ & _ & H & _); [reflexivity|].
  destruct (H double_0_6) as (L & HL & _ & _ & Hk);
    [reflexivity | discriminate | discriminate |].
  assert (HL3 : L = 3) by (vm_compute in HL; congruence).
  subst L. split; [exact HL|]. apply Hk. lia.
Defined.

Example percentile_double_0_6 :
  Statistics.percentile (tracking [8; 16; 24; 32; 40]) double_0_6 = Some 24.
Proof. vm_compute. reflexivity. Qed.

Example upperLimit_double_third :
  Qfloor (double_third * inject_Z 3) = 0 ∧
  Statistics.upperLimit double_third 3 = Some 1 ∧
  Statistics.percentile (tracking [8; 16; 24]) double_third = Some 8.
Proof. repeat split; vm_compute; reflexivity. Qed.

(** ** Arenas, held pointers and the free list *)

Section Geometry.
Context (c : Config) (Hgeo : valid_geometry c).

Lemma arenaIdOf_in_arena a p :
  0 ≤ a < numArenas c →
  arenaData c + a * arenaSize c ≤ p < arenaData c + (a + 1) * arenaSize c →
  Unsync.arenaIdOf c p = a.
Proof.
  destruct Hgeo as (HN & HS & _ & H32 & Hbase & H64).
  intros Ha Hp. unfold Unsync.arenaIdOf.
  rewrite wrap64_small by nia. rewrite wrap32_small by nia.
  symmetry. apply (Z.div_unique _ _ a (p - arenaData c - a * arenaSize c)); lia.
Qed.

Lemma arenaIdOf_range p :
  inStorage c p → 0 ≤ Unsync.arenaIdOf c p < numArenas c.
Proof.
  destruct Hgeo as (HN & HS & _ & H32 & Hbase & H64).
  intros [Hlo Hhi]. unfold Unsync.arenaIdOf.
  rewrite wrap64_small by nia. rewrite wrap32_small by nia.
  split.
  - apply Z.div_pos; lia.
  - apply Z.div_lt_upper_bound; lia.
Qed.

Lemma arena_in_storage a p :
  0 ≤ a < numArenas c →
  arenaData c + a * arenaSize c ≤ p < arenaData c + (a + 1) * arenaSize c →
  inStorage c p.
Proof.
  destruct Hgeo as (HN & HS & _ & H32 & Hbase & H64).
  intros Ha Hp. unfold inStorage. nia.
Qed.

Lemma liveIn_nonneg a lv : 0 ≤ liveIn c a lv.
Proof. apply countIf_nonneg. Qed.

Lemma liveIn_cons a p lv :
  liveIn c a (p :: lv) = (if Unsync.arenaIdOf c p =? a then 1 else 0) + liveIn c a lv.
Proof. reflexivity. Qed.

Lemma liveIn_giveBack a p lv :
  p ∈ lv →
  liveIn c a (giveBack p lv)
  = liveIn c a lv - (if Unsync.arenaIdOf c p =? a then 1 else 0).
Proof.
  induction lv as [|q lv IH]; intros Hin.
  - by apply elem_of_nil in Hin.
  - simpl. destruct (Z.eqb_spec p q) as [->|Hne].
    + rewrite liveIn_cons. lia.
    + apply elem_of_cons in Hin as [?|Hin]; [done|].
      rewrite !liveIn_cons, IH by done. lia.
Qed.

Lemma liveIn_pos p lv : p ∈ lv → 1 ≤ liveIn c (Unsync.arenaIdOf c p) lv.
Proof.
  induction lv as [|q lv IH]; intros Hin.
  - by apply elem_of_nil in Hin.
  - rewrite liveIn_cons. pose proof (liveIn_nonneg (Unsync.arenaIdOf c p) lv).
    apply elem_of_cons in Hin as [->|Hin].
    + rewrite Z.eqb_refl. lia.
    + specialize (IH Hin). destruct (_ =? _); lia.
Qed.

Lemma giveBack_Forall (P : Z → Prop) p lv : Forall P lv → Forall P (giveBack p lv).
Proof.
  induction 1 as [|q lv Hq Hall IH]; simpl; [done|].
  destruct (p =? q); [done | by constructor].
Qed.

Lemma giveBack_length p lv :
  p ∈ lv → Z.of_nat (length (giveBack p lv)) = Z.of_nat (length lv) - 1.
Proof.
  induction lv as [|q lv IH]; intros Hin.
  - by apply elem_of_nil in Hin.
  - simpl. destruct (Z.eqb_spec p q) as [->|Hne]; [lia|].
    apply elem_of_cons in Hin as [?|Hin]; [done|].
    simpl. rewrite Nat2Z.inj_succ, IH by done. lia.
Qed.

(** Different arenas, none of them [u] or [w], leave room for two. *)
Lemma two_arenas_off_list (l : list Z) u w :
  NoDup l → (∀ y, y ∈ l → 0 ≤ y < numArenas c ∧ y ≠ u ∧ y ≠ w) →
  0 ≤ u < numArenas c → 0 ≤ w < numArenas c → u ≠ w →
  Z.of_nat (length l) + 2 ≤ numArenas c.
Proof.
  intros Hnd Hl Hu Hw Huw.
  assert (Hsub : u :: w :: l ⊆+ seqZ 0 (numArenas c)).
  { apply NoDup_submseteq.
    - constructor; [|constructor; [|done]].
      + intros Hin. apply elem_of_cons in Hin as [?|Hin]; [done|].
        apply Hl in Hin. lia.
      + intros Hin. apply Hl in Hin. lia.
    - intros y Hy. apply elem_of_seqZ.
      apply elem_of_cons in Hy as [->|Hy]; [lia|].
      apply elem_of_cons in Hy as [->|Hy]; [lia|].
      apply Hl in Hy. lia. }
  apply submseteq_length in Hsub. rewrite length_seqZ in Hsub. simpl in Hsub. lia.
Qed.

Lemma sumTo_indicator (n : nat) x :
  0 ≤ x < Z.of_nat n → sumTo n (λ a, if x =? a then 1 else 0) = 1.
Proof.
  induction n as [|n IH]; intros Hx; [lia|].
  simpl. destruct (Z.eqb_spec x (Z.of_nat n)) as [->|Hne].
  - assert (H0 : ∀ m : nat, (m ≤ n)%nat →
              sumTo m (λ a, if Z.of_nat n =? a then 1 else 0) = 0).
    { induction m as [|m IHm]; intros Hm; [done|].
      simpl. rewrite IHm by lia.
      destruct (Z.eqb_spec (Z.of_nat n) (Z.of_nat m)); lia. }
    rewrite H0 by lia. lia.
  - rewrite IH by lia. lia.
Qed.

Lemma sumTo_add (n : nat) f g :
  sumTo n (λ a, f a + g a) = sumTo n f + sumTo n g.
Proof. induction n as [|n IH]; simpl; lia. Qed.

Lemma sumTo_ext (n : nat) f g :
  (∀ a, 0 ≤ a < Z.of_nat n → f a = g a) → sumTo n f = sumTo n g.
Proof.
  induction n as [|n IH]; intros H; simpl; [done|].
  rewrite IH, H by (intros; try apply H; lia). done.
Qed.

Lemma sumTo_le (n : nat) f b :
  (∀ a, 0 ≤ a < Z.of_nat n → f a ≤ b) → sumTo n f ≤ Z.of_nat n * b.
Proof.
  induction n as [|n IH]; intros H; simpl; [lia|].
  specialize (IH ltac:(intros; apply H; lia)).
  specialize (H (Z.of_nat n) ltac:(lia)). lia.
Qed.

Lemma sumTo_nonneg (n : nat) f :
  (∀ a, 0 ≤ a < Z.of_nat n → 0 ≤ f a) → 0 ≤ sumTo n f.
Proof.
  induction n as [|n IH]; intros H; simpl; [lia|].
  specialize (IH ltac:(intros; apply H; lia)).
  specialize (H (Z.of_nat n) ltac:(lia)). lia.
Qed.

(** Every held pointer lies in one arena. *)
Lemma sumTo_liveIn lv :
  Forall (inStorage c) lv →
  sumTo (Z.to_nat (numArenas c)) (λ a, liveIn c a lv) = Z.of_nat (length lv).
Proof.
  destruct Hgeo as (HN & _).
  induction 1 as [|p lv Hp Hall IH].
  - simpl. induction (Z.to_nat (numArenas c)) as [|n IHn]; simpl; [done|].
    rewrite IHn. reflexivity.
  - rewrite (sumTo_ext _ _ (λ a, (if Unsync.arenaIdOf c p =? a then 1 else 0)
                                 + liveIn c a lv)) by (intros; apply liveIn_cons).
    rewrite sumTo_add, IH, sumTo_indicator.
    + simpl length. lia.
    + pose proof (arenaIdOf_range p Hp). lia.
Qed.

(** The loop of [numberOfAllocations] over counters that are defined
    and not negative. *)
Lemma sumArenas_sumTo (g : Z → option Z) (f : Z → Z) (n : nat) :
  (∀ a, 0 ≤ a < Z.of_nat n → g a = Some (f a) ∧ 0 ≤ f a) →
  sumTo n f < 2 ^ 64 →
  sumArenas g n = Some (sumTo n f).
Proof.
  induction n as [|n IH]; intros Hg Hlt; simpl in *; [done|].
  destruct (Hg (Z.of_nat n)) as [Hgn Hfn]; [lia|].
  assert (0 ≤ sumTo n f) by (apply sumTo_nonneg; intros; apply Hg; lia).
  rewrite IH; [|intros; apply Hg; lia | lia].
  simpl. rewrite Hgn. simpl. rewrite wrap64_small by lia. done.
Qed.
End Geometry.

Section FreeList.
Context (c : Config) (Hgeo : valid_geometry c).

Lemma freeList_mono fl head active (vacant vacant' : Z → Prop) :
  freeListOk c fl head active vacant →
  (∀ a, 0 ≤ a < numArenas c → a ≠ active → vacant a → vacant' a) →
  freeListOk c fl head active vacant'.
Proof.
  intros (Hh & Hlen & Hnd & Hent) Hv. repeat split; try done; try lia.
  intros i Hi. destruct (Hent i Hi) as (a & Ha & Hr & Hne & Hvac).
  exists a. repeat split; try done; try lia. by apply Hv.
Qed.

(** [reserveNextArena] takes the arena in the last used slot. *)
Lemma freeList_pop fl head active (vacant : Z → Prop) :
  freeListOk c fl head active vacant → 0 < head →
  ∃ a', read fl (head - 1) = Some a' ∧ 0 ≤ a' < numArenas c ∧ vacant a' ∧
        freeListOk c fl (head - 1) a' vacant.
Proof.
  intros (Hh & Hlen & Hnd & Hent) Hpos.
  destruct (Hent (head - 1)) as (a' & Ha' & Hr' & _ & Hvac'); [lia|].
  exists a'. split; [done|]. split; [done|]. split; [done|].
  split; [lia|]. split; [done|]. split.
  - rewrite <- (take_drop (Z.to_nat (head - 1)) (take (Z.to_nat head) fl)) in Hnd.
    apply NoDup_app in Hnd as (Hnd & _). rewrite take_take in Hnd.
    by replace (Z.to_nat (head - 1) `min` Z.to_nat head)%nat
      with (Z.to_nat (head - 1)) in Hnd by lia.
  - intros i Hi. destruct (Hent i) as (a & Ha & Hr & _ & Hvac); [lia|].
    exists a. repeat split; try done; try lia.
    intros ->. unfold read in Ha, Ha'.
    assert (Z.to_nat i = Z.to_nat (head - 1)); [|lia].
    apply (NoDup_lookup _ _ _ a' Hnd); rewrite lookup_take_lt by lia; done.
Qed.

(** [releaseArena] puts an arena that was not vacant into the next slot. *)
Lemma freeList_push fl head active (vacant vacant' : Z → Prop) x :
  freeListOk c fl head active vacant →
  0 ≤ active < numArenas c → 0 ≤ x < numArenas c → x ≠ active →
  ¬ vacant x → vacant' x →
  (∀ a, 0 ≤ a < numArenas c → a ≠ x → vacant a → vacant' a) →
  head + 1 < numArenas c ∧
  freeListOk c (<[Z.to_nat head := x]> fl) (head + 1) active vacant'.
Proof.
  intros (Hh & Hlen & Hnd & Hent) Hact Hx Hxa Hnv Hv' Hmono.
  assert (Hmem : ∀ y, y ∈ take (Z.to_nat head) fl →
                      0 ≤ y < numArenas c ∧ y ≠ active ∧ y ≠ x).
  { intros y Hy. apply elem_of_take in Hy as (i & Hi & Hlt).
    destruct (Hent (Z.of_nat i)) as (a & Ha & Hr & Hne & Hvac); [lia|].
    unfold read in Ha. rewrite Nat2Z.id, Hi in Ha. injection Ha as <-.
    repeat split; try done; try lia. by intros ->. }
  assert (Hroom : head + 2 ≤ numArenas c).
  { pose proof (two_arenas_off_list c (take (Z.to_nat head) fl) active x Hnd Hmem
                  Hact Hx ltac:(done)) as H.
    rewrite length_take_le in H by lia. lia. }
  split; [lia|]. split; [lia|]. split; [by rewrite length_insert|]. split.
  - replace (Z.to_nat (head + 1)) with (S (Z.to_nat head)) by lia.
    rewrite (take_S_r _ _ x) by (apply list_lookup_insert_eq; lia).
    rewrite take_insert_ge by lia.
    apply NoDup_app. split; [done|]. split; [|apply NoDup_singleton].
    intros y Hy Hin. apply list_elem_of_singleton in Hin as ->.
    apply Hmem in Hy. lia.
  - intros i Hi. destruct (Z.eq_dec i head) as [->|Hne].
    + exists x. split; [|done].
      unfold read. apply list_lookup_insert_eq. lia.
    + destruct (Hent i) as (a & Ha & Hr & Hna & Hvac); [lia|].
      exists a. split.
      { unfold read in *. rewrite list_lookup_insert_ne by lia. done. }
      split; [done|]. split; [done|]. apply Hmono; try done.
      intros ->. done.
Qed.

Lemma initialFreeList_lookup i :
  0 ≤ i < numArenas c → read (initialFreeList c) i = Some (numArenas c - 1 - i).
Proof.
  destruct Hgeo as (HN & HS & _ & H32 & _).
  intros Hi. unfold read, initialFreeList.
  rewrite list_lookup_fmap, lookup_seqZ_lt by lia. simpl.
  rewrite Z2Nat.id by lia. rewrite wrap32_small by nia. f_equal; lia.
Qed.

Lemma initialFreeList_ok (vacant : Z → Prop) :
  (∀ a, 0 ≤ a < numArenas c → vacant a) →
  freeListOk c (initialFreeList c) (numArenas c - 1) 0 vacant.
Proof.
  pose proof Hgeo as (HN & HS & _ & H32 & _).
  intros Hv. split; [lia|]. split.
  { unfold initialFreeList. by rewrite length_fmap, length_seqZ. }
  split.
  - apply NoDup_alt. intros i j x Hi Hj.
    apply lookup_take_Some in Hi as [Hi Hlti]. apply lookup_take_Some in Hj as [Hj Hltj].
    pose proof (initialFreeList_lookup (Z.of_nat i) ltac:(lia)) as Hi'.
    pose proof (initialFreeList_lookup (Z.of_nat j) ltac:(lia)) as Hj'.
    unfold read in Hi', Hj'. rewrite Nat2Z.id in Hi', Hj'.
    rewrite Hi in Hi'. rewrite Hj in Hj'. injection Hi' as ->. injection Hj' as Hx. lia.
  - intros i Hi. exists (numArenas c - 1 - i).
    split; [apply initialFreeList_lookup; lia|].
    split; [lia|]. split; [lia|]. apply Hv. lia.
Qed.

Lemma zeroCounters_lookup a :
  0 ≤ a < numArenas c → read (zeroCounters c) a = Some 0.
Proof.
  intros Ha. unfold read, zeroCounters. apply lookup_replicate_2. lia.
Qed.
End FreeList.

(** ** The unsynchronized engine keeps the pool consistent *)

Lemma pow2_exponent_bound a : is_pow2 a → a ≤ 2 ^ 32 → ∃ k, 0 ≤ k ≤ 32 ∧ a = 2 ^ k.
Proof.
  intros (k & Hk & ->) Hle. exists k. split; [|done]. split; [done|].
  destruct (Z.le_gt_cases k 32) as [|Hgt]; [done|]. exfalso.
  assert (2 ^ 33 ≤ 2 ^ k) by (apply Z.pow_le_mono_r; lia). lia.
Qed.

(** The tentative placement of [do_allocate_details] for a request within
    [SizeType]: the block ends [bytes] below [d], its start is moved down
    by [off] to a multiple of the alignment. *)
Lemma placement_arith d bytes alignment :
  0 < bytes → sane_request bytes alignment → 0 ≤ d < 2 ^ 64 →
  let ptrAsInteger := wrap64 (d - bytes) in
  let off := wrap32 (Z.land ptrAsInteger (wrap64 (alignment - 1))) in
  0 ≤ off < alignment ∧
  wrap32 (wrap32 bytes + off) = bytes + off ∧
  (bytes ≤ d → wrap64 (ptrAsInteger - off) = d - bytes - off ∨ d - bytes - off < 0) ∧
  (bytes ≤ d → (d - bytes - off) mod alignment = 0).
Proof.
  intros Hb (_ & Hpow & Hsum) Hd. cbv zeta.
  destruct (pow2_exponent_bound alignment Hpow ltac:(lia)) as (k & Hk & ->).
  assert (Hpos : 0 < 2 ^ k) by (apply Z.pow_pos_nonneg; lia).
  assert (H2k : 2 ^ k ≤ 2 ^ 32) by (apply Z.pow_le_mono_r; lia).
  rewrite (wrap64_small (2 ^ k - 1)) by lia.
  rewrite land_pow2_mask by lia.
  pose proof (Z.mod_pos_bound (wrap64 (d - bytes)) (2 ^ k) Hpos) as Hoff.
  rewrite (wrap32_small (wrap64 (d - bytes) mod 2 ^ k)) by lia.
  rewrite (wrap32_small bytes) by lia.
  split; [done|]. split; [apply wrap32_small; lia|].
  split; intros Hle; rewrite (wrap64_small (d - bytes)) in * by lia.
  - destruct (Z.lt_ge_cases (d - bytes - (d - bytes) mod 2 ^ k) 0); [by right | left].
    apply wrap64_small. lia.
  - rewrite Zminus_mod_idemp_r, Z.sub_diag. reflexivity.
Qed.

Section UnsyncInvariant.
Context (c : Config) (Hgeo : valid_geometry c).

Lemma arenaTop_eq a :
  0 ≤ a < numArenas c →
  Unsync.arenaTop c a = arenaData c + arenaSize c * a + arenaSize c.
Proof.
  destruct Hgeo as (HN & HS & _ & H32 & Hbase & H64).
  intros Ha. unfold Unsync.arenaTop.
  rewrite (wrap32_small (a + 1)) by nia.
  rewrite wrap32_small by nia. rewrite wrap64_small by nia. lia.
Qed.

Lemma unsync_construct_inv :
  ∃ st, Unsync.initializeArenas c = Some st ∧ unsync_inv c st [].
Proof.
  pose proof Hgeo as (HN & HS & _ & H32 & Hbase & H64).
  unfold Unsync.initializeArenas, Unsync.reserveNextArena. simpl.
  destruct (Z.eqb_spec (numArenas c) 0) as [|_]; [lia|].
  rewrite (wrap32_small (numArenas c - 1)) by nia.
  rewrite (initialFreeList_lookup c Hgeo) by lia. simpl.
  eexists. split; [reflexivity|].
  replace (numArenas c - 1 - (numArenas c - 1)) with 0 by lia.
  constructor; simpl.
  - lia.
  - apply (initialFreeList_ok c Hgeo). intros a Ha. by apply zeroCounters_lookup.
  - lia.
  - rewrite arenaTop_eq by lia. lia.
  - intros a Ha. by apply zeroCounters_lookup.
  - intros a Ha. unfold liveIn. simpl. lia.
  - unfold liveIn. simpl. lia.
  - constructor.
Qed.

(** [reserveNextArena] on a consistent pool with a free arena. *)
Lemma unsync_reserve_inv st lv :
  unsync_inv c st lv → 0 < Unsync.freeListHead st →
  ∃ st', Unsync.reserveNextArena c st = Some (true, st') ∧
         unsync_inv c st' lv ∧
         Unsync.freeListHead st' = Unsync.freeListHead st - 1.
Proof.
  pose proof Hgeo as (HN & HS & _ & H32 & Hbase & H64).
  intros [Hact Hfree Hleft Hdata Hcnt Hbound Hab Hlive] Hhead.
  pose proof Hfree as (Hh & _).
  destruct (freeList_pop c _ _ _ _ Hfree Hhead) as (a' & Ha' & Hr' & Hvac' & Hfree').
  unfold Unsync.reserveNextArena.
  destruct (Z.eqb_spec (Unsync.freeListHead st) 0) as [|_]; [lia|].
  rewrite (wrap32_small (Unsync.freeListHead st - 1)) by nia.
  rewrite Ha'. simpl. eexists. split; [reflexivity|]. split; [|done].
  constructor; simpl; try done.
  - lia.
  - rewrite arenaTop_eq by lia. lia.
  - rewrite Hcnt in Hvac' by lia. injection Hvac' as Hz. lia.
Qed.

(** The block is placed in the active arena. *)
Lemma unsync_place_inv st lv bytes alignment :
  unsync_inv c st lv → 0 < bytes → sane_request bytes alignment →
  let ptrAsInteger := wrap64 (Unsync.data st - bytes) in
  let off := wrap32 (Z.land ptrAsInteger (wrap64 (alignment - 1))) in
  let numBytesNeeded := wrap32 (wrap32 bytes + off) in
  let p := wrap64 (ptrAsInteger - off) in
  numBytesNeeded ≤ Unsync.bytesLeft st →
  ∃ n counters,
    read (Unsync.numAllocationsInArena st) (Unsync.activeArenaId st) = Some n ∧
    write (Unsync.numAllocationsInArena st) (Unsync.activeArenaId st)
      (wrap32 (n + 1)) = Some counters ∧
    p ≠ nullptr ∧ p mod alignment = 0 ∧ inStorage c p ∧
    unsync_inv c
      {| Unsync.data := p;
         Unsync.bytesLeft := wrap32 (Unsync.bytesLeft st - numBytesNeeded);
         Unsync.activeArenaId := Unsync.activeArenaId st;
         Unsync.freeListHead := Unsync.freeListHead st;
         Unsync.freeList := Unsync.freeList st;
         Unsync.numAllocationsInArena := counters |} (p :: lv).
Proof.
  pose proof Hgeo as (HN & HS & _ & H32 & Hbase & H64).
  intros [Hact Hfree Hleft Hdata Hcnt Hbound Hab Hlive] Hb Hsane.
  set (act := Unsync.activeArenaId st) in *.
  assert (HS32 : arenaSize c < 2 ^ 32) by nia.
  assert (Hd : 0 ≤ Unsync.data st < 2 ^ 64) by nia.
  pose proof (placement_arith (Unsync.data st) bytes alignment Hb Hsane Hd) as Har.
  cbv zeta in *. destruct Har as (Hoff & Hneeded & Hp & Hmod).
  set (off := wrap32 (Z.land (wrap64 (Unsync.data st - bytes)) (wrap64 (alignment - 1)))) in *.
  rewrite Hneeded. intros Hfit.
  assert (Hbd : bytes ≤ Unsync.data st) by nia.
  destruct (Hp Hbd) as [Hpeq|Hneg]; [|nia]. rewrite Hpeq.
  specialize (Hmod Hbd).
  pose proof (Hcnt act Hact) as Hn.
  pose proof (read_lt _ _ _ Hn) as Hlen.
  pose proof (liveIn_nonneg c act lv) as Hn0.
  eexists _, _. split; [exact Hn|]. split; [apply write_Some; lia|].
  rewrite (wrap32_small (liveIn c act lv + 1)) by lia.
  rewrite (wrap32_small (Unsync.bytesLeft st - (bytes + off))) by lia.
  assert (Harena : arenaData c + act * arenaSize c ≤ Unsync.data st - bytes - off
                   < arenaData c + (act + 1) * arenaSize c) by nia.
  pose proof (arenaIdOf_in_arena c Hgeo act _ Hact Harena) as Hid.
  split; [unfold nullptr; nia|]. split; [done|].
  split; [by apply (arena_in_storage c Hgeo act)|].
  constructor; simpl; fold act.
  - done.
  - eapply freeList_mono; [exact Hfree|]. simpl.
    intros a Ha Hne Hz. rewrite read_insert_ne by lia. done.
  - lia.
  - lia.
  - intros a Ha. rewrite liveIn_cons, Hid.
    destruct (Z.eqb_spec act a) as [<-|Hne].
    + rewrite read_insert_eq by lia. f_equal. lia.
    + rewrite read_insert_ne by lia. rewrite Hcnt by done. f_equal.
  - intros a Ha. rewrite liveIn_cons, Hid. specialize (Hbound a Ha).
    destruct (Z.eqb_spec act a) as [<-|Hne]; lia.
  - rewrite liveIn_cons, Hid, Z.eqb_refl. lia.
  - constructor; [by apply (arena_in_storage c Hgeo act) | done].
Qed.

Lemma unsync_details_unfold fuel st bytes alignment :
  Unsync.do_allocate_details_rec fuel c st bytes alignment =
  let ptrAsInteger := wrap64 (Unsync.data st - bytes) in
  let alignmentOffset := wrap32 (Z.land ptrAsInteger (wrap64 (alignment - 1))) in
  let numBytesNeeded := wrap32 (wrap32 bytes + alignmentOffset) in
  if Unsync.bytesLeft st <? numBytesNeeded then
    if bytes <=? arenaSize c then
      '(reserved, st') ← Unsync.reserveNextArena c st;
      if (reserved : bool) then
        match fuel with
        | O => None
        | S fuel' => Unsync.do_allocate_details_rec fuel' c st' bytes alignment
        end
      else Some (nullptr, st')
    else Some (nullptr, st)
  else
    let p := wrap64 (ptrAsInteger - alignmentOffset) in
    n ← read (Unsync.numAllocationsInArena st) (Unsync.activeArenaId st);
    counters ← write (Unsync.numAllocationsInArena st) (Unsync.activeArenaId st)
                 (wrap32 (n + 1));
    Some (p,
          {| Unsync.data := p;
             Unsync.bytesLeft := wrap32 (Unsync.bytesLeft st - numBytesNeeded);
             Unsync.activeArenaId := Unsync.activeArenaId st;
             Unsync.freeListHead := Unsync.freeListHead st;
             Unsync.freeList := Unsync.freeList st;
             Unsync.numAllocationsInArena := counters |}).
Proof. destruct fuel; reflexivity. Qed.

(** [do_allocate_details] with the fuel of [do_allocate_details] or more
    returns: the null pointer in a consistent pool, or a block. *)
Lemma unsync_details_inv fuel : ∀ st lv bytes alignment,
  unsync_inv c st lv → (Z.to_nat (Unsync.freeListHead st) ≤ fuel)%nat →
  0 < bytes → sane_request bytes alignment →
  ∃ p st', Unsync.do_allocate_details_rec fuel c st bytes alignment = Some (p, st') ∧
    ((p = nullptr ∧ unsync_inv c st' lv) ∨
     (p ≠ nullptr ∧ p mod alignment = 0 ∧ inStorage c p ∧ unsync_inv c st' (p :: lv))).
Proof.
  induction fuel as [|fuel IH]; intros st lv bytes alignment Hinv Hfuel Hb Hsane;
    rewrite unsync_details_unfold; cbv zeta;
    (destruct (Z.ltb_spec (Unsync.bytesLeft st)
               (wrap32 (wrap32 bytes +
                  wrap32 (Z.land (wrap64 (Unsync.data st - bytes))
                                 (wrap64 (alignment - 1)))))) as [Hnofit|Hfit];
     [ destruct (Z.leb_spec bytes (arenaSize c)) as [Hle|Hgt];
       [ | eexists _, _; split; [reflexivity | by left] ]
     | destruct (unsync_place_inv st lv bytes alignment Hinv Hb Hsane Hfit)
         as (n & counters & Hr & Hw & Hp & Hmod & Hin & Hinv');
       rewrite Hr; simpl; rewrite Hw; simpl;
       eexists _, _; split; [reflexivity | by right] ]).
  - pose proof (ui_free _ _ _ Hinv) as (Hh & _).
    assert (Hz : Unsync.freeListHead st = 0) by lia.
    unfold Unsync.reserveNextArena. rewrite Hz. simpl.
    eexists _, _. split; [reflexivity | by left].
  - pose proof (ui_free _ _ _ Hinv) as (Hh & _).
    destruct (Z.eq_dec (Unsync.freeListHead st) 0) as [Hz|Hnz].
    + unfold Unsync.reserveNextArena. rewrite Hz. simpl.
      eexists _, _. split; [reflexivity | by left].
    + destruct (unsync_reserve_inv st lv Hinv ltac:(lia)) as (st' & Hres & Hinv' & Hhead').
      rewrite Hres. simpl. apply IH; try done. lia.
Qed.

Lemma unsync_allocate_inv st lv bytes alignment :
  unsync_inv c st lv → sane_request bytes alignment →
  match Unsync.do_allocate c st bytes alignment with
  | Returned p st' =>
      (p = nullptr ∧ unsync_inv c st' lv) ∨
      (p ≠ nullptr ∧ 0 < bytes ∧ p mod alignment = 0 ∧ inStorage c p ∧
       unsync_inv c st' (p :: lv))
  | Thrown _ st' => unsync_inv c st' lv
  | Undefined => False
  end.
Proof.
  intros Hinv Hsane. unfold Unsync.do_allocate.
  destruct (Z.eqb_spec bytes 0) as [->|Hnz]; [by left|].
  assert (Hb : 0 < bytes) by (destruct Hsane; lia).
  unfold Unsync.do_allocate_details.
  destruct (unsync_details_inv _ st lv bytes alignment Hinv (le_n _) Hb Hsane)
    as (p & st' & -> & [[-> Hinv']|(Hp & Hmod & Hin & Hinv')]).
  - simpl. destruct (exceptionsEnabled c); simpl.
    + by destruct (arenaSize c <? bytes).
    + by left.
  - destruct (Z.eqb_spec p nullptr) as [|_]; [done|].
    rewrite andb_false_r. by right.
Qed.

Lemma unsync_deallocate_inv st lv p bytes alignment :
  unsync_inv c st lv → p ∈ lv →
  ∃ st', Unsync.do_deallocate c st p bytes alignment = Returned () st' ∧
         unsync_inv c st' (giveBack p lv).
Proof.
  pose proof Hgeo as (HN & HS & _ & H32 & Hbase & H64).
  intros [Hact Hfree Hleft Hdata Hcnt Hbound Hab Hlive] Hp.
  assert (HS32 : arenaSize c < 2 ^ 32) by nia.
  assert (HN32 : numArenas c < 2 ^ 32) by nia.
  assert (Hin : inStorage c p) by (by eapply Forall_forall in Hlive).
  pose proof (arenaIdOf_range c Hgeo p Hin) as Hx.
  pose proof (liveIn_pos c p lv Hp) as Hn1.
  assert (Hgb : ∀ a, liveIn c a (giveBack p lv)
                     = liveIn c a lv - (if Unsync.arenaIdOf c p =? a then 1 else 0))
    by (intros; by apply liveIn_giveBack).
  assert (Hlive' : Forall (inStorage c) (giveBack p lv)) by (by apply giveBack_Forall).
  unfold Unsync.do_deallocate.
  remember (Unsync.arenaIdOf c p) as x eqn:Hxdef in *.
  remember (Unsync.activeArenaId st) as act eqn:Hactdef in *.
  pose proof (Hbound x Hx) as HnS.
  pose proof (Hcnt x Hx) as Hn.
  pose proof (read_lt _ _ _ Hn) as Hlen.
  pose proof Hfree as (Hh & Hfllen & _).
  destruct (Z.eqb_spec (arenaSize c) 0) as [|_]; [lia|].
  destruct (Z.leb_spec (numArenas c) x) as [|_]; [lia|].
  rewrite andb_false_r, Hn. simpl.
  rewrite (wrap32_small (liveIn c x lv - 1)) by lia.
  rewrite write_Some by lia. simpl. rewrite <- ?Hactdef.
  destruct (Z.eqb_spec (liveIn c x lv - 1) 0) as [Hz|Hnz].
  - destruct (Z.eqb_spec x act) as [Hxa|Hxa].
    + clear Hxdef. subst x. unfold Unsync.resetActiveArena. simpl. rewrite <- ?Hactdef.
      rewrite write_Some by (rewrite length_insert; lia). simpl.
      eexists. split; [reflexivity|].
      constructor; simpl; rewrite <- ?Hactdef.
      * lia.
      * eapply freeList_mono; [exact Hfree|]. simpl.
        intros a Ha Hne Hvac. rewrite !read_insert_ne by lia. done.
      * lia.
      * rewrite arenaTop_eq by lia. lia.
      * intros a Ha. rewrite Hgb.
        destruct (Z.eqb_spec act a) as [<-|Hne].
        -- rewrite read_insert_eq by (rewrite length_insert; lia). f_equal. lia.
        -- rewrite !read_insert_ne by lia. rewrite Hcnt by done. f_equal. lia.
      * intros a Ha. rewrite Hgb. specialize (Hbound a Ha).
        destruct (act =? a); lia.
      * rewrite Hgb. rewrite Z.eqb_refl. lia.
      * done.
    + unfold Unsync.releaseArena. simpl.
      rewrite (write_Some (Unsync.freeList st)) by lia. simpl.
      rewrite write_Some by (rewrite length_insert; lia). simpl.
      eexists. split; [reflexivity|].
      destruct (freeList_push c _ _ _ _
                  (λ a, read (<[Z.to_nat x:=0]>
                               (<[Z.to_nat x:=liveIn c x lv - 1]>
                                  (Unsync.numAllocationsInArena st))) a = Some 0)
                  x Hfree Hact Hx Hxa) as [Hroom Hfree'].
      { rewrite Hn. intros [= H0]. lia. }
      { apply read_insert_eq. rewrite length_insert. lia. }
      { intros a Ha Hne Hvac. rewrite !read_insert_ne by lia. done. }
      rewrite (wrap32_small (Unsync.freeListHead st + 1)) by lia.
      constructor; simpl; rewrite <- ?Hactdef.
      * done.
      * done.
      * done.
      * done.
      * intros a Ha. rewrite Hgb.
        destruct (Z.eqb_spec x a) as [<-|Hne].
        -- rewrite read_insert_eq by (rewrite length_insert; lia). f_equal. lia.
        -- rewrite !read_insert_ne by lia. rewrite Hcnt by done. f_equal. lia.
      * intros a Ha. rewrite Hgb. specialize (Hbound a Ha).
        destruct (x =? a); lia.
      * rewrite Hgb. destruct (Z.eqb_spec x act); [done | lia].
      * done.
  - eexists. split; [reflexivity|].
    constructor; simpl; rewrite <- ?Hactdef.
    + done.
    + eapply freeList_mono; [exact Hfree|]. simpl.
      intros a Ha Hne Hvac. rewrite read_insert_ne; [done | lia | lia |].
      intros <-. rewrite Hn in Hvac. injection Hvac as H0. lia.
    + done.
    + done.
    + intros a Ha. rewrite Hgb.
      destruct (Z.eqb_spec x a) as [<-|Hne].
      * rewrite read_insert_eq by lia. done.
      * rewrite !read_insert_ne by lia. rewrite Hcnt by done. f_equal. lia.
    + intros a Ha. rewrite Hgb. specialize (Hbound a Ha).
      destruct (x =? a); lia.
    + rewrite Hgb. destruct (x =? act); lia.
    + done.
Qed.

Lemma unsync_live_inv st lv :
  unsync_inv c st lv →
  Unsync.numberOfAllocations c st = Some (Z.of_nat (length lv)).
Proof.
  pose proof Hgeo as (HN & HS & _ & H32 & Hbase & H64).
  intros [Hact Hfree Hleft Hdata Hcnt Hbound Hab Hlive].
  unfold Unsync.numberOfAllocations.
  rewrite <- (sumTo_liveIn c Hgeo lv Hlive).
  apply sumArenas_sumTo.
  - intros a Ha. split; [apply Hcnt; lia | apply liveIn_nonneg].
  - pose proof (sumTo_le (Z.to_nat (numArenas c)) (λ a, liveIn c a lv) (arenaSize c)) as H.
    specialize (H ltac:(intros; apply Hbound; lia)). lia.
Qed.
End UnsyncInvariant.

(** ** The synchronized engine keeps the pool consistent *)

(** The bins of [do_allocate]: the request rounded up to a multiple of
    [alignof(max_align_t)]. *)
Lemma bins_arith bytes :
  0 < bytes ≤ 2 ^ 32 →
  let numBinsForData := wrap64 (wrap64 (bytes + max_align) - 1) / max_align in
  let numBytesNeeded := wrap64 (numBinsForData * max_align) in
  bytes ≤ numBytesNeeded < bytes + max_align ∧ numBytesNeeded mod max_align = 0.
Proof.
  intros Hb. cbv zeta. unfold max_align.
  rewrite (wrap64_small (bytes + 16)) by lia.
  rewrite (wrap64_small (bytes + 16 - 1)) by lia.
  pose proof (Z.div_mod (bytes + 16 - 1) 16 ltac:(lia)) as Hdm.
  pose proof (Z.mod_pos_bound (bytes + 16 - 1) 16 ltac:(lia)) as Hm.
  rewrite wrap64_small by lia.
  split; [lia|]. apply Z_mod_mult.
Qed.

Section SyncInvariant.
Context (c : Config) (Hgeo : valid_geometry c).

Lemma arenaBase_eq a :
  0 ≤ a < numArenas c →
  Sync.arenaBase c a = arenaData c + a * arenaSize c.
Proof.
  destruct Hgeo as (HN & HS & _ & H32 & Hbase & H64).
  intros Ha. unfold Sync.arenaBase.
  rewrite wrap32_small by nia. rewrite wrap64_small by nia. lia.
Qed.

Lemma sync_construct_inv :
  ∃ st, Sync.initializeArenas c = Some st ∧ sync_inv c st [].
Proof.
  pose proof Hgeo as (HN & HS & Hmul & H32 & Hbase & H64).
  unfold Sync.initializeArenas, Sync.reserveNextArena. simpl.
  destruct (Z.eqb_spec (numArenas c) 0) as [|_]; [lia|].
  rewrite (wrap32_small (numArenas c - 1)) by nia.
  rewrite (initialFreeList_lookup c Hgeo) by lia. simpl.
  eexists. split; [reflexivity|].
  replace (numArenas c - 1 - (numArenas c - 1)) with 0 by lia.
  constructor; simpl.
  - lia.
  - apply (initialFreeList_ok c Hgeo). intros a Ha.
    split; by apply zeroCounters_lookup.
  - lia.
  - reflexivity.
  - rewrite arenaBase_eq by lia. lia.
  - intros a Ha. exists 0, 0. rewrite !zeroCounters_lookup by done.
    unfold liveIn. simpl. repeat split; lia.
  - intros na. rewrite zeroCounters_lookup by lia. intros [= <-]. lia.
  - constructor.
Qed.

Lemma sync_reserve_inv st lv :
  sync_inv c st lv → 0 < Sync.freeListHead st →
  ∃ st', Sync.reserveNextArena c st = Some (true, st') ∧
         sync_inv c st' lv ∧
         Sync.freeListHead st' = Sync.freeListHead st - 1 ∧
         Sync.bytesReserved st' = 0.
Proof.
  pose proof Hgeo as (HN & HS & _ & H32 & Hbase & H64).
  intros [Hact Hfree Hres Hbins Hdata Hcnt Hab Hlive] Hhead.
  pose proof Hfree as (Hh & _).
  destruct (freeList_pop c _ _ _ _ Hfree Hhead) as (a' & Ha' & Hr' & Hvac' & Hfree').
  unfold Sync.reserveNextArena.
  destruct (Z.eqb_spec (Sync.freeListHead st) 0) as [|_]; [lia|].
  rewrite (wrap32_small (Sync.freeListHead st - 1)) by nia.
  rewrite Ha'. simpl. eexists. split; [reflexivity|]. split; [|done].
  constructor; simpl; try done.
  - lia.
  - rewrite arenaBase_eq by lia. lia.
  - intros na Hna. destruct Hvac' as [Hz _]. rewrite Hz in Hna.
    injection Hna as <-. lia.
Qed.

(** A block of [n] bytes that fits is placed in the active arena. *)
Lemma sync_place_inv st lv n :
  sync_inv c st lv → 0 < n → n mod max_align = 0 →
  Sync.bytesReserved st + n ≤ arenaSize c →
  ∃ na allocs,
    read (Sync.numAllocationsInArena st) (Sync.activeArenaId st) = Some na ∧
    write (Sync.numAllocationsInArena st) (Sync.activeArenaId st)
      (wrap32 (na + 1)) = Some allocs ∧
    Sync.data st ≠ nullptr ∧
    (Sync.data st - arenaData c) mod max_align = 0 ∧
    inStorage c (Sync.data st) ∧
    sync_inv c
      {| Sync.data := wrap64 (Sync.data st + n);
         Sync.bytesReserved := wrap64 (Sync.bytesReserved st + n);
         Sync.activeArenaId := Sync.activeArenaId st;
         Sync.freeListHead := Sync.freeListHead st;
         Sync.freeList := Sync.freeList st;
         Sync.numAllocationsInArena := allocs;
         Sync.numDeallocationsInArena := Sync.numDeallocationsInArena st |}
      (Sync.data st :: lv).
Proof.
  pose proof Hgeo as (HN & HS & Hmul & H32 & Hbase & H64).
  intros [Hact Hfree Hres Hbins Hdata Hcnt Hab Hlive] Hn Hnmod Hfit.
  assert (HS32 : arenaSize c < 2 ^ 32) by nia.
  remember (Sync.activeArenaId st) as act eqn:Hactdef in *.
  destruct (Hcnt act Hact) as (na & nd & Hna & Hnd & Hle & HnaS & Hdiff).
  pose proof (Hab na Hna) as Hnar.
  pose proof (read_lt _ _ _ Hna) as Hlen.
  exists na, (<[Z.to_nat act := wrap32 (na + 1)]> (Sync.numAllocationsInArena st)).
  split; [done|]. split; [apply write_Some; lia|].
  rewrite (wrap32_small (na + 1)) by lia.
  rewrite (wrap64_small (Sync.bytesReserved st + n)) by lia.
  rewrite (wrap64_small (Sync.data st + n)) by nia.
  assert (Harena : arenaData c + act * arenaSize c ≤ Sync.data st
                   < arenaData c + (act + 1) * arenaSize c) by nia.
  pose proof (arenaIdOf_in_arena c Hgeo act _ Hact Harena) as Hid.
  split; [unfold nullptr; nia|].
  split.
  { rewrite Hdata.
    replace (arenaData c + act * arenaSize c + Sync.bytesReserved st - arenaData c)
      with (Sync.bytesReserved st + act * arenaSize c) by lia.
    rewrite <- Zplus_mod_idemp_r, <- Zmult_mod_idemp_r, Hmul.
    rewrite Z.mul_0_r, Zmod_0_l, Z.add_0_r. done. }
  split; [by apply (arena_in_storage c Hgeo act)|].
  constructor; simpl; rewrite <- ?Hactdef.
  - done.
  - eapply freeList_mono; [exact Hfree|]. simpl.
    intros a Ha Hne [Hz1 Hz2]. rewrite read_insert_ne by lia. done.
  - lia.
  - rewrite <- Zplus_mod_idemp_l, Hbins. simpl. done.
  - lia.
  - intros a Ha. rewrite liveIn_cons, Hid.
    destruct (Z.eqb_spec act a) as [<-|Hne].
    + exists (na + 1), nd. rewrite read_insert_eq by lia.
      repeat split; try done; lia.
    + destruct (Hcnt a Ha) as (na' & nd' & Hna' & Hnd' & Hle' & HnaS' & Hdiff').
      exists na', nd'. rewrite read_insert_ne by lia.
      repeat split; try done; lia.
  - intros na'. rewrite read_insert_eq by lia. intros [= <-]. lia.
  - constructor; [by apply (arena_in_storage c Hgeo act) | done].
Qed.

Lemma sync_details_unfold fuel st bytes :
  Sync.do_allocate_details_rec fuel c st bytes =
  let numReservedBytes := wrap64 (Sync.bytesReserved st + bytes) in
  if arenaSize c <? numReservedBytes then
    '(reserved, st') ← Sync.reserveNextArena c st;
    if (reserved : bool) then
      match fuel with
      | O => None
      | S fuel' => Sync.do_allocate_details_rec fuel' c st' bytes
      end
    else Some (nullptr, st')
  else
    let result := Sync.data st in
    n ← read (Sync.numAllocationsInArena st) (Sync.activeArenaId st);
    allocs ← write (Sync.numAllocationsInArena st) (Sync.activeArenaId st)
               (wrap32 (n + 1));
    Some (result,
          {| Sync.data := wrap64 (Sync.data st + bytes);
             Sync.bytesReserved := numReservedBytes;
             Sync.activeArenaId := Sync.activeArenaId st;
             Sync.freeListHead := Sync.freeListHead st;
             Sync.freeList := Sync.freeList st;
             Sync.numAllocationsInArena := allocs;
             Sync.numDeallocationsInArena := Sync.numDeallocationsInArena st |}).
Proof. destruct fuel; reflexivity. Qed.

Lemma sync_details_inv fuel : ∀ st lv n,
  sync_inv c st lv → (Z.to_nat (Sync.freeListHead st) ≤ fuel)%nat →
  0 < n ≤ arenaSize c → n mod max_align = 0 →
  ∃ p st', Sync.do_allocate_details_rec fuel c st n = Some (p, st') ∧
    ((p = nullptr ∧ sync_inv c st' lv) ∨
     (p ≠ nullptr ∧ (p - arenaData c) mod max_align = 0 ∧ inStorage c p ∧
      sync_inv c st' (p :: lv))).
Proof.
  pose proof Hgeo as (HN & HS & Hmul & H32 & Hbase & H64).
  induction fuel as [|fuel IH]; intros st lv n Hinv Hfuel Hn Hnmod;
    pose proof (si_reserved _ _ _ Hinv) as Hres;
    pose proof (si_free _ _ _ Hinv) as (Hh & _);
    rewrite sync_details_unfold; cbv zeta;
    rewrite (wrap64_small (Sync.bytesReserved st + n)) by nia;
    (destruct (Z.ltb_spec (arenaSize c) (Sync.bytesReserved st + n)) as [Hnofit|Hfit];
     [ | destruct (sync_place_inv st lv n Hinv ltac:(lia) Hnmod Hfit)
           as (na & allocs & Hr & Hw & Hp & Hmod & Hin & Hinv');
         rewrite Hr; simpl; rewrite Hw; simpl;
         rewrite (wrap64_small (Sync.bytesReserved st + n)) in Hinv' by nia;
         eexists _, _; split; [reflexivity | by right] ]).
  - assert (Hz : Sync.freeListHead st = 0) by lia.
    unfold Sync.reserveNextArena. rewrite Hz. simpl.
    eexists _, _. split; [reflexivity | by left].
  - destruct (Z.eq_dec (Sync.freeListHead st) 0) as [Hz|Hnz].
    + unfold Sync.reserveNextArena. rewrite Hz. simpl.
      eexists _, _. split; [reflexivity | by left].
    + destruct (sync_reserve_inv st lv Hinv ltac:(lia))
        as (st' & Hres' & Hinv' & Hhead' & _).
      rewrite Hres'. simpl. apply IH; try done. lia.
Qed.

Lemma sync_allocate_inv st lv bytes alignment :
  sync_inv c st lv → sane_request bytes alignment →
  match Sync.do_allocate c st bytes alignment with
  | Returned p st' =>
      (p = nullptr ∧ sync_inv c st' lv) ∨
      (p ≠ nullptr ∧ 0 < bytes ∧ (p - arenaData c) mod max_align = 0 ∧
       inStorage c p ∧ sync_inv c st' (p :: lv))
  | Thrown _ st' => sync_inv c st' lv
  | Undefined => False
  end.
Proof.
  intros Hinv Hsane. unfold Sync.do_allocate.
  destruct (Z.eqb_spec bytes 0) as [->|Hnz]; [by left|].
  assert (Hb : 0 < bytes ≤ 2 ^ 32).
  { destruct Hsane as (? & (k & ? & ->) & ?).
    assert (0 < 2 ^ k) by (apply Z.pow_pos_nonneg; lia). lia. }
  pose proof (bins_arith bytes Hb) as Hbins. cbv zeta in Hbins.
  destruct Hbins as [Hrange Hmod].
  set (n := wrap64 (wrap64 (wrap64 (bytes + max_align) - 1) / max_align * max_align)) in *.
  destruct (Z.ltb_spec (arenaSize c) n) as [Hbig|Hok]; [by left|].
  unfold Sync.do_allocate_details.
  destruct (sync_details_inv _ st lv n Hinv (le_n _) ltac:(lia) Hmod)
    as (p & st' & -> & [[-> Hinv']|(Hp & Hmodp & Hin & Hinv')]).
  - simpl. destruct (exceptionsEnabled c); simpl; [done | by left].
  - destruct (Z.eqb_spec p nullptr) as [|_]; [done|].
    rewrite andb_false_r. right. split; [done|]. split; [lia|]. done.
Qed.

Lemma sync_deallocate_inv st lv p bytes alignment :
  sync_inv c st lv → p ∈ lv →
  ∃ st', Sync.do_deallocate c st p bytes alignment = Returned () st' ∧
         sync_inv c st' (giveBack p lv).
Proof.
  pose proof Hgeo as (HN & HS & _ & H32 & Hbase & H64).
  intros [Hact Hfree Hres Hbins Hdata Hcnt Hab Hlive] Hp.
  assert (HS32 : arenaSize c < 2 ^ 32) by nia.
  assert (HN32 : numArenas c < 2 ^ 32) by nia.
  assert (Hin : inStorage c p) by (by eapply Forall_forall in Hlive).
  pose proof (arenaIdOf_range c Hgeo p Hin) as Hx.
  pose proof (liveIn_pos c p lv Hp) as Hn1.
  assert (Hgb : ∀ a, liveIn c a (giveBack p lv)
                     = liveIn c a lv - (if Unsync.arenaIdOf c p =? a then 1 else 0))
    by (intros; by apply liveIn_giveBack).
  assert (Hlive' : Forall (inStorage c) (giveBack p lv)) by (by apply giveBack_Forall).
  unfold Sync.do_deallocate, Sync.arenaIdOf. fold (Unsync.arenaIdOf c p).
  remember (Unsync.arenaIdOf c p) as x eqn:Hxdef in *.
  remember (Sync.activeArenaId st) as act eqn:Hactdef in *.
  destruct (Hcnt x Hx) as (na & nd & Hna & Hnd & Hle & HnaS & Hdiff).
  pose proof (read_lt _ _ _ Hna) as Hlena.
  pose proof (read_lt _ _ _ Hnd) as Hlend.
  pose proof Hfree as (Hh & Hfllen & _).
  destruct (Z.eqb_spec (arenaSize c) 0) as [|_]; [lia|].
  destruct (Z.leb_spec (numArenas c) x) as [|_]; [lia|].
  rewrite andb_false_r, Hnd. simpl.
  rewrite (wrap32_small (nd + 1)) by lia.
  rewrite write_Some by lia. simpl. rewrite Hna. simpl. rewrite <- ?Hactdef.
  destruct (Z.eqb_spec na (nd + 1)) as [Hvacant|Hbusy].
  - rewrite read_insert_eq by lia. simpl.
    rewrite Z.eqb_refl. simpl.
    destruct (Z.eqb_spec na (nd + 1)) as [_|]; [|lia].
    destruct (Z.eqb_spec x act) as [Hxa|Hxa].
    + clear Hxdef. subst x. unfold Sync.resetActiveArena. simpl. rewrite <- ?Hactdef.
      rewrite write_Some by (rewrite ?length_insert; lia). simpl.
      rewrite write_Some by (rewrite ?length_insert; lia). simpl.
      eexists. split; [reflexivity|].
      constructor; simpl; rewrite <- ?Hactdef.
      * lia.
      * eapply freeList_mono; [exact Hfree|]. simpl.
        intros a Ha Hne [Hz1 Hz2]. rewrite !read_insert_ne by lia. done.
      * lia.
      * reflexivity.
      * rewrite arenaBase_eq by lia. lia.
      * intros a Ha. rewrite Hgb.
        destruct (Z.eqb_spec act a) as [<-|Hne].
        -- exists 0, 0.
           rewrite !read_insert_eq by (rewrite ?length_insert; lia).
           repeat split; try done; lia.
        -- destruct (Hcnt a Ha) as (na' & nd' & Hna' & Hnd' & Hle' & HnaS' & Hdiff').
           exists na', nd'. rewrite !read_insert_ne by lia.
           repeat split; try done; lia.
      * intros na'. rewrite read_insert_eq by lia. intros [= <-]. lia.
      * done.
    + unfold Sync.releaseArena. simpl.
      rewrite (write_Some (Sync.freeList st)) by lia. simpl.
      rewrite write_Some by (rewrite ?length_insert; lia). simpl.
      rewrite write_Some by (rewrite ?length_insert; lia). simpl.
      eexists. split; [reflexivity|].
      destruct (freeList_push c _ _ _ _
                  (λ a, read (<[Z.to_nat x:=0]> (Sync.numAllocationsInArena st)) a
                        = Some 0 ∧
                        read (<[Z.to_nat x:=0]>
                                (<[Z.to_nat x:=nd + 1]>
                                   (Sync.numDeallocationsInArena st))) a = Some 0)
                  x Hfree Hact Hx Hxa) as [Hroom Hfree'].
      { rewrite Hna. intros [[= H0] _]. lia. }
      { split; apply read_insert_eq; rewrite ?length_insert; lia. }
      { intros a Ha Hne [Hz1 Hz2]. rewrite !read_insert_ne by lia. done. }
      rewrite (wrap32_small (Sync.freeListHead st + 1)) by lia.
      constructor; simpl; rewrite <- ?Hactdef.
      * done.
      * done.
      * done.
      * done.
      * done.
      * intros a Ha. rewrite Hgb.
        destruct (Z.eqb_spec x a) as [<-|Hne].
        -- exists 0, 0.
           rewrite !read_insert_eq by (rewrite ?length_insert; lia).
           repeat split; try done; lia.
        -- destruct (Hcnt a Ha) as (na' & nd' & Hna' & Hnd' & Hle' & HnaS' & Hdiff').
           exists na', nd'. rewrite !read_insert_ne by lia.
           repeat split; try done; lia.
      * intros na'. rewrite read_insert_ne by lia. apply Hab.
      * done.
  - eexists. split; [reflexivity|].
    constructor; simpl; rewrite <- ?Hactdef.
    + done.
    + eapply freeList_mono; [exact Hfree|]. simpl.
      intros a Ha Hne [Hz1 Hz2]. rewrite read_insert_ne; [done | lia | lia |].
      intros <-. rewrite Hna in Hz1. injection Hz1 as H0. lia.
    + done.
    + done.
    + done.
    + intros a Ha. rewrite Hgb.
      destruct (Z.eqb_spec x a) as [<-|Hne].
      * exists na, (nd + 1). rewrite read_insert_eq by lia.
        repeat split; try done; lia.
      * destruct (Hcnt a Ha) as (na' & nd' & Hna' & Hnd' & Hle' & HnaS' & Hdiff').
        exists na', nd'. rewrite !read_insert_ne by lia.
        repeat split; try done; lia.
    + done.
    + done.
Qed.

Lemma sync_live_inv st lv :
  sync_inv c st lv →
  Sync.numberOfAllocations c st = Some (Z.of_nat (length lv)).
Proof.
  pose proof Hgeo as (HN & HS & _ & H32 & Hbase & H64).
  intros [Hact Hfree Hres Hbins Hdata Hcnt Hab Hlive].
  assert (HS32 : arenaSize c < 2 ^ 32) by nia.
  unfold Sync.numberOfAllocations.
  rewrite <- (sumTo_liveIn c Hgeo lv Hlive).
  apply sumArenas_sumTo.
  - intros a Ha. split; [|apply liveIn_nonneg].
    destruct (Hcnt a) as (na & nd & Hna & Hnd & Hle & HnaS & Hdiff); [lia|].
    unfold Sync.allocationsInArena. rewrite Hna, Hnd. simpl.
    rewrite wrap32_small by lia. f_equal. done.
  - assert (Hb : ∀ a, 0 ≤ a < numArenas c → liveIn c a lv ≤ arenaSize c).
    { intros a Ha. destruct (Hcnt a Ha) as (na & nd & _ & _ & Hle & HnaS & Hdiff). lia. }
    pose proof (sumTo_le (Z.to_nat (numArenas c)) (λ a, liveIn c a lv) (arenaSize c)) as H.
    specialize (H ltac:(intros; apply Hb; lia)). lia.
Qed.
End SyncInvariant.

(** ** Every engine, along every run *)

Section Engines.
Context (e : Engine) (c : Config) (Hgeo : valid_geometry c).

Lemma engine_construct_inv :
  ∃ st : EngineState e, construct c = Some st ∧ engine_inv e c st [].
Proof.
  destruct e; simpl.
  - by apply unsync_construct_inv.
  - by apply sync_construct_inv.
Qed.

Lemma engine_allocate_inv (st : EngineState e) lv bytes alignment :
  engine_inv e c st lv → sane_request bytes alignment →
  match allocate c st bytes alignment with
  | Returned p st' =>
      (p = nullptr ∧ engine_inv e c st' lv) ∨
      (p ≠ nullptr ∧ 0 < bytes ∧ inStorage c p ∧ engine_inv e c st' (p :: lv) ∧
       ((e = Synchronized → arenaData c mod max_align = 0) →
        p mod grantedAlignment e alignment = 0))
  | Thrown _ st' => engine_inv e c st' lv
  | Undefined => False
  end.
Proof.
  intros Hinv Hsane. destruct e; simpl in *.
  - pose proof (unsync_allocate_inv c Hgeo st lv bytes alignment Hinv Hsane) as H.
    destruct (Unsync.do_allocate c st bytes alignment) as [p st'| |]; [|done..].
    destruct H as [?|(? & ? & ? & ? & ?)]; [by left | right; done].
  - pose proof (sync_allocate_inv c Hgeo st lv bytes alignment Hinv Hsane) as H.
    destruct (Sync.do_allocate c st bytes alignment) as [p st'| |]; [|done..].
    destruct H as [?|(? & ? & Hmod & ? & ?)]; [by left | right].
    repeat (split; [done|]). intros Hbase. specialize (Hbase eq_refl).
    replace p with ((p - arenaData c) + arenaData c) by lia.
    rewrite <- Zplus_mod_idemp_l, <- Zplus_mod_idemp_r, Hmod, Hbase. reflexivity.
Qed.

Lemma engine_deallocate_inv (st : EngineState e) lv p bytes alignment :
  engine_inv e c st lv → p ∈ lv →
  ∃ st', deallocate c st p bytes alignment = Returned () st' ∧
         engine_inv e c st' (giveBack p lv).
Proof.
  intros Hinv Hp. destruct e; simpl in *.
  - by apply unsync_deallocate_inv.
  - by apply sync_deallocate_inv.
Qed.

Lemma engine_live_inv (st : EngineState e) lv :
  engine_inv e c st lv → liveAllocations c st = Some (Z.of_nat (length lv)).
Proof.
  intros Hinv. destruct e; simpl in *.
  - by apply unsync_live_inv.
  - by apply sync_live_inv.
Qed.

(** Along a run the pool stays consistent with the pointers held, and
    the two tallies differ by their number. *)
Lemma reachable_consistent (r : Run (EngineState e)) :
  reachable c r →
  engine_inv e c (resource r) (live r) ∧
  numAllocated r - numDeallocated r = Z.of_nat (length (live r)).
Proof.
  induction 1 as [st Hst | r bytes alignment p st' Hr [IH Hn] Hsane Hcall Hp
                 | r bytes alignment st' Hr [IH Hn] Hsane Hcall
                 | r bytes alignment x st' Hr [IH Hn] Hsane Hcall
                 | r p bytes alignment st' Hr [IH Hn] Hp Hcall]; simpl.
  - destruct engine_construct_inv as (st0 & Hst0 & Hinv).
    rewrite Hst in Hst0. injection Hst0 as <-. split; [done | lia].
  - pose proof (engine_allocate_inv _ _ bytes alignment IH Hsane) as H.
    rewrite Hcall in H. destruct H as [[? _]|(_ & _ & _ & Hinv & _)]; [done|].
    split; [done | lia].
  - pose proof (engine_allocate_inv _ _ bytes alignment IH Hsane) as H.
    rewrite Hcall in H. destruct H as [[_ Hinv]|(? & _)]; [|done].
    split; [done | lia].
  - pose proof (engine_allocate_inv _ _ bytes alignment IH Hsane) as H.
    rewrite Hcall in H. split; [done | lia].
  - destruct (engine_deallocate_inv _ _ p bytes alignment IH Hp) as (st'' & Hd & Hinv).
    rewrite Hcall in Hd. injection Hd as <-.
    split; [done|]. rewrite giveBack_length by done. lia.
Qed.
End Engines.



(** C6, at a concrete input: the unsynchronized pool of three arenas of
    16 bytes at address [2 ^ 33], freshly constructed.  [allocate(2^32, 1)]
    computes the bytes it needs as [SizeType(bytes)], which is 0, finds
    room for them in the active arena 0 and returns the non-null pointer
    [2 ^ 33 + 16 - 2 ^ 32], below the storage, with
    [numberOfAllocations()] at 1.  [deallocate] of that pointer takes the
    offset modulo [2 ^ 32], which is 16, so it decrements the counter of
    arena 1 from 0 to [2 ^ 32 - 1] and returns: after one successful
    allocate and one deallocate [numberOfAllocations()] is [2 ^ 32], not
    0.  The synchronized engine turns the same request down. *)
Theorem truncated_request_miscounts :
  let c := pool3x16high in
  let s0 := ustate (2 ^ 33 + 16) 16 0 2 [2; 1; 0] [0; 0; 0] in
  let p := 2 ^ 33 + 16 - 2 ^ 32 in
  let s1 := ustate p 16 0 2 [2; 1; 0] [1; 0; 0] in
  let s2 := ustate p 16 0 2 [2; 1; 0] [1; 2 ^ 32 - 1; 0] in
  Unsync.initializeArenas c = Some s0 ∧
  Unsync.numberOfAllocations c s0 = Some 0 ∧
  Unsync.do_allocate c s0 (2 ^ 32) 1 = Returned p s1 ∧
  p ≠ nullptr ∧ ¬ inStorage c p ∧
  Unsync.numberOfAllocations c s1 = Some 1 ∧
  Unsync.do_deallocate c s1 p (2 ^ 32) 1 = Returned () s2 ∧
  Unsync.numberOfAllocations c s2 = Some (2 ^ 32) ∧
  (∃ t0, Sync.initializeArenas c = Some t0 ∧
         Sync.do_allocate c t0 (2 ^ 32) 1 = Returned nullptr t0).
Proof.
  cbv zeta. repeat split; try (vm_compute; reflexivity).
  - vm_compute. discriminate.
  - unfold inStorage. vm_compute. intros [H _]. by apply H.
  - eexists. split; vm_compute; reflexivity.
Qed.

(** The count of live allocations within [SizeType]: in either engine, on
    a pool with valid geometry, along every sequence of calls in which
    the requests are within [SizeType] and every [deallocate] gives back a
    held pointer (a non-null pointer that an earlier allocate returned and
    that has not been given back since), [numberOfAllocations()] is the
    number of allocate calls that returned a block less the number of
    deallocate calls; every such call returns or throws, and giving back a
    held pointer returns; consequently an allocate followed by the
    deallocate of its pointer leaves [numberOfAllocations()] as it
    was. *)
Theorem live_allocations_balance (e : Engine) (c : Config) (r : Run (EngineState e)) :
  valid_geometry c → reachable c r →
  liveAllocations c (resource r) = Some (numAllocated r - numDeallocated r) ∧
  (∀ bytes alignment, sane_request bytes alignment →
     allocate c (resource r) bytes alignment ≠ Undefined) ∧
  (∀ p bytes alignment, p ∈ live r →
     ∃ st', deallocate c (resource r) p bytes alignment = Returned () st') ∧
  (∀ bytes alignment p st',
     sane_request bytes alignment →
     allocate c (resource r) bytes alignment = Returned p st' → p ≠ nullptr →
     ∃ st'', deallocate c st' p bytes alignment = Returned () st'' ∧
             liveAllocations c st'' = liveAllocations c (resource r)).
Proof.
  intros Hgeo Hr.
  destruct (reachable_consistent e c Hgeo r Hr) as [Hinv Hn].
  split; [|split; [|split]].
  - rewrite Hn. by apply engine_live_inv.
  - intros bytes alignment Hsane Hu.
    pose proof (engine_allocate_inv e c Hgeo _ _ bytes alignment Hinv Hsane) as H.
    by rewrite Hu in H.
  - intros p bytes alignment Hp.
    destruct (engine_deallocate_inv e c Hgeo _ _ p bytes alignment Hinv Hp) as (st' & Hd & _).
    by exists st'.
  - intros bytes alignment p st' Hsane Hcall Hp.
    pose proof (engine_allocate_inv e c Hgeo _ _ bytes alignment Hinv Hsane) as H.
    rewrite Hcall in H. destruct H as [[? _]|(_ & _ & _ & Hinv' & _)]; [done|].
    destruct (engine_deallocate_inv e c Hgeo _ _ p bytes alignment Hinv')
      as (st'' & Hd & Hinv''); [constructor|].
    exists st''. split; [done|].
    rewrite (engine_live_inv e c Hgeo _ _ Hinv''), (engine_live_inv e c Hgeo _ _ Hinv).
    simpl. by rewrite Z.eqb_refl.
Qed.


Lemma live_allocations_balance_witness :
  valid_geometry pool3x48 ∧
  Unsync.numberOfAllocations pool3x48 (ustate 4096 0 0 2 [2; 1; 0] [1; 0; 0])
    = Some (0 + 1 - 0).
Proof.
  split; [repeat split; try reflexivity; discriminate|].
  apply (live_allocations_balance Unsynchronized pool3x48
           {| resource := ustate 4096 0 0 2 [2; 1; 0] [1; 0; 0]; live := [4096];
              numAllocated := 0 + 1; numDeallocated := 0 |}).
  - repeat split; try reflexivity; discriminate.
  - apply (reach_allocate pool3x48
             {| resource := ustate 4144 48 0 2 [2; 1; 0] [0; 0; 0]; live := [];
                numAllocated := 0; numDeallocated := 0 |} 48 32 4096).
    + run_construct.
    + sane_pow 5.
    + vm_compute; reflexivity.
    + discriminate.
Defined.

(* ================================================================== *)
(** * Further properties of the engines *)

(** ** A freshly constructed pool *)

Lemma freeList_room (c : Config) fl head active (vacant : Z → Prop) x :
  freeListOk c fl head active vacant →
  0 ≤ active < numArenas c → 0 ≤ x < numArenas c → x ≠ active → ¬ vacant x →
  head + 2 ≤ numArenas c.
Proof.
  intros (Hh & Hlen & Hnd & Hent) Hact Hx Hxa Hnv.
  assert (Hmem : ∀ y, y ∈ take (Z.to_nat head) fl →
                      0 ≤ y < numArenas c ∧ y ≠ active ∧ y ≠ x).
  { intros y Hy. apply elem_of_take in Hy as (i & Hi & Hlt).
    destruct (Hent (Z.of_nat i)) as (a & Ha & Hr & Hne & Hvac); [lia|].
    unfold read in Ha. rewrite Nat2Z.id, Hi in Ha. injection Ha as <-.
    repeat split; try done; try lia. by intros ->. }
  pose proof (two_arenas_off_list c (take (Z.to_nat head) fl) active x Hnd Hmem
                Hact Hx ltac:(done)) as H.
  rewrite length_take_le in H by lia. lia.
Qed.

Lemma unsync_initial_state (c : Config) :
  valid_geometry c →
  Unsync.initializeArenas c
    = Some (ustate (arenaData c + arenaSize c) (arenaSize c) 0 (numArenas c - 1)
                   (initialFreeList c) (zeroCounters c)).
Proof.
  intros Hgeo. pose proof Hgeo as (HN & HS & _ & H32 & Hbase & H64).
  unfold Unsync.initializeArenas, Unsync.reserveNextArena. simpl.
  destruct (Z.eqb_spec (numArenas c) 0) as [|_]; [lia|].
  rewrite (wrap32_small (numArenas c - 1)) by nia.
  rewrite (initialFreeList_lookup c Hgeo) by lia. simpl.
  replace (numArenas c - 1 - (numArenas c - 1)) with 0 by lia.
  rewrite (arenaTop_eq c Hgeo) by lia. unfold ustate. do 3 f_equal. lia.
Qed.

Lemma sync_initial_state (c : Config) :
  valid_geometry c →
  Sync.initializeArenas c
    = Some (sstate (arenaData c) 0 0 (numArenas c - 1)
                   (initialFreeList c) (zeroCounters c) (zeroCounters c)).
Proof.
  intros Hgeo. pose proof Hgeo as (HN & HS & _ & H32 & Hbase & H64).
  unfold Sync.initializeArenas, Sync.reserveNextArena. simpl.
  destruct (Z.eqb_spec (numArenas c) 0) as [|_]; [lia|].
  rewrite (wrap32_small (numArenas c - 1)) by nia.
  rewrite (initialFreeList_lookup c Hgeo) by lia. simpl.
  replace (numArenas c - 1 - (numArenas c - 1)) with 0 by lia.
  rewrite (arenaBase_eq c Hgeo) by lia. unfold sstate. do 3 f_equal. lia.
Qed.

(** The constructors leave arena 0 active and empty, the arenas
    [numArenas - 1] down to 1 in the slots 0 to [numArenas - 2] of the
    free list, and report no allocation and no busy arena. *)
Theorem fresh_pool (c : Config) :
  valid_geometry c →
  Unsync.initializeArenas c
    = Some (ustate (arenaData c + arenaSize c) (arenaSize c) 0 (numArenas c - 1)
                   (initialFreeList c) (zeroCounters c)) ∧
  Sync.initializeArenas c
    = Some (sstate (arenaData c) 0 0 (numArenas c - 1)
                   (initialFreeList c) (zeroCounters c) (zeroCounters c)) ∧
  (∀ i, 0 ≤ i < numArenas c → read (initialFreeList c) i = Some (numArenas c - 1 - i)) ∧
  ∀ (e : Engine) (st : EngineState e),
    construct c = Some st →
    liveAllocations c st = Some 0 ∧ busyArenas c st = Some 0.
Proof.
  intros Hgeo. pose proof Hgeo as (HN & HS & _ & H32 & Hbase & H64).
  pose proof (unsync_initial_state c Hgeo) as Hu.
  pose proof (sync_initial_state c Hgeo) as Hs.
  split; [done|]. split; [done|].
  split; [intros i Hi; by apply initialFreeList_lookup|].
  assert (Hone : wrap32 (numArenas c - (numArenas c - 1)) = 1).
  { replace (numArenas c - (numArenas c - 1)) with 1 by lia. reflexivity. }
  intros e st Hst. split.
  - destruct (engine_construct_inv e c Hgeo) as (st0 & Hst0 & Hinv).
    rewrite Hst in Hst0. injection Hst0 as <-.
    by apply (engine_live_inv e c Hgeo st []).
  - destruct e; simpl in *.
    + rewrite Hu in Hst. injection Hst as <-.
      unfold Unsync.numberOfBusyArenas, Unsync.allocationsInArena, ustate. simpl.
      rewrite Hone. simpl. rewrite (zeroCounters_lookup c) by lia. reflexivity.
    + rewrite Hs in Hst. injection Hst as <-.
      unfold Sync.numberOfBusyArenas, Sync.allocationsInArena, sstate. simpl.
      rewrite Hone. simpl. rewrite !(zeroCounters_lookup c) by lia. reflexivity.
Qed.

Lemma fresh_pool_witness :
  valid_geometry pool3x16 ∧
  Unsync.initializeArenas pool3x16 = Some (ustate 4112 16 0 2 [2; 1; 0] [0; 0; 0]).
Proof.
  split; [repeat split; try reflexivity; discriminate|].
  pose proof (fresh_pool pool3x16) as H.
  destruct H as [H _]; [repeat split; try reflexivity; discriminate|].
  rewrite H. reflexivity.
Defined.

(** ** The number of busy arenas *)

Lemma liveIn_zero_not_held c a lv p : liveIn c a lv = 0 → p ∈ lv → Unsync.arenaIdOf c p ≠ a.
Proof.
  intros Hz Hp Ha. pose proof (liveIn_pos c p lv Hp) as H. rewrite Ha in H. lia.
Qed.

Lemma unsync_busy_inv c st lv :
  valid_geometry c → unsync_inv c st lv →
  ∃ busy, Unsync.numberOfBusyArenas c st = Some busy ∧
          0 ≤ busy ≤ numArenas c ∧ (lv ≠ [] → 1 ≤ busy).
Proof.
  intros Hgeo [Hact Hfree Hleft Hdata Hcnt Hbound Hab Hlive].
  pose proof Hgeo as (HN & HS & _ & H32 & Hbase & H64).
  pose proof Hfree as (Hh & _).
  unfold Unsync.numberOfBusyArenas, Unsync.allocationsInArena.
  rewrite (wrap32_small (numArenas c - Unsync.freeListHead st)) by nia.
  destruct (Z.eqb_spec (numArenas c - Unsync.freeListHead st) 1) as [H1|H1].
  - rewrite Hcnt by done. simpl.
    destruct (Z.eqb_spec (liveIn c (Unsync.activeArenaId st) lv) 0) as [Hz|Hz].
    + exists 0. split; [done|]. split; [lia|]. intros Hne. exfalso.
      destruct lv as [|p lv]; [done|].
      assert (Hp : p ∈ p :: lv) by constructor.
      assert (Hin : inStorage c p) by (by eapply Forall_forall in Hlive).
      pose proof (arenaIdOf_range c Hgeo p Hin) as Hx.
      pose proof (liveIn_pos c p _ Hp) as Hpos.
      assert (Hroom : Unsync.freeListHead st + 2 ≤ numArenas c).
      { eapply (freeList_room c _ _ _ _ (Unsync.arenaIdOf c p) Hfree); try done.
        - by apply (liveIn_zero_not_held c _ (p :: lv)).
        - rewrite Hcnt by done. intros [= H0]. lia. }
      lia.
    + exists (numArenas c - Unsync.freeListHead st). split; [done|]. lia.
  - exists (numArenas c - Unsync.freeListHead st). split; [done|]. lia.
Qed.

Lemma sync_busy_inv c st lv :
  valid_geometry c → sync_inv c st lv →
  ∃ busy, Sync.numberOfBusyArenas c st = Some busy ∧
          0 ≤ busy ≤ numArenas c ∧ (lv ≠ [] → 1 ≤ busy).
Proof.
  intros Hgeo [Hact Hfree Hres Hbins Hdata Hcnt Hab Hlive].
  pose proof Hgeo as (HN & HS & _ & H32 & Hbase & H64).
  pose proof Hfree as (Hh & _).
  assert (HS32 : arenaSize c < 2 ^ 32) by nia.
  unfold Sync.numberOfBusyArenas, Sync.allocationsInArena.
  rewrite (wrap32_small (numArenas c - Sync.freeListHead st)) by nia.
  destruct (Z.eqb_spec (numArenas c - Sync.freeListHead st) 1) as [H1|H1].
  - destruct (Hcnt _ Hact) as (na & nd & Hna & Hnd & Hle & HnaS & Hdiff).
    rewrite Hna, Hnd. simpl. rewrite wrap32_small by lia.
    destruct (Z.eqb_spec (na - nd) 0) as [Hz|Hz].
    + exists 0. split; [done|]. split; [lia|]. intros Hne. exfalso.
      destruct lv as [|p lv]; [done|].
      assert (Hp : p ∈ p :: lv) by constructor.
      assert (Hin : inStorage c p) by (by eapply Forall_forall in Hlive).
      pose proof (arenaIdOf_range c Hgeo p Hin) as Hx.
      pose proof (liveIn_pos c p _ Hp) as Hpos.
      assert (Hroom : Sync.freeListHead st + 2 ≤ numArenas c).
      { eapply (freeList_room c _ _ _ _ (Unsync.arenaIdOf c p) Hfree); try done.
        - apply (liveIn_zero_not_held c _ (p :: lv)); [lia | done].
        - destruct (Hcnt _ Hx) as (na' & nd' & Hna' & Hnd' & Hle' & _ & Hdiff').
          rewrite Hna', Hnd'. intros [[= ->] [= ->]]. lia. }
      lia.
    + exists (numArenas c - Sync.freeListHead st). split; [done|]. lia.
  - exists (numArenas c - Sync.freeListHead st). split; [done|]. lia.
Qed.

(** On a pool with valid geometry, in every state reached from
    construction by requests within [SizeType] and by deallocations of
    held pointers, [numberOfBusyArenas()] returns a number from 0 to
    [numArenas], and at least 1 while the consumer holds a pointer. *)
Theorem busy_arenas_bounds (e : Engine) (c : Config) (r : Run (EngineState e)) :
  valid_geometry c → reachable c r →
  ∃ busy, busyArenas c (resource r) = Some busy ∧
          0 ≤ busy ≤ numArenas c ∧ (live r ≠ [] → 1 ≤ busy).
Proof.
  intros Hgeo Hr. destruct (reachable_consistent e c Hgeo r Hr) as [Hinv _].
  destruct e; simpl in *.
  - by apply unsync_busy_inv.
  - by apply sync_busy_inv.
Qed.

Lemma busy_arenas_bounds_witness :
  valid_geometry pool3x48 ∧
  Unsync.numberOfBusyArenas pool3x48 (ustate 4096 0 0 2 [2; 1; 0] [1; 0; 0]) = Some 1.
Proof.
  split; [repeat split; try reflexivity; discriminate|].
  destruct (busy_arenas_bounds Unsynchronized pool3x48
              {| resource := ustate 4096 0 0 2 [2; 1; 0] [1; 0; 0]; live := [4096];
                 numAllocated := 0 + 1; numDeallocated := 0 |})
    as (busy & Hb & _).
  - repeat split; try reflexivity; discriminate.
  - apply (reach_allocate pool3x48
             {| resource := ustate 4144 48 0 2 [2; 1; 0] [0; 0; 0]; live := [];
                numAllocated := 0; numDeallocated := 0 |} 48 32 4096).
    + run_construct.
    + sane_pow 5.
    + vm_compute; reflexivity.
    + discriminate.
  - reflexivity.
Defined.

(** ** No access outside the arrays *)

(** On a pool with valid geometry, in every state reached from
    construction by requests within [SizeType] and by deallocations of
    held pointers, the calls of either engine read and write their arrays within bounds and the recursion of
    [do_allocate_details] ends: [allocate] returns or throws,
    [deallocate] of a held pointer returns, and the two counts return a
    number. *)
Theorem calls_stay_defined (e : Engine) (c : Config) (r : Run (EngineState e)) :
  valid_geometry c → reachable c r →
  (∀ bytes alignment, sane_request bytes alignment →
     allocate c (resource r) bytes alignment ≠ Undefined) ∧
  (∀ p bytes alignment, p ∈ live r →
     ∃ st', deallocate c (resource r) p bytes alignment = Returned () st') ∧
  liveAllocations c (resource r) = Some (Z.of_nat (length (live r))) ∧
  ∃ busy, busyArenas c (resource r) = Some busy.
Proof.
  intros Hgeo Hr. destruct (reachable_consistent e c Hgeo r Hr) as [Hinv _].
  split; [|split; [|split]].
  - intros bytes alignment Hsane Hcall.
    pose proof (engine_allocate_inv e c Hgeo _ _ bytes alignment Hinv Hsane) as H.
    by rewrite Hcall in H.
  - intros p bytes alignment Hp.
    destruct (engine_deallocate_inv e c Hgeo _ _ p bytes alignment Hinv Hp)
      as (st' & Hd & _).
    by exists st'.
  - by apply (engine_live_inv e c Hgeo).
  - destruct e; simpl in *.
    + destruct (unsync_busy_inv c _ _ Hgeo Hinv) as (busy & Hb & _). by exists busy.
    + destruct (sync_busy_inv c _ _ Hgeo Hinv) as (busy & Hb & _). by exists busy.
Qed.

Lemma calls_stay_defined_witness :
  valid_geometry pool2x64 ∧
  Sync.numberOfAllocations pool2x64 (sstate 4112 16 0 1 [1; 0] [1; 0] [0; 0]) = Some 1.
Proof.
  split; [repeat split; try reflexivity; discriminate|].
  destruct (calls_stay_defined Synchronized pool2x64
              {| resource := sstate 4112 16 0 1 [1; 0] [1; 0] [0; 0]; live := [4096];
                 numAllocated := 0 + 1; numDeallocated := 0 |}) as (_ & _ & H & _).
  - repeat split; try reflexivity; discriminate.
  - apply (reach_allocate pool2x64
             {| resource := sstate 4096 0 0 1 [1; 0] [0; 0] [0; 0]; live := [];
                numAllocated := 0; numDeallocated := 0 |} 16 64 4096).
    + run_construct.
    + sane_pow 6.
    + vm_compute; reflexivity.
    + discriminate.
  - exact H.
Defined.

(** ** Requests larger than an arena *)

(** The padding that [do_allocate_details] adds below a block ending at
    [d], for a request within [SizeType]. *)
Lemma unsync_offset_eq d bytes alignment :
  sane_request bytes alignment →
  wrap32 (Z.land (wrap64 (d - bytes)) (wrap64 (alignment - 1)))
    = (d - bytes) mod alignment ∧
  wrap32 (wrap32 bytes + (d - bytes) mod alignment)
    = bytes + (d - bytes) mod alignment ∧
  0 ≤ (d - bytes) mod alignment < alignment.
Proof.
  intros (Hb & Hpow & Hsum).
  destruct (pow2_exponent_bound alignment Hpow ltac:(lia)) as (k & Hk & ->).
  assert (Hpos : 0 < 2 ^ k) by (apply Z.pow_pos_nonneg; lia).
  assert (H2k : 2 ^ k ≤ 2 ^ 32) by (apply Z.pow_le_mono_r; lia).
  pose proof (Z.mod_pos_bound (d - bytes) (2 ^ k) Hpos) as Hoff.
  rewrite (wrap64_small (2 ^ k - 1)) by lia.
  rewrite land_pow2_mask by lia.
  unfold wrap64 at 1. rewrite Z.mod_mod_divide.
  - rewrite (wrap32_small ((d - bytes) mod 2 ^ k)) by lia.
    rewrite (wrap32_small bytes) by lia.
    split; [done|]. split; [apply wrap32_small; lia | done].
  - exists (2 ^ (64 - k)). rewrite <- Z.pow_add_r by lia. f_equal. lia.
Qed.

(** In the unsynchronized engine, on a pool with valid geometry, a
    request within [SizeType] for more than an arena holds is refused in
    every state reached from construction by requests within [SizeType]
    and by deallocations of held pointers:
    [AllocateTooLargeBlock] carries the request and the arena size, or
    the null pointer is returned when exceptions are disabled, and the
    pool is left as it was. *)
Theorem oversized_request_rejected (c : Config) (r : Run Unsync.State)
    (bytes alignment : Z) :
  valid_geometry c → reachable c r →
  sane_request bytes alignment → arenaSize c < bytes →
  Unsync.do_allocate c (resource r) bytes alignment
  = if exceptionsEnabled c
    then Thrown (AllocateTooLargeBlock bytes (arenaSize c)) (resource r)
    else Returned nullptr (resource r).
Proof.
  intros Hgeo Hr Hsane Hbig.
  pose proof Hgeo as (HN & HS & _ & H32 & Hbase & H64).
  destruct (reachable_consistent Unsynchronized c Hgeo r Hr) as [Hinv _].
  simpl in Hinv. destruct Hinv as [Hact Hfree Hleft Hdata Hcnt Hbound Hab Hlive].
  destruct (unsync_offset_eq (Unsync.data (resource r)) bytes alignment Hsane)
    as (Hoff & Hneeded & Hrange).
  unfold Unsync.do_allocate, Unsync.do_allocate_details.
  destruct (Z.eqb_spec bytes 0) as [|_]; [lia|].
  rewrite unsync_details_unfold. cbv zeta. rewrite Hoff, Hneeded.
  destruct (Z.ltb_spec (Unsync.bytesLeft (resource r))
              (bytes + (Unsync.data (resource r) - bytes) mod alignment)); [|lia].
  destruct (Z.leb_spec bytes (arenaSize c)); [lia|].
  destruct (exceptionsEnabled c); simpl; [|done].
  destruct (Z.ltb_spec (arenaSize c) bytes); [done | lia].
Qed.

Lemma oversized_request_rejected_witness :
  valid_geometry pool3x48 ∧ sane_request 56 8 ∧ arenaSize pool3x48 < 56 ∧
  Unsync.do_allocate pool3x48 (ustate 4144 48 0 2 [2; 1; 0] [0; 0; 0]) 56 8
  = Thrown (AllocateTooLargeBlock 56 48) (ustate 4144 48 0 2 [2; 1; 0] [0; 0; 0]).
Proof.
  split; [repeat split; try reflexivity; discriminate|].
  split; [sane_pow 3|]. split; [reflexivity|].
  apply (oversized_request_rejected pool3x48
           {| resource := ustate 4144 48 0 2 [2; 1; 0] [0; 0; 0]; live := [];
              numAllocated := 0; numDeallocated := 0 |} 56 8).
  - repeat split; try reflexivity; discriminate.
  - run_construct.
  - sane_pow 3.
  - reflexivity.
Defined.

(** The synchronized engine never throws [AllocateTooLargeBlock]: a
    request whose size, rounded up to whole bins of
    [alignof(max_align_t)] bytes, exceeds the arena size returns the null
    pointer before the lock is taken, also with exceptions enabled, and
    leaves the pool as it was. *)
Theorem synchronized_oversized_returns_null (c : Config) (st : Sync.State)
    (bytes alignment : Z) :
  0 ≤ bytes < 2 ^ 64 - max_align →
  (∀ n m st', Sync.do_allocate c st bytes alignment
              ≠ Thrown (AllocateTooLargeBlock n m) st') ∧
  (arenaSize c < max_align * ((bytes + max_align - 1) / max_align) →
   Sync.do_allocate c st bytes alignment = Returned nullptr st).
Proof.
  intros Hb. unfold Sync.do_allocate.
  destruct (Z.eqb_spec bytes 0) as [Hz|Hnz]; [by split|].
  rewrite (wrap64_small (bytes + max_align)) by (unfold max_align in *; lia).
  rewrite (wrap64_small (bytes + max_align - 1)) by (unfold max_align in *; lia).
  assert (Hn : wrap64 ((bytes + max_align - 1) / max_align * max_align)
               = max_align * ((bytes + max_align - 1) / max_align)).
  { unfold max_align in *.
    pose proof (Z.div_mod (bytes + 16 - 1) 16 ltac:(lia)) as Hdm.
    pose proof (Z.mod_pos_bound (bytes + 16 - 1) 16 ltac:(lia)) as Hm.
    rewrite wrap64_small by lia. lia. }
  rewrite Hn. split.
  - intros n m st'.
    destruct (Z.ltb_spec (arenaSize c)
                (max_align * ((bytes + max_align - 1) / max_align))); [done|].
    destruct (Sync.do_allocate_details c st _) as [[result st'']|]; [|done].
    destruct (exceptionsEnabled c && (result =? nullptr)); done.
  - intros Hbig.
    destruct (Z.ltb_spec (arenaSize c)
                (max_align * ((bytes + max_align - 1) / max_align))); [done | lia].
Qed.

Lemma synchronized_oversized_returns_null_witness :
  0 ≤ 65 < 2 ^ 64 - max_align ∧
  Sync.do_allocate pool2x64 (sstate 4096 0 0 1 [1; 0] [0; 0] [0; 0]) 65 8
  = Returned nullptr (sstate 4096 0 0 1 [1; 0] [0; 0] [0; 0]).
Proof.
  split; [split; [discriminate | reflexivity]|].
  apply (synchronized_oversized_returns_null pool2x64
           (sstate 4096 0 0 1 [1; 0] [0; 0] [0; 0]) 65 8).
  - split; [discriminate | reflexivity].
  - reflexivity.
Defined.

(** ** What [allocate] does in the unsynchronized engine *)

Section UnsyncSteps.
Context (c : Config) (Hgeo : valid_geometry c).

(** The block fits the active arena. *)
Lemma unsync_fit_spec st lv bytes alignment fuel :
  unsync_inv c st lv → 0 < bytes → sane_request bytes alignment →
  unsyncNeeded (Unsync.data st) bytes alignment ≤ Unsync.bytesLeft st →
  Unsync.do_allocate_details_rec fuel c st bytes alignment
    = Some (Unsync.data st - unsyncNeeded (Unsync.data st) bytes alignment,
            unsyncPlace st bytes alignment) ∧
  Unsync.data st - unsyncNeeded (Unsync.data st) bytes alignment ≠ nullptr ∧
  unsync_inv c (unsyncPlace st bytes alignment)
    ((Unsync.data st - unsyncNeeded (Unsync.data st) bytes alignment) :: lv).
Proof.
  pose proof Hgeo as (HN & HS & _ & H32 & Hbase & H64).
  intros Hinv Hb Hsane Hfit.
  pose proof Hinv as [Hact Hfree Hleft Hdata Hcnt Hbound Hab Hlive].
  assert (HS32 : arenaSize c < 2 ^ 32) by nia.
  destruct (unsync_offset_eq (Unsync.data st) bytes alignment Hsane)
    as (Hoff & Hneeded & Hrange).
  unfold unsyncNeeded in *.
  pose proof (Hcnt _ Hact) as Hn.
  pose proof (read_lt _ _ _ Hn) as Hlen.
  pose proof (liveIn_nonneg c (Unsync.activeArenaId st) lv) as Hn0.
  pose proof (unsync_place_inv c Hgeo st lv bytes alignment Hinv Hb Hsane) as Hplace.
  cbv zeta in Hplace. rewrite Hoff, Hneeded in Hplace.
  rewrite (wrap64_small (Unsync.data st - bytes)) in Hplace by nia.
  rewrite (wrap64_small (Unsync.data st - bytes - _)) in Hplace by nia.
  rewrite (wrap32_small (Unsync.bytesLeft st - _)) in Hplace by lia.
  destruct (Hplace Hfit) as (n & counters & Hr & Hw & Hp & _ & _ & Hinv').
  rewrite Hn in Hr. injection Hr as <-.
  rewrite (wrap32_small (liveIn c _ lv + 1)) in Hw by lia.
  assert (Hst : unsyncPlace st bytes alignment
    = {| Unsync.data := Unsync.data st - bytes - (Unsync.data st - bytes) mod alignment;
         Unsync.bytesLeft := Unsync.bytesLeft st
                             - (bytes + (Unsync.data st - bytes) mod alignment);
         Unsync.activeArenaId := Unsync.activeArenaId st;
         Unsync.freeListHead := Unsync.freeListHead st;
         Unsync.freeList := Unsync.freeList st;
         Unsync.numAllocationsInArena := counters |}).
  { apply write_inv in Hw as [-> _].
    unfold unsyncPlace, unsyncNeeded, ustate. rewrite Hn. simpl. f_equal. lia. }
  split; [|split].
  - rewrite unsync_details_unfold. cbv zeta. rewrite Hoff, Hneeded.
    destruct (Z.ltb_spec (Unsync.bytesLeft st)
                (bytes + (Unsync.data st - bytes) mod alignment)); [lia|].
    rewrite (wrap64_small (Unsync.data st - bytes)) by nia.
    rewrite (wrap64_small (Unsync.data st - bytes - _)) by nia.
    rewrite Hn. simpl. rewrite (wrap32_small (liveIn c _ lv + 1)) by lia.
    rewrite Hw. simpl. rewrite (wrap32_small (Unsync.bytesLeft st - _)) by lia.
    rewrite Hst. do 2 f_equal. lia.
  - replace (Unsync.data st - (bytes + (Unsync.data st - bytes) mod alignment))
      with (Unsync.data st - bytes - (Unsync.data st - bytes) mod alignment) by lia.
    done.
  - rewrite Hst.
    replace (Unsync.data st - (bytes + (Unsync.data st - bytes) mod alignment))
      with (Unsync.data st - bytes - (Unsync.data st - bytes) mod alignment) by lia.
    done.
Qed.

(** The block does not fit and no arena can be reserved for it. *)
Lemma unsync_fail_spec st lv bytes alignment fuel :
  unsync_inv c st lv → 0 < bytes → sane_request bytes alignment →
  Unsync.bytesLeft st < unsyncNeeded (Unsync.data st) bytes alignment →
  arenaSize c < bytes ∨ Unsync.freeListHead st = 0 →
  Unsync.do_allocate_details_rec fuel c st bytes alignment = Some (nullptr, st).
Proof.
  intros Hinv Hb Hsane Hnofit Hwhy.
  destruct (unsync_offset_eq (Unsync.data st) bytes alignment Hsane)
    as (Hoff & Hneeded & Hrange).
  unfold unsyncNeeded in *.
  rewrite unsync_details_unfold. cbv zeta. rewrite Hoff, Hneeded.
  destruct (Z.ltb_spec (Unsync.bytesLeft st)
              (bytes + (Unsync.data st - bytes) mod alignment)); [|lia].
  destruct (Z.leb_spec bytes (arenaSize c)); [|done].
  destruct Hwhy as [|Hz]; [lia|].
  unfold Unsync.reserveNextArena. rewrite Hz. reflexivity.
Qed.

(** The block does not fit, is no larger than an arena, and the free list
    is not empty: the arena on top of the free list is made the active
    one and the placement is tried again there. *)
Lemma unsync_retry_spec st lv bytes alignment :
  unsync_inv c st lv → 0 < bytes → sane_request bytes alignment →
  Unsync.bytesLeft st < unsyncNeeded (Unsync.data st) bytes alignment →
  bytes ≤ arenaSize c → 0 < Unsync.freeListHead st →
  ∃ a, read (Unsync.freeList st) (Unsync.freeListHead st - 1) = Some a ∧
       0 ≤ a < numArenas c ∧ a ≠ Unsync.activeArenaId st ∧ liveIn c a lv = 0 ∧
       unsync_inv c (unsyncReserve c st a) lv ∧
       ∀ fuel, Unsync.do_allocate_details_rec (S fuel) c st bytes alignment
               = Unsync.do_allocate_details_rec fuel c (unsyncReserve c st a)
                   bytes alignment.
Proof.
  pose proof Hgeo as (HN & HS & _ & H32 & Hbase & H64).
  intros Hinv Hb Hsane Hnofit Hle Hhead.
  pose proof Hinv as [Hact Hfree Hleft Hdata Hcnt Hbound Hab Hlive].
  destruct (unsync_offset_eq (Unsync.data st) bytes alignment Hsane)
    as (Hoff & Hneeded & Hrange).
  unfold unsyncNeeded in *.
  pose proof Hfree as (Hh & _ & _ & Hent).
  destruct (Hent (Unsync.freeListHead st - 1)) as (a & Ha & Hra & Hne & Hvac); [lia|].
  destruct (unsync_reserve_inv c Hgeo st lv Hinv Hhead) as (st' & Hres & Hinv' & _).
  assert (Hst' : st' = unsyncReserve c st a).
  { unfold Unsync.reserveNextArena in Hres.
    destruct (Z.eqb_spec (Unsync.freeListHead st) 0) as [|_]; [lia|].
    rewrite (wrap32_small (Unsync.freeListHead st - 1)) in Hres by nia.
    rewrite Ha in Hres. simpl in Hres. injection Hres as <-.
    rewrite (arenaTop_eq c Hgeo) by lia. reflexivity. }
  subst st'.
  exists a. split; [done|]. split; [done|]. split; [done|]. split.
  { rewrite Hcnt in Hvac by done. by injection Hvac. }
  split; [done|].
  intros fuel. rewrite (unsync_details_unfold c (S fuel)). cbv zeta.
  rewrite Hoff, Hneeded.
  destruct (Z.ltb_spec (Unsync.bytesLeft st)
              (bytes + (Unsync.data st - bytes) mod alignment)); [|lia].
  destruct (Z.leb_spec bytes (arenaSize c)); [|lia].
  rewrite Hres. reflexivity.
Qed.

(** An untouched arena takes every block up to its size whose alignment
    divides the arena size and the address of the storage. *)
Lemma aligned_fresh_fits a bytes alignment :
  alignedFor c alignment → sane_request bytes alignment →
  0 < bytes ≤ arenaSize c →
  unsyncNeeded (arenaData c + arenaSize c * a + arenaSize c) bytes alignment
  ≤ arenaSize c.
Proof.
  intros [HSa Hba] (_ & Hpow & _) Hb.
  destruct Hpow as (k & Hk & ->).
  assert (Hpos : 0 < 2 ^ k) by (apply Z.pow_pos_nonneg; lia).
  unfold unsyncNeeded.
  set (m := 2 ^ k) in *.
  assert (Hd : (arenaData c + arenaSize c * a + arenaSize c - bytes) mod m
               = (- bytes) mod m).
  { replace (arenaData c + arenaSize c * a + arenaSize c - bytes)
      with (- bytes + (arenaData c + (a + 1) * arenaSize c)) by lia.
    rewrite <- Zplus_mod_idemp_r.
    rewrite <- (Zplus_mod_idemp_l (arenaData c)), Hba, Z.add_0_l.
    rewrite <- Zmult_mod_idemp_r, HSa, Z.mul_0_r. simpl.
    rewrite Zmod_0_l, Z.add_0_r. reflexivity. }
  rewrite Hd.
  apply Z.mod_divide in HSa; [|lia]. destruct HSa as (q & Hq).
  pose proof (Z.mod_pos_bound (- bytes) m Hpos) as Hr.
  pose proof (Z.div_mod (- bytes) m ltac:(lia)) as Hdm.
  assert (Hmul : bytes + (- bytes) mod m = m * (- ((- bytes) / m))) by lia.
  rewrite Hmul. rewrite Hq in *.
  assert (- ((- bytes) / m) ≤ q); [|nia].
  assert (m * (- ((- bytes) / m)) < m * (q + 1)) by lia.
  nia.
Qed.
End UnsyncSteps.

(** On a pool with valid geometry, for a request within [SizeType], not
    empty and no larger than an arena, whose alignment divides the arena
    size and the address of the storage, the unsynchronized [allocate]
    does one of three things in every state reached from construction by
    requests within [SizeType] and by deallocations of held pointers.  If the block with its padding fits the active arena, it
    is placed below the bump pointer.  If not and the free list is empty,
    [OutOfFreeArenas] is thrown (or the null pointer returned) and the
    pool is left as it was.  Otherwise the arena on top of the free list,
    and no other, is reserved and the block is placed at its upper end. *)
Theorem allocate_aligned_unsync (c : Config) (r : Run Unsync.State)
    (bytes alignment : Z) :
  valid_geometry c → reachable c r →
  sane_request bytes alignment → alignedFor c alignment →
  0 < bytes ≤ arenaSize c →
  let st := resource r in
  let needed := unsyncNeeded (Unsync.data st) bytes alignment in
  if needed <=? Unsync.bytesLeft st then
    Unsync.do_allocate c st bytes alignment
    = Returned (Unsync.data st - needed) (unsyncPlace st bytes alignment)
  else if Unsync.freeListHead st =? 0 then
    Unsync.do_allocate c st bytes alignment
    = if exceptionsEnabled c then Thrown (OutOfFreeArenas (numArenas c)) st
      else Returned nullptr st
  else
    ∃ a, read (Unsync.freeList st) (Unsync.freeListHead st - 1) = Some a ∧
         Unsync.do_allocate c st bytes alignment
         = Returned (arenaData c + arenaSize c * a + arenaSize c
                     - unsyncNeeded (arenaData c + arenaSize c * a + arenaSize c)
                         bytes alignment)
                    (unsyncPlace (unsyncReserve c st a) bytes alignment).
Proof.
  intros Hgeo Hr Hsane Hal Hb. cbv zeta.
  destruct (reachable_consistent Unsynchronized c Hgeo r Hr) as [Hinv _].
  simpl in Hinv. set (st := resource r) in *.
  pose proof (ui_free _ _ _ Hinv) as (Hh & _).
  unfold Unsync.do_allocate, Unsync.do_allocate_details.
  destruct (Z.eqb_spec bytes 0) as [|_]; [lia|].
  destruct (Z.leb_spec (unsyncNeeded (Unsync.data st) bytes alignment)
              (Unsync.bytesLeft st)) as [Hfit|Hnofit].
  - destruct (unsync_fit_spec c Hgeo st _ bytes alignment
                (Z.to_nat (Unsync.freeListHead st)) Hinv ltac:(lia) Hsane Hfit)
      as (-> & Hp & _).
    destruct (Z.eqb_spec (Unsync.data st - unsyncNeeded (Unsync.data st) bytes alignment)
                nullptr); [done|].
    by rewrite andb_false_r.
  - destruct (Z.eqb_spec (Unsync.freeListHead st) 0) as [Hz|Hnz].
    + rewrite (unsync_fail_spec c st _ bytes alignment _ Hinv ltac:(lia) Hsane Hnofit)
        by (by right).
      simpl. destruct (exceptionsEnabled c); simpl; [|done].
      destruct (Z.ltb_spec (arenaSize c) bytes); [lia | done].
    + destruct (unsync_retry_spec c Hgeo st _ bytes alignment Hinv ltac:(lia) Hsane
                  Hnofit ltac:(lia) ltac:(lia))
        as (a & Ha & Hra & Hne & Hz & Hinv' & Hrec).
      exists a. split; [done|].
      replace (Z.to_nat (Unsync.freeListHead st))
        with (S (Z.to_nat (Unsync.freeListHead st - 1))) by lia.
      rewrite Hrec.
      pose proof (aligned_fresh_fits c a bytes alignment Hal Hsane Hb) as Hfits.
      destruct (unsync_fit_spec c Hgeo (unsyncReserve c st a) _ bytes alignment
                  (Z.to_nat (Unsync.freeListHead st - 1)) Hinv' ltac:(lia) Hsane Hfits)
        as (-> & Hp & _).
      simpl in Hp |- *.
      destruct (Z.eqb_spec (arenaData c + arenaSize c * a + arenaSize c
                  - unsyncNeeded (arenaData c + arenaSize c * a + arenaSize c)
                      bytes alignment) nullptr); [done|].
      by rewrite andb_false_r.
Qed.

Lemma allocate_aligned_unsync_witness :
  valid_geometry pool3x48 ∧ sane_request 48 16 ∧ alignedFor pool3x48 16 ∧
  ∃ a, read [2; 1; 0] (2 - 1) = Some a ∧
       Unsync.do_allocate pool3x48 (ustate 4096 0 0 2 [2; 1; 0] [1; 0; 0]) 48 16
       = Returned (4096 + 48 * a + 48 - unsyncNeeded (4096 + 48 * a + 48) 48 16)
           (unsyncPlace
              (unsyncReserve pool3x48 (ustate 4096 0 0 2 [2; 1; 0] [1; 0; 0]) a) 48 16).
Proof.
  split; [repeat split; try reflexivity; discriminate|].
  split; [sane_pow 4|]. split; [split; reflexivity|].
  apply (allocate_aligned_unsync pool3x48
           {| resource := ustate 4096 0 0 2 [2; 1; 0] [1; 0; 0]; live := [4096];
              numAllocated := 0 + 1; numDeallocated := 0 |} 48 16).
  - repeat split; try reflexivity; discriminate.
  - apply (reach_allocate pool3x48
             {| resource := ustate 4144 48 0 2 [2; 1; 0] [0; 0; 0]; live := [];
                numAllocated := 0; numDeallocated := 0 |} 48 32 4096).
    + run_construct.
    + sane_pow 5.
    + vm_compute; reflexivity.
    + discriminate.
  - sane_pow 4.
  - split; reflexivity.
  - split; [reflexivity | discriminate].
Defined.

(** ** What [allocate] does in the synchronized engine *)

Section SyncSteps.
Context (c : Config) (Hgeo : valid_geometry c).

Lemma sync_fit_spec st lv n fuel :
  sync_inv c st lv → 0 < n → n mod max_align = 0 →
  Sync.bytesReserved st + n ≤ arenaSize c →
  Sync.do_allocate_details_rec fuel c st n = Some (Sync.data st, syncPlace st n) ∧
  Sync.data st ≠ nullptr ∧
  sync_inv c (syncPlace st n) (Sync.data st :: lv).
Proof.
  pose proof Hgeo as (HN & HS & _ & H32 & Hbase & H64).
  intros Hinv Hn Hmod Hfit.
  pose proof Hinv as [Hact Hfree Hres Hbins Hdata Hcnt Hab Hlive].
  assert (HS32 : arenaSize c < 2 ^ 32) by nia.
  destruct (sync_place_inv c Hgeo st lv n Hinv Hn Hmod Hfit)
    as (na & allocs & Hr & Hw & Hp & _ & _ & Hinv').
  pose proof (Hab na Hr) as Hna.
  destruct (Hcnt _ Hact) as (na' & nd & Hna' & _ & Hle & _).
  rewrite Hr in Hna'. injection Hna' as <-.
  rewrite (wrap32_small (na + 1)) in Hw by lia.
  rewrite (wrap64_small (Sync.bytesReserved st + n)) in Hinv' by lia.
  rewrite (wrap64_small (Sync.data st + n)) in Hinv' by nia.
  assert (Hst : syncPlace st n
    = {| Sync.data := Sync.data st + n;
         Sync.bytesReserved := Sync.bytesReserved st + n;
         Sync.activeArenaId := Sync.activeArenaId st;
         Sync.freeListHead := Sync.freeListHead st;
         Sync.freeList := Sync.freeList st;
         Sync.numAllocationsInArena := allocs;
         Sync.numDeallocationsInArena := Sync.numDeallocationsInArena st |}).
  { apply write_inv in Hw as [-> _].
    unfold syncPlace, sstate. rewrite Hr. reflexivity. }
  split; [|split; [done | by rewrite Hst]].
  rewrite sync_details_unfold. cbv zeta.
  rewrite (wrap64_small (Sync.bytesReserved st + n)) by lia.
  destruct (Z.ltb_spec (arenaSize c) (Sync.bytesReserved st + n)); [lia|].
  rewrite Hr. simpl. rewrite (wrap32_small (na + 1)) by lia.
  rewrite Hw. simpl. rewrite (wrap64_small (Sync.data st + n)) by nia.
  by rewrite Hst.
Qed.

Lemma sync_fail_spec st lv n fuel :
  sync_inv c st lv → 0 < n ≤ arenaSize c →
  arenaSize c < Sync.bytesReserved st + n → Sync.freeListHead st = 0 →
  Sync.do_allocate_details_rec fuel c st n = Some (nullptr, st).
Proof.
  pose proof Hgeo as (HN & HS & _ & H32 & Hbase & H64).
  intros Hinv Hn Hnofit Hz.
  pose proof (si_reserved _ _ _ Hinv) as Hres.
  rewrite sync_details_unfold. cbv zeta.
  rewrite (wrap64_small (Sync.bytesReserved st + n)) by nia.
  destruct (Z.ltb_spec (arenaSize c) (Sync.bytesReserved st + n)); [|lia].
  unfold Sync.reserveNextArena. rewrite Hz. reflexivity.
Qed.

Lemma sync_retry_spec st lv n :
  sync_inv c st lv → 0 < n ≤ arenaSize c →
  arenaSize c < Sync.bytesReserved st + n → 0 < Sync.freeListHead st →
  ∃ a, read (Sync.freeList st) (Sync.freeListHead st - 1) = Some a ∧
       0 ≤ a < numArenas c ∧ a ≠ Sync.activeArenaId st ∧ liveIn c a lv = 0 ∧
       sync_inv c (syncReserve c st a) lv ∧
       ∀ fuel, Sync.do_allocate_details_rec (S fuel) c st n
               = Sync.do_allocate_details_rec fuel c (syncReserve c st a) n.
Proof.
  pose proof Hgeo as (HN & HS & _ & H32 & Hbase & H64).
  intros Hinv Hn Hnofit Hhead.
  pose proof Hinv as [Hact Hfree Hres Hbins Hdata Hcnt Hab Hlive].
  pose proof Hfree as (Hh & _ & _ & Hent).
  destruct (Hent (Sync.freeListHead st - 1)) as (a & Ha & Hra & Hne & Hvac); [lia|].
  destruct (sync_reserve_inv c Hgeo st lv Hinv Hhead) as (st' & Hrs & Hinv' & _).
  assert (Hst' : st' = syncReserve c st a).
  { unfold Sync.reserveNextArena in Hrs.
    destruct (Z.eqb_spec (Sync.freeListHead st) 0) as [|_]; [lia|].
    rewrite (wrap32_small (Sync.freeListHead st - 1)) in Hrs by nia.
    rewrite Ha in Hrs. simpl in Hrs. injection Hrs as <-.
    rewrite (arenaBase_eq c Hgeo) by lia. reflexivity. }
  subst st'.
  exists a. split; [done|]. split; [done|]. split; [done|]. split.
  { destruct (Hcnt a Hra) as (na & nd & Hna & Hnd & _ & _ & Hdiff).
    destruct Hvac as [Hz1 Hz2]. rewrite Hna in Hz1. rewrite Hnd in Hz2.
    injection Hz1 as ->. injection Hz2 as ->. lia. }
  split; [done|].
  intros fuel. rewrite (sync_details_unfold c (S fuel)). cbv zeta.
  rewrite (wrap64_small (Sync.bytesReserved st + n)) by nia.
  destruct (Z.ltb_spec (arenaSize c) (Sync.bytesReserved st + n)); [|lia].
  rewrite Hrs. reflexivity.
Qed.
End SyncSteps.

Lemma binBytes_arith bytes :
  0 < bytes ≤ 2 ^ 32 →
  wrap64 (wrap64 (wrap64 (bytes + max_align) - 1) / max_align * max_align)
    = binBytes bytes ∧
  bytes ≤ binBytes bytes < bytes + max_align ∧ binBytes bytes mod max_align = 0.
Proof.
  intros Hb. pose proof (bins_arith bytes Hb) as H. cbv zeta in H.
  assert (Heq : wrap64 (wrap64 (wrap64 (bytes + max_align) - 1) / max_align * max_align)
                = binBytes bytes).
  { unfold binBytes, max_align.
    rewrite (wrap64_small (bytes + 16)) by lia.
    rewrite (wrap64_small (bytes + 16 - 1)) by lia.
    pose proof (Z.div_mod (bytes + 16 - 1) 16 ltac:(lia)) as Hdm.
    pose proof (Z.mod_pos_bound (bytes + 16 - 1) 16 ltac:(lia)) as Hm.
    rewrite wrap64_small by lia. lia. }
  rewrite Heq in H. by split.
Qed.

Lemma sane_bytes_bound bytes alignment :
  sane_request bytes alignment → bytes < 2 ^ 32.
Proof.
  intros (? & (k & ? & ->) & ?).
  assert (0 < 2 ^ k) by (apply Z.pow_pos_nonneg; lia). lia.
Qed.

(** On a pool with valid geometry, for a request within [SizeType], not
    empty, whose size in whole bins is no larger than an arena, the
    synchronized [allocate] does one of three things in every state
    reached from construction by requests within [SizeType] and by
    deallocations of held pointers.  If the bins fit the active arena, the
    block starts at the bump pointer.  If not and the free list is empty,
    [OutOfFreeArenas] is thrown (or the null pointer returned) and the
    pool is left as it was.  Otherwise the arena on top of the free list
    is reserved and the block starts at its first byte. *)
Theorem allocate_synchronized (c : Config) (r : Run Sync.State)
    (bytes alignment : Z) :
  valid_geometry c → reachable c r →
  sane_request bytes alignment → 0 < bytes → binBytes bytes ≤ arenaSize c →
  let st := resource r in
  let n := binBytes bytes in
  if Sync.bytesReserved st + n <=? arenaSize c then
    Sync.do_allocate c st bytes alignment = Returned (Sync.data st) (syncPlace st n)
  else if Sync.freeListHead st =? 0 then
    Sync.do_allocate c st bytes alignment
    = if exceptionsEnabled c then Thrown (OutOfFreeArenas (numArenas c)) st
      else Returned nullptr st
  else
    ∃ a, read (Sync.freeList st) (Sync.freeListHead st - 1) = Some a ∧
         Sync.do_allocate c st bytes alignment
         = Returned (arenaData c + a * arenaSize c)
                    (syncPlace (syncReserve c st a) n).
Proof.
  intros Hgeo Hr Hsane Hb Hn. cbv zeta.
  destruct (reachable_consistent Synchronized c Hgeo r Hr) as [Hinv _].
  simpl in Hinv. set (st := resource r) in *.
  pose proof (si_free _ _ _ Hinv) as (Hh & _).
  pose proof (sane_bytes_bound _ _ Hsane) as Hb32.
  destruct (binBytes_arith bytes ltac:(lia)) as (Heq & Hrange & Hmod).
  unfold Sync.do_allocate, Sync.do_allocate_details.
  destruct (Z.eqb_spec bytes 0) as [|_]; [lia|].
  rewrite Heq.
  destruct (Z.ltb_spec (arenaSize c) (binBytes bytes)) as [|_]; [lia|].
  destruct (Z.leb_spec (Sync.bytesReserved st + binBytes bytes) (arenaSize c))
    as [Hfit|Hnofit].
  - destruct (sync_fit_spec c Hgeo st _ (binBytes bytes)
                (Z.to_nat (Sync.freeListHead st)) Hinv ltac:(lia) Hmod Hfit)
      as (-> & Hp & _).
    destruct (Z.eqb_spec (Sync.data st) nullptr); [done|].
    by rewrite andb_false_r.
  - destruct (Z.eqb_spec (Sync.freeListHead st) 0) as [Hz|Hnz].
    + rewrite (sync_fail_spec c Hgeo st _ (binBytes bytes) _ Hinv ltac:(lia) Hnofit Hz).
      simpl. by destruct (exceptionsEnabled c).
    + destruct (sync_retry_spec c Hgeo st _ (binBytes bytes) Hinv ltac:(lia)
                  Hnofit ltac:(lia))
        as (a & Ha & Hra & Hne & Hz & Hinv' & Hrec).
      exists a. split; [done|].
      replace (Z.to_nat (Sync.freeListHead st))
        with (S (Z.to_nat (Sync.freeListHead st - 1))) by lia.
      rewrite Hrec.
      destruct (sync_fit_spec c Hgeo (syncReserve c st a) _ (binBytes bytes)
                  (Z.to_nat (Sync.freeListHead st - 1)) Hinv' ltac:(lia) Hmod)
        as (-> & Hp & _); [simpl; lia|].
      simpl in Hp |- *.
      destruct (Z.eqb_spec (arenaData c + a * arenaSize c) nullptr); [done|].
      by rewrite andb_false_r.
Qed.

Lemma allocate_synchronized_witness :
  valid_geometry pool2x64 ∧ sane_request 16 64 ∧
  Sync.do_allocate pool2x64 (sstate 4096 0 0 1 [1; 0] [0; 0] [0; 0]) 16 64
  = Returned 4096 (syncPlace (sstate 4096 0 0 1 [1; 0] [0; 0] [0; 0]) (binBytes 16)).
Proof.
  split; [repeat split; try reflexivity; discriminate|].
  split; [sane_pow 6|].
  apply (allocate_synchronized pool2x64
           {| resource := sstate 4096 0 0 1 [1; 0] [0; 0] [0; 0]; live := [];
              numAllocated := 0; numDeallocated := 0 |} 16 64).
  - repeat split; try reflexivity; discriminate.
  - run_construct.
  - sane_pow 6.
  - reflexivity.
  - discriminate.
Defined.

(** ** What [deallocate] does with a held pointer *)

Lemma unsync_deallocate_spec c st lv p bytes alignment :
  valid_geometry c → unsync_inv c st lv → p ∈ lv →
  let x := Unsync.arenaIdOf c p in
  let n := liveIn c x lv in
  0 ≤ x < numArenas c ∧ 1 ≤ n ∧
  Unsync.allocationsInArena st x = Some n ∧
  Unsync.do_deallocate c st p bytes alignment
  = Returned ()
      (if n =? 1 then
         if x =? Unsync.activeArenaId st then
           ustate (arenaData c + arenaSize c * x + arenaSize c) (arenaSize c) x
                  (Unsync.freeListHead st) (Unsync.freeList st)
                  (<[Z.to_nat x := 0]> (Unsync.numAllocationsInArena st))
         else
           ustate (Unsync.data st) (Unsync.bytesLeft st) (Unsync.activeArenaId st)
                  (Unsync.freeListHead st + 1)
                  (<[Z.to_nat (Unsync.freeListHead st) := x]> (Unsync.freeList st))
                  (<[Z.to_nat x := 0]> (Unsync.numAllocationsInArena st))
       else
         ustate (Unsync.data st) (Unsync.bytesLeft st) (Unsync.activeArenaId st)
                (Unsync.freeListHead st) (Unsync.freeList st)
                (<[Z.to_nat x := n - 1]> (Unsync.numAllocationsInArena st))).
Proof.
  intros Hgeo Hinv Hp. cbv zeta.
  pose proof Hgeo as (HN & HS & _ & H32 & Hbase & H64).
  pose proof Hinv as [Hact Hfree Hleft Hdata Hcnt Hbound Hab Hlive].
  assert (HS32 : arenaSize c < 2 ^ 32) by nia.
  assert (HN32 : numArenas c < 2 ^ 32) by nia.
  assert (Hin : inStorage c p) by (by eapply Forall_forall in Hlive).
  pose proof (arenaIdOf_range c Hgeo p Hin) as Hx.
  pose proof (liveIn_pos c p lv Hp) as Hn1.
  unfold Unsync.do_deallocate, Unsync.allocationsInArena.
  remember (Unsync.arenaIdOf c p) as x eqn:Hxdef in *.
  pose proof (Hbound x Hx) as HnS.
  pose proof (Hcnt x Hx) as Hn.
  pose proof (read_lt _ _ _ Hn) as Hlen.
  pose proof Hfree as (Hh & Hfllen & _).
  split; [done|]. split; [done|]. split; [done|].
  destruct (Z.eqb_spec (arenaSize c) 0) as [|_]; [lia|].
  destruct (Z.leb_spec (numArenas c) x) as [|_]; [lia|].
  rewrite andb_false_r, Hn. simpl.
  rewrite (wrap32_small (liveIn c x lv - 1)) by lia.
  rewrite write_Some by lia. simpl.
  destruct (Z.eqb_spec (liveIn c x lv - 1) 0) as [Hz|Hnz];
    destruct (Z.eqb_spec (liveIn c x lv) 1) as [H1|H1]; try lia.
  - destruct (Z.eqb_spec x (Unsync.activeArenaId st)) as [Hxa|Hxa].
    + unfold Unsync.resetActiveArena. simpl. rewrite <- Hxa.
      rewrite write_Some by (rewrite length_insert; lia). simpl.
      rewrite list_insert_insert_eq, (arenaTop_eq c Hgeo) by lia. reflexivity.
    + assert (Hroom : Unsync.freeListHead st + 2 ≤ numArenas c).
      { eapply (freeList_room c _ _ _ _ x Hfree); try done.
        rewrite Hn. intros [= H0]. lia. }
      unfold Unsync.releaseArena. simpl.
      rewrite (write_Some (Unsync.freeList st)) by lia. simpl.
      rewrite write_Some by (rewrite length_insert; lia). simpl.
      rewrite list_insert_insert_eq.
      rewrite (wrap32_small (Unsync.freeListHead st + 1)) by lia.
      reflexivity.
  - reflexivity.
Qed.

Lemma sync_deallocate_spec c st lv p bytes alignment :
  valid_geometry c → sync_inv c st lv → p ∈ lv →
  let x := Unsync.arenaIdOf c p in
  ∃ na nd,
    0 ≤ x < numArenas c ∧ 0 ≤ nd < na ∧ na - nd = liveIn c x lv ∧
    read (Sync.numAllocationsInArena st) x = Some na ∧
    read (Sync.numDeallocationsInArena st) x = Some nd ∧
    Sync.do_deallocate c st p bytes alignment
    = Returned ()
        (if na =? nd + 1 then
           if x =? Sync.activeArenaId st then
             sstate (arenaData c + x * arenaSize c) 0 x
                    (Sync.freeListHead st) (Sync.freeList st)
                    (<[Z.to_nat x := 0]> (Sync.numAllocationsInArena st))
                    (<[Z.to_nat x := 0]> (Sync.numDeallocationsInArena st))
           else
             sstate (Sync.data st) (Sync.bytesReserved st) (Sync.activeArenaId st)
                    (Sync.freeListHead st + 1)
                    (<[Z.to_nat (Sync.freeListHead st) := x]> (Sync.freeList st))
                    (<[Z.to_nat x := 0]> (Sync.numAllocationsInArena st))
                    (<[Z.to_nat x := 0]> (Sync.numDeallocationsInArena st))
         else
           sstate (Sync.data st) (Sync.bytesReserved st) (Sync.activeArenaId st)
                  (Sync.freeListHead st) (Sync.freeList st)
                  (Sync.numAllocationsInArena st)
                  (<[Z.to_nat x := nd + 1]> (Sync.numDeallocationsInArena st))).
Proof.
  intros Hgeo Hinv Hp. cbv zeta.
  pose proof Hgeo as (HN & HS & _ & H32 & Hbase & H64).
  pose proof Hinv as [Hact Hfree Hres Hbins Hdata Hcnt Hab Hlive].
  assert (HS32 : arenaSize c < 2 ^ 32) by nia.
  assert (HN32 : numArenas c < 2 ^ 32) by nia.
  assert (Hin : inStorage c p) by (by eapply Forall_forall in Hlive).
  pose proof (arenaIdOf_range c Hgeo p Hin) as Hx.
  pose proof (liveIn_pos c p lv Hp) as Hn1.
  unfold Sync.do_deallocate, Sync.arenaIdOf. fold (Unsync.arenaIdOf c p).
  remember (Unsync.arenaIdOf c p) as x eqn:Hxdef in *.
  destruct (Hcnt x Hx) as (na & nd & Hna & Hnd & Hle & HnaS & Hdiff).
  pose proof (read_lt _ _ _ Hna) as Hlena.
  pose proof (read_lt _ _ _ Hnd) as Hlend.
  pose proof Hfree as (Hh & Hfllen & _).
  exists na, nd. split; [done|]. split; [lia|]. split; [done|].
  split; [done|]. split; [done|].
  destruct (Z.eqb_spec (arenaSize c) 0) as [|_]; [lia|].
  destruct (Z.leb_spec (numArenas c) x) as [|_]; [lia|].
  rewrite andb_false_r, Hnd. simpl.
  rewrite (wrap32_small (nd + 1)) by lia.
  rewrite write_Some by lia. simpl. rewrite Hna. simpl.
  destruct (Z.eqb_spec na (nd + 1)) as [Hvacant|Hbusy]; [|reflexivity].
  rewrite read_insert_eq by lia. simpl.
  rewrite Z.eqb_refl. simpl.
  destruct (Z.eqb_spec na (nd + 1)) as [_|]; [|lia].
  destruct (Z.eqb_spec x (Sync.activeArenaId st)) as [Hxa|Hxa].
  - unfold Sync.resetActiveArena. simpl. rewrite <- Hxa.
    rewrite write_Some by (rewrite ?length_insert; lia). simpl.
    rewrite write_Some by (rewrite ?length_insert; lia). simpl.
    rewrite list_insert_insert_eq, (arenaBase_eq c Hgeo) by lia. reflexivity.
  - assert (Hroom : Sync.freeListHead st + 2 ≤ numArenas c).
    { eapply (freeList_room c _ _ _ _ x Hfree); try done.
      rewrite Hna. intros [[= H0] _]. lia. }
    unfold Sync.releaseArena. simpl.
    rewrite (write_Some (Sync.freeList st)) by lia. simpl.
    rewrite write_Some by (rewrite ?length_insert; lia). simpl.
    rewrite write_Some by (rewrite ?length_insert; lia). simpl.
    rewrite list_insert_insert_eq.
    rewrite (wrap32_small (Sync.freeListHead st + 1)) by lia.
    reflexivity.
Qed.

(** In the unsynchronized engine, on a pool with valid geometry and in
    every state reached from construction by requests within [SizeType]
    and by deallocations of held pointers, the counter of an arena is the
    number of held pointers in it, and giving back a held pointer lowers
    the counter of its arena by one and changes nothing else, unless the
    counter reaches zero: then the active arena is reset to its full
    size, and any other arena is put in the next slot of the free list. *)
Theorem deallocate_held_unsync (c : Config) (r : Run Unsync.State)
    (p bytes alignment : Z) :
  valid_geometry c → reachable c r → p ∈ live r →
  let st := resource r in
  let x := Unsync.arenaIdOf c p in
  let n := liveIn c x (live r) in
  0 ≤ x < numArenas c ∧ 1 ≤ n ∧
  Unsync.allocationsInArena st x = Some n ∧
  Unsync.do_deallocate c st p bytes alignment
  = Returned ()
      (if n =? 1 then
         if x =? Unsync.activeArenaId st then
           ustate (arenaData c + arenaSize c * x + arenaSize c) (arenaSize c) x
                  (Unsync.freeListHead st) (Unsync.freeList st)
                  (<[Z.to_nat x := 0]> (Unsync.numAllocationsInArena st))
         else
           ustate (Unsync.data st) (Unsync.bytesLeft st) (Unsync.activeArenaId st)
                  (Unsync.freeListHead st + 1)
                  (<[Z.to_nat (Unsync.freeListHead st) := x]> (Unsync.freeList st))
                  (<[Z.to_nat x := 0]> (Unsync.numAllocationsInArena st))
       else
         ustate (Unsync.data st) (Unsync.bytesLeft st) (Unsync.activeArenaId st)
                (Unsync.freeListHead st) (Unsync.freeList st)
                (<[Z.to_nat x := n - 1]> (Unsync.numAllocationsInArena st))).
Proof.
  intros Hgeo Hr Hp.
  destruct (reachable_consistent Unsynchronized c Hgeo r Hr) as [Hinv _].
  by apply unsync_deallocate_spec.
Qed.

Lemma deallocate_held_unsync_witness :
  valid_geometry pool3x48 ∧
  Unsync.do_deallocate pool3x48 (ustate 4096 0 0 2 [2; 1; 0] [1; 0; 0]) 4096 48 32
  = Returned () (ustate 4144 48 0 2 [2; 1; 0] [0; 0; 0]).
Proof.
  split; [repeat split; try reflexivity; discriminate|].
  destruct (deallocate_held_unsync pool3x48
              {| resource := ustate 4096 0 0 2 [2; 1; 0] [1; 0; 0]; live := [4096];
                 numAllocated := 0 + 1; numDeallocated := 0 |} 4096 48 32)
    as (_ & _ & _ & H).
  - repeat split; try reflexivity; discriminate.
  - apply (reach_allocate pool3x48
             {| resource := ustate 4144 48 0 2 [2; 1; 0] [0; 0; 0]; live := [];
                numAllocated := 0; numDeallocated := 0 |} 48 32 4096).
    + run_construct.
    + sane_pow 5.
    + vm_compute; reflexivity.
    + discriminate.
  - repeat constructor.
  - exact H.
Defined.

(** In the synchronized engine, on a pool with valid geometry and in
    every state reached from construction by requests within [SizeType]
    and by deallocations of held pointers, the two counters of an arena
    differ by the number of held pointers in it, and giving back a held
    pointer raises the deallocation counter of its arena by one and
    changes nothing else, unless the counter reaches the allocation
    counter: then both counters
    are cleared, and the active arena is reset to its first byte, any
    other arena is put in the next slot of the free list. *)
Theorem deallocate_held_synchronized (c : Config) (r : Run Sync.State)
    (p bytes alignment : Z) :
  valid_geometry c → reachable c r → p ∈ live r →
  let st := resource r in
  let x := Unsync.arenaIdOf c p in
  ∃ na nd,
    0 ≤ x < numArenas c ∧ 0 ≤ nd < na ∧ na - nd = liveIn c x (live r) ∧
    read (Sync.numAllocationsInArena st) x = Some na ∧
    read (Sync.numDeallocationsInArena st) x = Some nd ∧
    Sync.do_deallocate c st p bytes alignment
    = Returned ()
        (if na =? nd + 1 then
           if x =? Sync.activeArenaId st then
             sstate (arenaData c + x * arenaSize c) 0 x
                    (Sync.freeListHead st) (Sync.freeList st)
                    (<[Z.to_nat x := 0]> (Sync.numAllocationsInArena st))
                    (<[Z.to_nat x := 0]> (Sync.numDeallocationsInArena st))
           else
             sstate (Sync.data st) (Sync.bytesReserved st) (Sync.activeArenaId st)
                    (Sync.freeListHead st + 1)
                    (<[Z.to_nat (Sync.freeListHead st) := x]> (Sync.freeList st))
                    (<[Z.to_nat x := 0]> (Sync.numAllocationsInArena st))
                    (<[Z.to_nat x := 0]> (Sync.numDeallocationsInArena st))
         else
           sstate (Sync.data st) (Sync.bytesReserved st) (Sync.activeArenaId st)
                  (Sync.freeListHead st) (Sync.freeList st)
                  (Sync.numAllocationsInArena st)
                  (<[Z.to_nat x := nd + 1]> (Sync.numDeallocationsInArena st))).
Proof.
  intros Hgeo Hr Hp.
  destruct (reachable_consistent Synchronized c Hgeo r Hr) as [Hinv _].
  by apply sync_deallocate_spec.
Qed.

Lemma deallocate_held_synchronized_witness :
  valid_geometry pool2x64 ∧
  Sync.do_deallocate pool2x64 (sstate 4112 16 0 1 [1; 0] [1; 0] [0; 0]) 4096 16 64
  = Returned () (sstate 4096 0 0 1 [1; 0] [0; 0] [0; 0]).
Proof.
  split; [repeat split; try reflexivity; discriminate|].
  destruct (deallocate_held_synchronized pool2x64
              {| resource := sstate 4112 16 0 1 [1; 0] [1; 0] [0; 0]; live := [4096];
                 numAllocated := 0 + 1; numDeallocated := 0 |} 4096 16 64)
    as (na & nd & _ & _ & _ & Hna & Hnd & H).
  - repeat split; try reflexivity; discriminate.
  - apply (reach_allocate pool2x64
             {| resource := sstate 4096 0 0 1 [1; 0] [0; 0] [0; 0]; live := [];
                numAllocated := 0; numDeallocated := 0 |} 16 64 4096).
    + run_construct.
    + sane_pow 6.
    + vm_compute; reflexivity.
    + discriminate.
  - repeat constructor.
  - vm_compute in Hna, Hnd. injection Hna as <-. injection Hnd as <-. exact H.
Defined.

(** ** Histories with the held blocks *)

Lemma removeBlock_fst p blocks : (removeBlock p blocks).*1 = giveBack p (blocks.*1).
Proof.
  induction blocks as [|[q b] rest IH]; [done|].
  cbn [removeBlock]. rewrite fmap_cons. cbn [fst giveBack].
  destruct (p =? q); [done|]. by rewrite fmap_cons, IH.
Qed.

Lemma removeBlock_Forall (P : Z * Z → Prop) p blocks :
  Forall P blocks → Forall P (removeBlock p blocks).
Proof.
  induction 1 as [|[q b] rest Hq Hall IH]; simpl; [done|].
  destruct (p =? q); [done | by constructor].
Qed.

Lemma removeBlock_disjoint p blocks :
  pairwiseDisjoint blocks → pairwiseDisjoint (removeBlock p blocks).
Proof.
  induction blocks as [|[q b] rest IH]; simpl; [done|].
  intros [Hq Hrest]. destruct (p =? q); [done|]. simpl.
  split; [by apply removeBlock_Forall | by apply IH].
Qed.

Lemma history_reachable {St} `{ArenaResource St} ok c (st : St) blocks :
  history ok c st blocks →
  ∃ na nd, reachable c {| resource := st; live := blocks.*1;
                          numAllocated := na; numDeallocated := nd |}.
Proof.
  induction 1 as [st Hst | st blocks bytes alignment p st' _ (na & nd & IH) Hsane _ Hcall Hp
                 | st blocks bytes alignment st' _ (na & nd & IH) Hsane _ Hcall
                 | st blocks bytes alignment x st' _ (na & nd & IH) Hsane _ Hcall
                 | st blocks p bytes alignment st' _ (na & nd & IH) Hp Hcall].
  - exists 0, 0. by apply reach_construct.
  - exists (na + 1), nd. simpl.
    by apply (reach_allocate c _ bytes alignment p st' IH).
  - exists na, nd. by apply (reach_allocate_null c _ bytes alignment st' IH).
  - exists na, nd. by apply (reach_allocate_thrown c _ bytes alignment x st' IH).
  - exists na, (nd + 1). rewrite removeBlock_fst.
    by apply (reach_deallocate c _ p bytes alignment st' IH).
Qed.

Lemma history_inv (e : Engine) ok c (st : EngineState e) blocks :
  valid_geometry c → history ok c st blocks → engine_inv e c st (blocks.*1).
Proof.
  intros Hgeo Hh. destruct (history_reachable ok c st blocks Hh) as (na & nd & Hr).
  by destruct (reachable_consistent e c Hgeo _ Hr) as [Hinv _].
Qed.

(** ** The arenas a request goes through *)

Section UnsyncGeneral.
Context (c : Config) (Hgeo : valid_geometry c) (lv : list Z) (bytes alignment : Z).
Context (Hb : 0 < bytes) (Hsane : sane_request bytes alignment).
Context (P : Unsync.State → Prop).
Context (HP : ∀ st a, unsync_inv c st lv → P st →
  Unsync.bytesLeft st < unsyncNeeded (Unsync.data st) bytes alignment →
  bytes ≤ arenaSize c →
  read (Unsync.freeList st) (Unsync.freeListHead st - 1) = Some a →
  0 ≤ a < numArenas c → a ≠ Unsync.activeArenaId st → liveIn c a lv = 0 →
  P (unsyncReserve c st a)).

(** [do_allocate_details] reserves arenas, each of which keeps [P], until
    the block fits the active one or the request fails. *)
Lemma unsync_details_general fuel :
  ∀ st, unsync_inv c st lv → P st → (Z.to_nat (Unsync.freeListHead st) ≤ fuel)%nat →
  ∃ st0, unsync_inv c st0 lv ∧ P st0 ∧
    ((Unsync.do_allocate_details_rec fuel c st bytes alignment = Some (nullptr, st0) ∧
      Unsync.bytesLeft st0 < unsyncNeeded (Unsync.data st0) bytes alignment ∧
      ((arenaSize c < bytes ∧ st0 = st) ∨
       (bytes ≤ arenaSize c ∧ Unsync.freeListHead st0 = 0))) ∨
     (unsyncNeeded (Unsync.data st0) bytes alignment ≤ Unsync.bytesLeft st0 ∧
      Unsync.do_allocate_details_rec fuel c st bytes alignment
        = Some (Unsync.data st0 - unsyncNeeded (Unsync.data st0) bytes alignment,
                unsyncPlace st0 bytes alignment) ∧
      Unsync.data st0 - unsyncNeeded (Unsync.data st0) bytes alignment ≠ nullptr ∧
      unsync_inv c (unsyncPlace st0 bytes alignment)
        ((Unsync.data st0 - unsyncNeeded (Unsync.data st0) bytes alignment) :: lv))).
Proof.
  induction fuel as [|fuel IH]; intros st Hinv HPst Hfuel;
    pose proof (ui_free _ _ _ Hinv) as (Hh & _);
    destruct (Z.le_gt_cases (unsyncNeeded (Unsync.data st) bytes alignment)
                (Unsync.bytesLeft st)) as [Hfit|Hnofit].
  - exists st. split; [done|]. split; [done|]. right.
    destruct (unsync_fit_spec c Hgeo st lv bytes alignment 0 Hinv Hb Hsane Hfit)
      as (Hd & Hp & Hinv'). done.
  - exists st. split; [done|]. split; [done|]. left.
    destruct (Z.le_gt_cases bytes (arenaSize c)) as [Hle|Hgt].
    + split; [|split; [lia | right; lia]].
      apply (unsync_fail_spec c st lv); try done. right. lia.
    + split; [|split; [lia | left; split; [lia | done]]].
      apply (unsync_fail_spec c st lv); try done. left. lia.
  - exists st. split; [done|]. split; [done|]. right.
    destruct (unsync_fit_spec c Hgeo st lv bytes alignment (S fuel) Hinv Hb Hsane Hfit)
      as (Hd & Hp & Hinv'). done.
  - destruct (Z.le_gt_cases bytes (arenaSize c)) as [Hle|Hgt].
    + destruct (Z.eq_dec (Unsync.freeListHead st) 0) as [Hz|Hnz].
      * exists st. split; [done|]. split; [done|]. left.
        split; [|split; [lia | right; lia]].
        apply (unsync_fail_spec c st lv); try done. by right.
      * destruct (unsync_retry_spec c Hgeo st lv bytes alignment Hinv Hb Hsane
                    ltac:(lia) Hle ltac:(lia))
          as (a & Ha & Hra & Hne & Hz & Hinv' & Hrec).
        destruct (IH (unsyncReserve c st a) Hinv') as (st0 & Hinv0 & HP0 & Hcases).
        { apply (HP st a); done || lia. }
        { simpl. lia. }
        exists st0. split; [done|]. split; [done|]. rewrite Hrec.
        destruct Hcases as [(Hd & Hnf & [[Hbig _]|Hsmall])|Hok].
        -- lia.
        -- left. split; [done|]. split; [done|]. by right.
        -- by right.
    + exists st. split; [done|]. split; [done|]. left.
      split; [|split; [lia | left; split; [lia | done]]].
      apply (unsync_fail_spec c st lv); try done. left. lia.
Qed.

Lemma unsync_allocate_general st :
  unsync_inv c st lv → P st →
  ∃ st0, unsync_inv c st0 lv ∧ P st0 ∧
    ((Unsync.do_allocate c st bytes alignment
        = (if exceptionsEnabled c
           then Thrown (if arenaSize c <? bytes
                        then AllocateTooLargeBlock bytes (arenaSize c)
                        else OutOfFreeArenas (numArenas c)) st0
           else Returned nullptr st0) ∧
      Unsync.bytesLeft st0 < unsyncNeeded (Unsync.data st0) bytes alignment ∧
      ((arenaSize c < bytes ∧ st0 = st) ∨
       (bytes ≤ arenaSize c ∧ Unsync.freeListHead st0 = 0))) ∨
     (unsyncNeeded (Unsync.data st0) bytes alignment ≤ Unsync.bytesLeft st0 ∧
      Unsync.do_allocate c st bytes alignment
        = Returned (Unsync.data st0 - unsyncNeeded (Unsync.data st0) bytes alignment)
                   (unsyncPlace st0 bytes alignment) ∧
      Unsync.data st0 - unsyncNeeded (Unsync.data st0) bytes alignment ≠ nullptr ∧
      unsync_inv c (unsyncPlace st0 bytes alignment)
        ((Unsync.data st0 - unsyncNeeded (Unsync.data st0) bytes alignment) :: lv))).
Proof.
  intros Hinv HPst.
  destruct (unsync_details_general (Z.to_nat (Unsync.freeListHead st)) st Hinv HPst
              ltac:(lia)) as (st0 & Hinv0 & HP0 & Hcases).
  exists st0. split; [done|]. split; [done|].
  unfold Unsync.do_allocate, Unsync.do_allocate_details.
  destruct (Z.eqb_spec bytes 0) as [|_]; [lia|].
  destruct Hcases as [(-> & Hnf & Hwhy)|(Hfit & -> & Hp & Hinv')].
  - left. split; [|done]. simpl.
    destruct (exceptionsEnabled c); simpl; [|done].
    by destruct (arenaSize c <? bytes).
  - right. split; [done|]. split; [|done].
    destruct (Z.eqb_spec (Unsync.data st0 - unsyncNeeded (Unsync.data st0) bytes alignment)
                nullptr); [done|].
    by rewrite andb_false_r.
Qed.
End UnsyncGeneral.

(** ** No arena is lost *)

Section UnsyncTight.
Context (c : Config) (Hgeo : valid_geometry c).

Lemma unsync_construct_tight st :
  Unsync.initializeArenas c = Some st → unsync_tight c st [].
Proof.
  pose proof Hgeo as (HN & HS & _).
  rewrite (unsync_initial_state c Hgeo). intros [= <-]. split; simpl.
  - done.
  - intros a Ha Hne _. exists (numArenas c - 1 - a). split; [lia|].
    rewrite (initialFreeList_lookup c Hgeo) by lia. f_equal. lia.
Qed.

(** A placed block lies in the active arena. *)
Lemma unsync_placed_arena st lv bytes alignment p :
  unsync_inv c st lv → unsync_inv c (unsyncPlace st bytes alignment) (p :: lv) →
  Unsync.arenaIdOf c p = Unsync.activeArenaId st.
Proof.
  intros Hinv Hinv'.
  pose proof (ui_active _ _ _ Hinv) as Hact.
  pose proof (ui_counts _ _ _ Hinv _ Hact) as Hn.
  pose proof (ui_counts _ _ _ Hinv' _ Hact) as Hn'.
  pose proof (read_lt _ _ _ Hn) as Hlen.
  simpl in Hn'. rewrite Hn in Hn'. simpl in Hn'.
  rewrite read_insert_eq in Hn' by lia.
  injection Hn' as Hn'. rewrite liveIn_cons in Hn'.
  destruct (Z.eqb_spec (Unsync.arenaIdOf c p) (Unsync.activeArenaId st)); [done|lia].
Qed.

Lemma unsync_place_tight st lv bytes alignment p :
  unsync_inv c st lv → unsync_tight c st lv →
  unsync_inv c (unsyncPlace st bytes alignment) (p :: lv) →
  unsync_tight c (unsyncPlace st bytes alignment) (p :: lv).
Proof.
  intros Hinv [Hemp Hlist] Hinv'.
  pose proof (unsync_placed_arena st lv bytes alignment p Hinv Hinv') as Hp.
  split; simpl.
  - rewrite liveIn_cons, Hp, Z.eqb_refl.
    pose proof (liveIn_nonneg c (Unsync.activeArenaId st) lv). lia.
  - intros a Ha Hne Hz. rewrite liveIn_cons, Hp in Hz.
    destruct (Z.eqb_spec (Unsync.activeArenaId st) a); [congruence|].
    apply Hlist; done || lia.
Qed.

Lemma unsync_reserve_tight st lv a bytes alignment :
  unsync_inv c st lv → unsync_tight c st lv →
  alignedFor c alignment → sane_request bytes alignment → 0 < bytes ≤ arenaSize c →
  Unsync.bytesLeft st < unsyncNeeded (Unsync.data st) bytes alignment →
  read (Unsync.freeList st) (Unsync.freeListHead st - 1) = Some a →
  unsync_tight c (unsyncReserve c st a) lv.
Proof.
  intros Hinv [Hemp Hlist] Hal Hsane Hb Hnofit Ha.
  split; simpl; [done|].
  intros b Hb' Hne Hz.
  destruct (Z.eq_dec b (Unsync.activeArenaId st)) as [->|Hnb].
  - exfalso. pose proof (Hemp Hz) as HL.
    pose proof (ui_data _ _ _ Hinv) as Hd. rewrite HL in Hd. rewrite Hd in Hnofit.
    pose proof (aligned_fresh_fits c (Unsync.activeArenaId st) bytes alignment
                  Hal Hsane Hb). lia.
  - destruct (Hlist b Hb' Hnb Hz) as (i & Hi & Hr). exists i. split; [|done].
    assert (i ≠ Unsync.freeListHead st - 1) by (intros ->; congruence). lia.
Qed.

Lemma unsync_deallocate_tight st lv p bytes alignment st' :
  unsync_inv c st lv → unsync_tight c st lv → p ∈ lv →
  Unsync.do_deallocate c st p bytes alignment = Returned () st' →
  unsync_tight c st' (giveBack p lv).
Proof.
  intros Hinv [Hemp Hlist] Hp Hcall.
  pose proof (unsync_deallocate_spec c st lv p bytes alignment Hgeo Hinv Hp) as H.
  cbv zeta in H. destruct H as (Hx & Hn1 & _ & Hd).
  rewrite Hd in Hcall. injection Hcall as <-.
  pose proof (ui_free _ _ _ Hinv) as (Hh & Hlen & _).
  destruct (Z.eqb_spec (liveIn c (Unsync.arenaIdOf c p) lv) 1) as [H1|H1];
    [destruct (Z.eqb_spec (Unsync.arenaIdOf c p) (Unsync.activeArenaId st)) as [Hxa|Hxa]|];
    split; simpl.
  - done.
  - intros a Ha Hne Hz. rewrite liveIn_giveBack in Hz by done.
    destruct (Z.eqb_spec (Unsync.arenaIdOf c p) a); [done|].
    apply Hlist; [done | congruence | lia].
  - intros Hz. rewrite liveIn_giveBack in Hz by done.
    destruct (Z.eqb_spec (Unsync.arenaIdOf c p) (Unsync.activeArenaId st)); [done|].
    apply Hemp. lia.
  - intros a Ha Hne Hz. rewrite liveIn_giveBack in Hz by done.
    destruct (Z.eqb_spec (Unsync.arenaIdOf c p) a) as [Hxa'|Hxa'].
    + exists (Unsync.freeListHead st). split; [lia|].
      rewrite read_insert_eq by lia. by f_equal.
    + destruct (Hlist a Ha Hne ltac:(lia)) as (i & Hi & Hr).
      exists i. split; [lia|]. rewrite read_insert_ne by lia. done.
  - intros Hz. rewrite liveIn_giveBack in Hz by done.
    destruct (Z.eqb_spec (Unsync.arenaIdOf c p) (Unsync.activeArenaId st)) as [Hxa|Hxa].
    + rewrite <- Hxa in Hz. lia.
    + apply Hemp. lia.
  - intros a Ha Hne Hz. rewrite liveIn_giveBack in Hz by done.
    destruct (Z.eqb_spec (Unsync.arenaIdOf c p) a) as [Hxa|Hxa].
    + rewrite <- Hxa in Hz. lia.
    + apply Hlist; done || lia.
Qed.

(** For a request whose alignment divides the arena size and the address
    of the storage, a failed [allocate] leaves the pool as it was, and a
    successful one loses no arena. *)
Lemma unsync_allocate_tight st lv bytes alignment :
  unsync_inv c st lv → sane_request bytes alignment → alignedFor c alignment →
  match Unsync.do_allocate c st bytes alignment with
  | Returned p st' =>
      if p =? nullptr then st' = st
      else unsync_inv c st' (p :: lv) ∧
           (unsync_tight c st lv → unsync_tight c st' (p :: lv))
  | Thrown _ st' => st' = st
  | Undefined => False
  end.
Proof.
  intros Hinv Hsane Hal.
  destruct (Z.eq_dec bytes 0) as [->|Hnz]; [done|].
  assert (Hb : 0 < bytes) by (destruct Hsane; lia).
  destruct (unsync_allocate_general c Hgeo lv bytes alignment Hb Hsane
              (λ st', (unsync_tight c st lv → unsync_tight c st' lv) ∧
                      (st' = st ∨ Unsync.bytesLeft st' = arenaSize c)))
    with (st := st) as (st0 & Hinv0 & [Ht0 Hor] & Hcases).
  - intros st1 a Hinv1 [Ht1 Hor1] Hnofit Hle Ha Hra Hne Hz. split; [|by right].
    intros Ht. destruct Hor1 as [->|HL].
    + by apply (unsync_reserve_tight st lv a bytes alignment).
    + exfalso. pose proof (ui_data _ _ _ Hinv1) as Hd. rewrite HL in Hd.
      rewrite Hd in Hnofit.
      pose proof (aligned_fresh_fits c (Unsync.activeArenaId st1) bytes alignment
                    Hal Hsane ltac:(lia)). lia.
  - done.
  - split; [done | by left].
  - assert (Hsame : Unsync.bytesLeft st0 < unsyncNeeded (Unsync.data st0) bytes alignment →
                    arenaSize c < bytes ∧ st0 = st ∨
                    bytes ≤ arenaSize c ∧ Unsync.freeListHead st0 = 0 → st0 = st).
    { intros Hnofit [[_ ->]|[Hle _]]; [done|].
      destruct Hor as [->|HL]; [done|]. exfalso.
      pose proof (ui_data _ _ _ Hinv0) as Hd. rewrite HL in Hd. rewrite Hd in Hnofit.
      pose proof (aligned_fresh_fits c (Unsync.activeArenaId st0) bytes alignment
                    Hal Hsane ltac:(lia)). lia. }
    destruct Hcases as [(-> & Hnofit & Hwhy)|(Hfit & -> & Hp & Hinv')].
    + destruct (exceptionsEnabled c); simpl; by apply Hsame.
    + destruct (Z.eqb_spec (Unsync.data st0 - unsyncNeeded (Unsync.data st0) bytes alignment)
                  nullptr); [done|].
      split; [done|]. intros Ht. apply unsync_place_tight; auto.
Qed.
End UnsyncTight.

Section SyncTight.
Context (c : Config) (Hgeo : valid_geometry c).

Lemma sync_construct_tight st :
  Sync.initializeArenas c = Some st → sync_tight c st [].
Proof.
  pose proof Hgeo as (HN & HS & _).
  rewrite (sync_initial_state c Hgeo). intros [= <-]. split; simpl.
  - done.
  - intros a Ha Hne _. exists (numArenas c - 1 - a). split; [lia|].
    rewrite (initialFreeList_lookup c Hgeo) by lia. f_equal. lia.
Qed.

Lemma sync_placed_arena st lv n p :
  sync_inv c st lv → sync_inv c (syncPlace st n) (p :: lv) →
  Unsync.arenaIdOf c p = Sync.activeArenaId st.
Proof.
  intros Hinv Hinv'.
  pose proof (si_active _ _ _ Hinv) as Hact.
  destruct (si_counts _ _ _ Hinv _ Hact) as (na & nd & Hna & Hnd & _ & _ & Hdiff).
  destruct (si_counts _ _ _ Hinv' _ Hact) as (na' & nd' & Hna' & Hnd' & _ & _ & Hdiff').
  pose proof (read_lt _ _ _ Hna) as Hlen.
  simpl in Hna', Hnd'. rewrite Hna in Hna'. simpl in Hna'.
  rewrite read_insert_eq in Hna' by lia.
  injection Hna' as <-. rewrite Hnd in Hnd'. injection Hnd' as <-.
  rewrite liveIn_cons in Hdiff'.
  destruct (Z.eqb_spec (Unsync.arenaIdOf c p) (Sync.activeArenaId st)); [done|lia].
Qed.

Lemma sync_place_tight st lv n p :
  sync_inv c st lv → sync_tight c st lv →
  sync_inv c (syncPlace st n) (p :: lv) →
  sync_tight c (syncPlace st n) (p :: lv).
Proof.
  intros Hinv [Hemp Hlist] Hinv'.
  pose proof (sync_placed_arena st lv n p Hinv Hinv') as Hp.
  split; simpl.
  - rewrite liveIn_cons, Hp, Z.eqb_refl.
    pose proof (liveIn_nonneg c (Sync.activeArenaId st) lv). lia.
  - intros a Ha Hne Hz. rewrite liveIn_cons, Hp in Hz.
    destruct (Z.eqb_spec (Sync.activeArenaId st) a); [congruence|].
    apply Hlist; done || lia.
Qed.

Lemma sync_reserve_tight st lv a n :
  sync_tight c st lv → 0 < n ≤ arenaSize c →
  arenaSize c < Sync.bytesReserved st + n →
  read (Sync.freeList st) (Sync.freeListHead st - 1) = Some a →
  sync_tight c (syncReserve c st a) lv.
Proof.
  intros [Hemp Hlist] Hn Hnofit Ha.
  split; simpl; [done|].
  intros b Hb' Hne Hz.
  destruct (Z.eq_dec b (Sync.activeArenaId st)) as [->|Hnb].
  - pose proof (Hemp Hz) as HL. lia.
  - destruct (Hlist b Hb' Hnb Hz) as (i & Hi & Hr). exists i. split; [|done].
    assert (i ≠ Sync.freeListHead st - 1) by (intros ->; congruence). lia.
Qed.

Lemma sync_deallocate_tight st lv p bytes alignment st' :
  sync_inv c st lv → sync_tight c st lv → p ∈ lv →
  Sync.do_deallocate c st p bytes alignment = Returned () st' →
  sync_tight c st' (giveBack p lv).
Proof.
  intros Hinv [Hemp Hlist] Hp Hcall.
  pose proof (sync_deallocate_spec c st lv p bytes alignment Hgeo Hinv Hp) as H.
  cbv zeta in H. destruct H as (na & nd & Hx & Hle & Hdiff & _ & _ & Hd).
  rewrite Hd in Hcall. injection Hcall as <-.
  pose proof (si_free _ _ _ Hinv) as (Hh & Hlen & _).
  destruct (Z.eqb_spec na (nd + 1)) as [H1|H1];
    [destruct (Z.eqb_spec (Unsync.arenaIdOf c p) (Sync.activeArenaId st)) as [Hxa|Hxa]|];
    split; simpl.
  - done.
  - intros a Ha Hne Hz. rewrite liveIn_giveBack in Hz by done.
    destruct (Z.eqb_spec (Unsync.arenaIdOf c p) a); [done|].
    apply Hlist; [done | congruence | lia].
  - intros Hz. rewrite liveIn_giveBack in Hz by done.
    destruct (Z.eqb_spec (Unsync.arenaIdOf c p) (Sync.activeArenaId st)); [done|].
    apply Hemp. lia.
  - intros a Ha Hne Hz. rewrite liveIn_giveBack in Hz by done.
    destruct (Z.eqb_spec (Unsync.arenaIdOf c p) a) as [Hxa'|Hxa'].
    + exists (Sync.freeListHead st). split; [lia|].
      rewrite read_insert_eq by lia. by f_equal.
    + destruct (Hlist a Ha Hne ltac:(lia)) as (i & Hi & Hr).
      exists i. split; [lia|]. rewrite read_insert_ne by lia. done.
  - intros Hz. rewrite liveIn_giveBack in Hz by done.
    destruct (Z.eqb_spec (Unsync.arenaIdOf c p) (Sync.activeArenaId st)) as [Hxa|Hxa].
    + rewrite <- Hxa in Hz. lia.
    + apply Hemp. lia.
  - intros a Ha Hne Hz. rewrite liveIn_giveBack in Hz by done.
    destruct (Z.eqb_spec (Unsync.arenaIdOf c p) a) as [Hxa|Hxa].
    + rewrite <- Hxa in Hz. lia.
    + apply Hlist; done || lia.
Qed.

(** What a call of the synchronized [allocate] comes to: the pool as it
    was on failure; on success the block at the bump pointer of the arena
    that was active or of the one reserved for it. *)
Lemma sync_allocate_cases st lv bytes alignment :
  sync_inv c st lv → sane_request bytes alignment →
  (Sync.do_allocate c st bytes alignment = Returned nullptr st ∧
   (bytes = 0 ∨ arenaSize c < binBytes bytes)) ∨
  (0 < bytes ∧ binBytes bytes ≤ arenaSize c ∧
   arenaSize c < Sync.bytesReserved st + binBytes bytes ∧
   Sync.freeListHead st = 0 ∧
   Sync.do_allocate c st bytes alignment
   = if exceptionsEnabled c then Thrown (OutOfFreeArenas (numArenas c)) st
     else Returned nullptr st) ∨
  ∃ st0,
    (st0 = st ∨
     ∃ a, st0 = syncReserve c st a ∧ 0 ≤ a < numArenas c ∧
          a ≠ Sync.activeArenaId st ∧ liveIn c a lv = 0 ∧
          read (Sync.freeList st) (Sync.freeListHead st - 1) = Some a ∧
          arenaSize c < Sync.bytesReserved st + binBytes bytes) ∧
    0 < bytes ≤ binBytes bytes ∧ binBytes bytes ≤ arenaSize c ∧
    sync_inv c st0 lv ∧
    Sync.bytesReserved st0 + binBytes bytes ≤ arenaSize c ∧
    Sync.data st0 ≠ nullptr ∧
    Sync.do_allocate c st bytes alignment
      = Returned (Sync.data st0) (syncPlace st0 (binBytes bytes)) ∧
    sync_inv c (syncPlace st0 (binBytes bytes)) (Sync.data st0 :: lv).
Proof.
  intros Hinv Hsane.
  destruct (Z.eq_dec bytes 0) as [->|Hnz]; [left; split; [done | by left]|].
  assert (Hb : 0 < bytes) by (destruct Hsane; lia).
  pose proof (si_free _ _ _ Hinv) as (Hh & _).
  pose proof (sane_bytes_bound _ _ Hsane) as Hb32.
  destruct (binBytes_arith bytes ltac:(lia)) as (Heq & Hrange & Hmod).
  unfold Sync.do_allocate, Sync.do_allocate_details.
  destruct (Z.eqb_spec bytes 0) as [|_]; [lia|].
  rewrite Heq.
  destruct (Z.ltb_spec (arenaSize c) (binBytes bytes)) as [|Hn];
    [left; split; [done | by right]|].
  right.
  destruct (Z.le_gt_cases (Sync.bytesReserved st + binBytes bytes) (arenaSize c))
    as [Hfit|Hnofit].
  - right. exists st.
    destruct (sync_fit_spec c Hgeo st _ (binBytes bytes)
                (Z.to_nat (Sync.freeListHead st)) Hinv ltac:(lia) Hmod Hfit)
      as (-> & Hp & Hinv').
    split; [by left|]. split; [lia|]. split; [done|]. split; [done|].
    split; [done|]. split; [done|]. split; [|done].
    destruct (Z.eqb_spec (Sync.data st) nullptr); [done|].
    by rewrite andb_false_r.
  - destruct (Z.eq_dec (Sync.freeListHead st) 0) as [Hz|Hnz'].
    + left.
      rewrite (sync_fail_spec c Hgeo st _ (binBytes bytes) _ Hinv ltac:(lia)
                 ltac:(lia) Hz).
      simpl. repeat (split; [done || lia|]).
      by destruct (exceptionsEnabled c).
    + destruct (sync_retry_spec c Hgeo st _ (binBytes bytes) Hinv ltac:(lia)
                  ltac:(lia) ltac:(lia))
        as (a & Ha & Hra & Hne & Hz & Hinv' & Hrec).
      right. exists (syncReserve c st a).
      replace (Z.to_nat (Sync.freeListHead st))
        with (S (Z.to_nat (Sync.freeListHead st - 1))) by lia.
      rewrite Hrec.
      destruct (sync_fit_spec c Hgeo (syncReserve c st a) _ (binBytes bytes)
                  (Z.to_nat (Sync.freeListHead st - 1)) Hinv' ltac:(lia) Hmod)
        as (Hd & Hp & Hinv''); [simpl; lia|].
      rewrite Hd.
      split; [right; exists a; repeat (split; [done || lia|]); lia|].
      split; [lia|]. split; [done|]. split; [done|].
      split; [simpl; lia|]. split; [done|]. split; [|done].
      destruct (Z.eqb_spec (Sync.data (syncReserve c st a)) nullptr); [done|].
      by rewrite andb_false_r.
Qed.

Lemma sync_allocate_tight st lv bytes alignment :
  sync_inv c st lv → sane_request bytes alignment →
  match Sync.do_allocate c st bytes alignment with
  | Returned p st' =>
      if p =? nullptr then st' = st
      else sync_inv c st' (p :: lv) ∧
           (sync_tight c st lv → sync_tight c st' (p :: lv))
  | Thrown _ st' => st' = st
  | Undefined => False
  end.
Proof.
  intros Hinv Hsane.
  destruct (sync_allocate_cases st lv bytes alignment Hinv Hsane)
    as [[-> _]|[(_ & _ & _ & _ & ->)
               |(st0 & Hst0 & Hb & Hn & Hinv0 & Hfit & Hp & -> & Hinv')]];
    [done | by destruct (exceptionsEnabled c) |].
  destruct (Z.eqb_spec (Sync.data st0) nullptr); [done|].
  split; [done|]. intros Ht. apply sync_place_tight; [done| |done].
  destruct Hst0 as [->|(a & -> & Hra & Hne & Hz & Ha & Hnofit)]; [done|].
  apply (sync_reserve_tight st lv a (binBytes bytes)); done || lia.
Qed.
End SyncTight.

Lemma freeList_full (c : Config) fl head active :
  0 ≤ head < numArenas c → length fl = Z.to_nat (numArenas c) →
  (∀ a, 0 ≤ a < numArenas c → a ≠ active →
        ∃ i, 0 ≤ i < head ∧ read fl i = Some a) →
  head = numArenas c - 1.
Proof.
  intros Hh Hlen Hall.
  assert (Hsub : seqZ 0 (numArenas c) ⊆+ active :: take (Z.to_nat head) fl).
  { apply NoDup_submseteq; [apply NoDup_seqZ|].
    intros y Hy. apply elem_of_seqZ in Hy.
    destruct (Z.eq_dec y active) as [->|Hne]; [by left|]. right.
    destruct (Hall y ltac:(lia) Hne) as (i & Hi & Hr).
    apply elem_of_take. exists (Z.to_nat i). split; [exact Hr | lia]. }
  apply submseteq_length in Hsub. rewrite length_seqZ in Hsub. simpl in Hsub.
  rewrite length_take_le in Hsub by lia. lia.
Qed.

Lemma liveIn_nil c a : liveIn c a [] = 0.
Proof. reflexivity. Qed.

Lemma unsync_idle_busy c st :
  valid_geometry c → unsync_inv c st [] → unsync_tight c st [] →
  Unsync.freeListHead st = numArenas c - 1 ∧
  Unsync.bytesLeft st = arenaSize c ∧
  Unsync.numberOfBusyArenas c st = Some 0.
Proof.
  intros Hgeo Hinv [Hemp Hlist].
  pose proof (ui_active _ _ _ Hinv) as Hact.
  pose proof (ui_free _ _ _ Hinv) as (Hh & Hlen & _).
  assert (Hhead : Unsync.freeListHead st = numArenas c - 1).
  { apply (freeList_full c (Unsync.freeList st) _ (Unsync.activeArenaId st)); try done.
    intros a Ha Hne. by apply Hlist. }
  split; [done|]. split; [by apply Hemp|].
  unfold Unsync.numberOfBusyArenas, Unsync.allocationsInArena.
  rewrite Hhead. replace (numArenas c - (numArenas c - 1)) with 1 by lia.
  rewrite (ui_counts _ _ _ Hinv _ Hact). reflexivity.
Qed.

Lemma sync_idle_busy c st :
  valid_geometry c → sync_inv c st [] → sync_tight c st [] →
  Sync.freeListHead st = numArenas c - 1 ∧
  Sync.bytesReserved st = 0 ∧
  Sync.numberOfBusyArenas c st = Some 0.
Proof.
  intros Hgeo Hinv [Hemp Hlist].
  pose proof (si_active _ _ _ Hinv) as Hact.
  pose proof (si_free _ _ _ Hinv) as (Hh & Hlen & _).
  assert (Hhead : Sync.freeListHead st = numArenas c - 1).
  { apply (freeList_full c (Sync.freeList st) _ (Sync.activeArenaId st)); try done.
    intros a Ha Hne. by apply Hlist. }
  split; [done|]. split; [by apply Hemp|].
  unfold Sync.numberOfBusyArenas, Sync.allocationsInArena.
  rewrite Hhead. replace (numArenas c - (numArenas c - 1)) with 1 by lia.
  destruct (si_counts _ _ _ Hinv _ Hact) as (na & nd & -> & -> & _ & _ & Hdiff).
  rewrite liveIn_nil in Hdiff. simpl. rewrite Hdiff. reflexivity.
Qed.

Section EnginesTight.
Context (e : Engine) (c : Config) (Hgeo : valid_geometry c).

Lemma engine_construct_tight (st : EngineState e) :
  construct c = Some st → engine_tight e c st [].
Proof.
  destruct e; simpl.
  - by apply unsync_construct_tight.
  - by apply sync_construct_tight.
Qed.

Lemma engine_allocate_tight (st : EngineState e) lv bytes alignment :
  engine_inv e c st lv → sane_request bytes alignment → requestOk e c bytes alignment →
  match allocate c st bytes alignment with
  | Returned p st' =>
      if p =? nullptr then st' = st
      else engine_inv e c st' (p :: lv) ∧
           (engine_tight e c st lv → engine_tight e c st' (p :: lv))
  | Thrown _ st' => st' = st
  | Undefined => False
  end.
Proof.
  intros Hinv Hsane Hok. destruct e; simpl in *.
  - by apply unsync_allocate_tight.
  - by apply sync_allocate_tight.
Qed.

Lemma engine_deallocate_tight (st : EngineState e) lv p bytes alignment st' :
  engine_inv e c st lv → engine_tight e c st lv → p ∈ lv →
  deallocate c st p bytes alignment = Returned () st' →
  engine_tight e c st' (giveBack p lv).
Proof.
  intros Hinv Ht Hp Hcall. destruct e; simpl in *.
  - by apply (unsync_deallocate_tight c Hgeo st lv p bytes alignment).
  - by apply (sync_deallocate_tight c Hgeo st lv p bytes alignment).
Qed.

Lemma engine_idle_busy (st : EngineState e) :
  engine_inv e c st [] → engine_tight e c st [] → busyArenas c st = Some 0.
Proof.
  intros Hinv Ht. destruct e; simpl in *.
  - by apply unsync_idle_busy.
  - by apply sync_idle_busy.
Qed.

(** While every request keeps to [requestOk], no arena is lost. *)
Lemma history_tight (st : EngineState e) blocks :
  history (requestOk e c) c st blocks → engine_tight e c st (blocks.*1).
Proof.
  induction 1 as [st Hst | st blocks bytes alignment p st' Hh IH Hsane Hok Hcall Hp
                 | st blocks bytes alignment st' Hh IH Hsane Hok Hcall
                 | st blocks bytes alignment x st' Hh IH Hsane Hok Hcall
                 | st blocks p bytes alignment st' Hh IH Hp Hcall].
  - by apply engine_construct_tight.
  - pose proof (engine_allocate_tight st _ bytes alignment
                  (history_inv e _ c st blocks Hgeo Hh) Hsane Hok) as H.
    rewrite Hcall in H. destruct (Z.eqb_spec p nullptr); [done|].
    rewrite fmap_cons. by apply H.
  - pose proof (engine_allocate_tight st _ bytes alignment
                  (history_inv e _ c st blocks Hgeo Hh) Hsane Hok) as H.
    rewrite Hcall in H. simpl in H. by subst st'.
  - pose proof (engine_allocate_tight st _ bytes alignment
                  (history_inv e _ c st blocks Hgeo Hh) Hsane Hok) as H.
    rewrite Hcall in H. by subst st'.
  - rewrite removeBlock_fst.
    apply (engine_deallocate_tight st _ p bytes alignment);
      [by apply (history_inv e (requestOk e c)) | done..].
Qed.
End EnginesTight.

(** ** Failure, exhaustion and the way back *)

Lemma unsync_aligned_cases c st lv bytes alignment :
  valid_geometry c → unsync_inv c st lv →
  sane_request bytes alignment → alignedFor c alignment → 0 < bytes ≤ arenaSize c →
  (Unsync.bytesLeft st < unsyncNeeded (Unsync.data st) bytes alignment ∧
   Unsync.freeListHead st = 0 ∧
   Unsync.do_allocate c st bytes alignment
   = if exceptionsEnabled c then Thrown (OutOfFreeArenas (numArenas c)) st
     else Returned nullptr st) ∨
  ∃ st0,
    (st0 = st ∨
     ∃ a, st0 = unsyncReserve c st a ∧
          Unsync.bytesLeft st < unsyncNeeded (Unsync.data st) bytes alignment) ∧
    unsync_inv c st0 lv ∧
    unsyncNeeded (Unsync.data st0) bytes alignment ≤ Unsync.bytesLeft st0 ∧
    Unsync.data st0 - unsyncNeeded (Unsync.data st0) bytes alignment ≠ nullptr ∧
    Unsync.do_allocate c st bytes alignment
      = Returned (Unsync.data st0 - unsyncNeeded (Unsync.data st0) bytes alignment)
                 (unsyncPlace st0 bytes alignment) ∧
    unsync_inv c (unsyncPlace st0 bytes alignment)
      ((Unsync.data st0 - unsyncNeeded (Unsync.data st0) bytes alignment) :: lv).
Proof.
  intros Hgeo Hinv Hsane Hal Hb.
  pose proof (ui_free _ _ _ Hinv) as (Hh & _).
  unfold Unsync.do_allocate, Unsync.do_allocate_details.
  destruct (Z.eqb_spec bytes 0) as [|_]; [lia|].
  destruct (Z.le_gt_cases (unsyncNeeded (Unsync.data st) bytes alignment)
              (Unsync.bytesLeft st)) as [Hfit|Hnofit].
  - right. exists st.
    destruct (unsync_fit_spec c Hgeo st _ bytes alignment
                (Z.to_nat (Unsync.freeListHead st)) Hinv ltac:(lia) Hsane Hfit)
      as (-> & Hp & Hinv').
    split; [by left|]. repeat (split; [done|]). split; [|done].
    destruct (Z.eqb_spec (Unsync.data st - unsyncNeeded (Unsync.data st) bytes alignment)
                nullptr); [done|].
    by rewrite andb_false_r.
  - destruct (Z.eq_dec (Unsync.freeListHead st) 0) as [Hz|Hnz].
    + left. split; [lia|]. split; [done|].
      rewrite (unsync_fail_spec c st _ bytes alignment _ Hinv ltac:(lia) Hsane
                 ltac:(lia)) by (by right).
      simpl. destruct (exceptionsEnabled c); simpl; [|done].
      destruct (Z.ltb_spec (arenaSize c) bytes); [lia | done].
    + destruct (unsync_retry_spec c Hgeo st _ bytes alignment Hinv ltac:(lia) Hsane
                  ltac:(lia) ltac:(lia) ltac:(lia))
        as (a & Ha & Hra & Hne & Hz & Hinv' & Hrec).
      right. exists (unsyncReserve c st a).
      replace (Z.to_nat (Unsync.freeListHead st))
        with (S (Z.to_nat (Unsync.freeListHead st - 1))) by lia.
      rewrite Hrec.
      pose proof (aligned_fresh_fits c a bytes alignment Hal Hsane Hb) as Hfits.
      destruct (unsync_fit_spec c Hgeo (unsyncReserve c st a) _ bytes alignment
                  (Z.to_nat (Unsync.freeListHead st - 1)) Hinv' ltac:(lia) Hsane Hfits)
        as (-> & Hp & Hinv'').
      split; [right; exists a; split; [done | lia]|].
      repeat (split; [done|]). split; [|done].
      destruct (Z.eqb_spec (Unsync.data (unsyncReserve c st a)
                  - unsyncNeeded (Unsync.data (unsyncReserve c st a)) bytes alignment)
                  nullptr); [done|].
      by rewrite andb_false_r.
Qed.

Lemma unsync_full_or_served c st lv bytes alignment :
  valid_geometry c → unsync_inv c st lv → unsync_tight c st lv →
  sane_request bytes alignment → alignedFor c alignment → 0 < bytes ≤ arenaSize c →
  (∃ p st', Unsync.do_allocate c st bytes alignment = Returned p st' ∧ p ≠ nullptr) ∨
  (Unsync.numberOfBusyArenas c st = Some (numArenas c) ∧
   Unsync.do_allocate c st bytes alignment
   = if exceptionsEnabled c then Thrown (OutOfFreeArenas (numArenas c)) st
     else Returned nullptr st).
Proof.
  intros Hgeo Hinv [Hemp _] Hsane Hal Hb.
  pose proof Hgeo as (HN & HS & _ & H32 & _).
  destruct (unsync_aligned_cases c st lv bytes alignment Hgeo Hinv Hsane Hal Hb)
    as [(Hnofit & Hz & Hcall)|(st0 & _ & _ & _ & Hp & Hcall & _)].
  - right. split; [|done].
    pose proof (ui_active _ _ _ Hinv) as Hact.
    unfold Unsync.numberOfBusyArenas, Unsync.allocationsInArena.
    rewrite Hz, Z.sub_0_r, (wrap32_small (numArenas c)) by nia.
    destruct (Z.eqb_spec (numArenas c) 1) as [H1|H1]; [|done].
    rewrite (ui_counts _ _ _ Hinv _ Hact). simpl.
    destruct (Z.eqb_spec (liveIn c (Unsync.activeArenaId st) lv) 0) as [Hz0|]; [|done].
    exfalso. pose proof (Hemp Hz0) as HL.
    pose proof (ui_data _ _ _ Hinv) as Hd. rewrite HL in Hd. rewrite Hd in Hnofit.
    pose proof (aligned_fresh_fits c (Unsync.activeArenaId st) bytes alignment
                  Hal Hsane Hb). lia.
  - left. eauto.
Qed.

Lemma binBytes_fits c bytes :
  valid_geometry c → 0 < bytes ≤ arenaSize c → binBytes bytes ≤ arenaSize c.
Proof.
  intros (_ & _ & Hmod & _) Hb. unfold binBytes, max_align in *.
  apply Z.mod_divide in Hmod; [|lia]. destruct Hmod as (q & Hq).
  assert ((bytes + 16 - 1) / 16 < q + 1); [|lia].
  apply Z.div_lt_upper_bound; lia.
Qed.

Lemma sync_full_or_served c st lv bytes alignment :
  valid_geometry c → sync_inv c st lv → sync_tight c st lv →
  sane_request bytes alignment → 0 < bytes ≤ arenaSize c →
  (∃ p st', Sync.do_allocate c st bytes alignment = Returned p st' ∧ p ≠ nullptr) ∨
  (Sync.numberOfBusyArenas c st = Some (numArenas c) ∧
   Sync.do_allocate c st bytes alignment
   = if exceptionsEnabled c then Thrown (OutOfFreeArenas (numArenas c)) st
     else Returned nullptr st).
Proof.
  intros Hgeo Hinv [Hemp _] Hsane Hb.
  pose proof Hgeo as (HN & HS & _ & H32 & _).
  pose proof (binBytes_fits c bytes Hgeo Hb) as Hn.
  destruct (sync_allocate_cases c Hgeo st lv bytes alignment Hinv Hsane)
    as [[_ [?|?]]|[(_ & _ & Hnofit & Hz & Hcall)|(st0 & _ & _ & _ & _ & _ & Hp & Hcall & _)]];
    [lia | lia | |].
  - right. split; [|done].
    pose proof (si_active _ _ _ Hinv) as Hact.
    unfold Sync.numberOfBusyArenas, Sync.allocationsInArena.
    rewrite Hz, Z.sub_0_r, (wrap32_small (numArenas c)) by nia.
    destruct (Z.eqb_spec (numArenas c) 1) as [H1|H1]; [|done].
    destruct (si_counts _ _ _ Hinv _ Hact) as (na & nd & -> & -> & Hle & HnaS & Hdiff).
    simpl. rewrite wrap32_small by nia.
    destruct (Z.eqb_spec (na - nd) 0) as [Hz0|]; [|done].
    exfalso. rewrite Hz0 in Hdiff. pose proof (Hemp (eq_sym Hdiff)) as HL. lia.
  - left. eauto.
Qed.

Lemma unsync_round_trip c st bytes alignment p st' :
  valid_geometry c → unsync_inv c st [] → unsync_tight c st [] →
  sane_request bytes alignment → alignedFor c alignment →
  Unsync.do_allocate c st bytes alignment = Returned p st' → p ≠ nullptr →
  Unsync.do_deallocate c st' p bytes alignment = Returned () st.
Proof.
  intros Hgeo Hinv Ht Hsane Hal Hcall Hp.
  pose proof Hgeo as (HN & HS & _ & H32 & _).
  pose proof (ui_active _ _ _ Hinv) as Hact.
  pose proof (ui_data _ _ _ Hinv) as Hd.
  pose proof (ut_empty _ _ _ Ht (liveIn_nil c _)) as HL.
  pose proof (ui_counts _ _ _ Hinv _ Hact) as Hn. rewrite liveIn_nil in Hn.
  destruct (Z.eq_dec bytes 0) as [->|Hnz].
  { unfold Unsync.do_allocate in Hcall. simpl in Hcall. congruence. }
  assert (Hb : 0 < bytes) by (destruct Hsane; lia).
  destruct (Z.le_gt_cases bytes (arenaSize c)) as [Hle|Hgt].
  - pose proof (aligned_fresh_fits c (Unsync.activeArenaId st) bytes alignment
                  Hal Hsane ltac:(lia)) as Hfits.
    destruct (unsync_aligned_cases c st [] bytes alignment Hgeo Hinv Hsane Hal
                ltac:(lia))
      as [(Hnofit & _)|(st0 & Hst0 & _ & _ & _ & Hcall' & Hinv')].
    { rewrite Hd, HL in Hnofit. lia. }
    destruct Hst0 as [->|(a & _ & Hnofit)]; [|rewrite Hd, HL in Hnofit; lia].
    rewrite Hcall' in Hcall. injection Hcall as <- <-.
    pose proof (unsync_placed_arena c st [] bytes alignment _ Hinv Hinv') as Hx.
    pose proof (unsync_deallocate_spec c _ _
                  (Unsync.data st - unsyncNeeded (Unsync.data st) bytes alignment)
                  bytes alignment Hgeo Hinv' ltac:(by left)) as H.
    cbv zeta in H. destruct H as (_ & _ & _ & ->).
    rewrite liveIn_cons, Hx, liveIn_nil, Z.eqb_refl. simpl.
    rewrite Z.eqb_refl, Hn. simpl.
    rewrite list_insert_insert_eq, list_insert_id by exact Hn.
    destruct st. simpl in *. unfold ustate. f_equal. f_equal; lia.
  - exfalso.
    assert (Hnofit : Unsync.bytesLeft st < unsyncNeeded (Unsync.data st) bytes alignment).
    { destruct (unsync_offset_eq (Unsync.data st) bytes alignment Hsane)
        as (_ & _ & Hrange).
      unfold unsyncNeeded. lia. }
    unfold Unsync.do_allocate, Unsync.do_allocate_details in Hcall.
    destruct (Z.eqb_spec bytes 0) as [|_]; [lia|].
    rewrite (unsync_fail_spec c st [] bytes alignment _ Hinv Hb Hsane Hnofit)
      in Hcall by (left; lia).
    simpl in Hcall. destruct (exceptionsEnabled c); simpl in Hcall.
    + by destruct (arenaSize c <? bytes).
    + congruence.
Qed.

Lemma sync_round_trip c st bytes alignment p st' :
  valid_geometry c → sync_inv c st [] → sync_tight c st [] →
  sane_request bytes alignment →
  Sync.do_allocate c st bytes alignment = Returned p st' → p ≠ nullptr →
  Sync.do_deallocate c st' p bytes alignment = Returned () st.
Proof.
  intros Hgeo Hinv Ht Hsane Hcall Hp.
  pose proof Hgeo as (HN & HS & _ & H32 & _).
  pose proof (si_active _ _ _ Hinv) as Hact.
  pose proof (si_data _ _ _ Hinv) as Hd.
  pose proof (st_empty _ _ _ Ht (liveIn_nil c _)) as HL.
  destruct (si_counts _ _ _ Hinv _ Hact) as (na & nd & Hna & Hnd & Hle & HnaS & Hdiff).
  rewrite liveIn_nil in Hdiff.
  pose proof (si_active_bound _ _ _ Hinv na Hna) as Hab.
  assert (na = 0) by lia. assert (nd = 0) by lia. subst na nd.
  destruct (sync_allocate_cases c Hgeo st [] bytes alignment Hinv Hsane)
    as [[Hcall' _]|[(_ & Hn & Hnofit & _)
                   |(st0 & Hst0 & Hb & Hn & _ & _ & _ & Hcall' & Hinv')]].
  { rewrite Hcall' in Hcall. congruence. }
  { lia. }
  destruct Hst0 as [->|(a & _ & _ & _ & _ & _ & Hnofit)]; [|lia].
  rewrite Hcall' in Hcall. injection Hcall as <- <-.
  pose proof (sync_placed_arena c st [] (binBytes bytes) _ Hinv Hinv') as Hx.
  pose proof (sync_deallocate_spec c _ _ (Sync.data st) bytes alignment Hgeo Hinv'
                ltac:(by left)) as H.
  cbv zeta in H. destruct H as (na & nd & _ & _ & _ & Hna' & Hnd' & ->).
  rewrite Hx in *. simpl in Hna', Hnd'. rewrite Hna in Hna'. simpl in Hna'.
  rewrite read_insert_eq in Hna' by (apply read_lt in Hna; lia).
  rewrite Hnd in Hnd'. injection Hna' as <-. injection Hnd' as <-.
  simpl. rewrite Z.eqb_refl.
  rewrite list_insert_insert_eq, !list_insert_id by done.
  destruct st. simpl in *. unfold sstate. f_equal. f_equal; lia.
Qed.

(** On a pool with valid geometry, in every state reached from
    construction by requests within [SizeType] and by deallocations of
    held pointers, a request within [SizeType] that fails, by the null
    pointer or by an exception, leaves the pool exactly as it was: in the
    synchronized engine always, in the unsynchronized engine when the
    alignment divides the arena size and the address of the storage. *)
Theorem failed_allocate_keeps_pool (e : Engine) (c : Config)
    (r : Run (EngineState e)) (bytes alignment : Z) (st' : EngineState e) :
  valid_geometry c → reachable c r →
  sane_request bytes alignment → requestOk e c bytes alignment →
  allocate c (resource r) bytes alignment = Returned nullptr st' ∨
  (∃ x, allocate c (resource r) bytes alignment = Thrown x st') →
  st' = resource r.
Proof.
  intros Hgeo Hr Hsane Hok Hfail.
  destruct (reachable_consistent e c Hgeo r Hr) as [Hinv _].
  pose proof (engine_allocate_tight e c Hgeo (resource r) _ bytes alignment
                Hinv Hsane Hok) as H.
  destruct Hfail as [Hcall|(x & Hcall)]; rewrite Hcall in H; done.
Qed.

Lemma failed_allocate_keeps_pool_witness :
  valid_geometry pool2x48 ∧ sane_request 16 16 ∧ alignedFor pool2x48 16 ∧
  Unsync.do_allocate pool2x48 (ustate 4144 0 1 0 [1; 0] [1; 1]) 16 16
  = Thrown (OutOfFreeArenas 2) (ustate 4144 0 1 0 [1; 0] [1; 1]).
Proof.
  split; [repeat split; try reflexivity; discriminate|].
  split; [sane_pow 4|]. split; [split; reflexivity|].
  assert (Hcall : ∃ st', Unsync.do_allocate pool2x48 (ustate 4144 0 1 0 [1; 0] [1; 1]) 16 16
                         = Thrown (OutOfFreeArenas 2) st').
  { eexists. vm_compute. reflexivity. }
  destruct Hcall as (st' & Hcall). rewrite Hcall. f_equal.
  apply (failed_allocate_keeps_pool Unsynchronized pool2x48
           {| resource := ustate 4144 0 1 0 [1; 0] [1; 1]; live := [4144; 4096];
              numAllocated := 0 + 1 + 1; numDeallocated := 0 |} 16 16 st').
  - repeat split; try reflexivity; discriminate.
  - apply (reach_allocate pool2x48
             {| resource := ustate 4096 0 0 1 [1; 0] [1; 0]; live := [4096];
                numAllocated := 0 + 1; numDeallocated := 0 |} 48 16 4144).
    + apply (reach_allocate pool2x48
               {| resource := ustate 4144 48 0 1 [1; 0] [0; 0]; live := [];
                  numAllocated := 0; numDeallocated := 0 |} 48 16 4096).
      * run_construct.
      * sane_pow 4.
      * vm_compute; reflexivity.
      * discriminate.
    + sane_pow 4.
    + vm_compute; reflexivity.
    + discriminate.
  - sane_pow 4.
  - split; reflexivity.
  - right. exists (OutOfFreeArenas 2). exact Hcall.
Defined.

(** On a pool with valid geometry, when the consumer has given back
    every block, and every request was within [SizeType] and kept to
    [requestOk], [numberOfBusyArenas()] returns 0. *)
Theorem all_freed_no_busy_arena (e : Engine) (c : Config) (st : EngineState e) :
  valid_geometry c → history (requestOk e c) c st [] → busyArenas c st = Some 0.
Proof.
  intros Hgeo Hh.
  apply (engine_idle_busy e c Hgeo).
  - apply (history_inv e _ c st [] Hgeo Hh).
  - apply (history_tight e c Hgeo st [] Hh).
Qed.

Lemma all_freed_no_busy_arena_witness :
  valid_geometry pool3x48 ∧
  Unsync.numberOfBusyArenas pool3x48 (ustate 4144 48 0 2 [2; 1; 0] [0; 0; 0]) = Some 0.
Proof.
  split; [repeat split; try reflexivity; discriminate|].
  apply (all_freed_no_busy_arena Unsynchronized pool3x48).
  - repeat split; try reflexivity; discriminate.
  - apply (hist_deallocate (requestOk Unsynchronized pool3x48) pool3x48
             (ustate 4096 0 0 2 [2; 1; 0] [1; 0; 0] : EngineState Unsynchronized)
             [(4096, 48)] 4096 48 16).
    + apply (hist_allocate (requestOk Unsynchronized pool3x48) pool3x48
               (ustate 4144 48 0 2 [2; 1; 0] [0; 0; 0] : EngineState Unsynchronized)
               [] 48 16 4096).
      * apply hist_construct. vm_compute; reflexivity.
      * sane_pow 4.
      * split; reflexivity.
      * vm_compute; reflexivity.
      * discriminate.
    + repeat constructor.
    + vm_compute; reflexivity.
Defined.

(** On a pool with valid geometry, while every request is within
    [SizeType] and keeps to [requestOk], a request of at least one byte
    and no more than an arena is served unless all arenas are busy: if it is not,
    [numberOfBusyArenas()] is [numArenas], [OutOfFreeArenas] is thrown
    (or the null pointer returned) and the pool is left as it was. *)
Theorem allocate_fails_only_when_full (e : Engine) (c : Config) (st : EngineState e)
    (blocks : list (Z * Z)) (bytes alignment : Z) :
  valid_geometry c → history (requestOk e c) c st blocks →
  sane_request bytes alignment → requestOk e c bytes alignment →
  0 < bytes ≤ arenaSize c →
  (∃ p st', allocate c st bytes alignment = Returned p st' ∧ p ≠ nullptr) ∨
  (busyArenas c st = Some (numArenas c) ∧
   allocate c st bytes alignment
   = if exceptionsEnabled c then Thrown (OutOfFreeArenas (numArenas c)) st
     else Returned nullptr st).
Proof.
  intros Hgeo Hh Hsane Hok Hb.
  pose proof (history_inv e _ c st blocks Hgeo Hh) as Hinv.
  pose proof (history_tight e c Hgeo st blocks Hh) as Ht.
  destruct e; simpl in *.
  - by apply (unsync_full_or_served c st (blocks.*1)).
  - by apply (sync_full_or_served c st (blocks.*1)).
Qed.

Lemma allocate_fails_only_when_full_witness :
  valid_geometry pool2x48 ∧ sane_request 16 16 ∧ alignedFor pool2x48 16 ∧
  ((∃ p st', Unsync.do_allocate pool2x48 (ustate 4144 0 1 0 [1; 0] [1; 1]) 16 16
             = Returned p st' ∧ p ≠ nullptr) ∨
   (Unsync.numberOfBusyArenas pool2x48 (ustate 4144 0 1 0 [1; 0] [1; 1]) = Some 2 ∧
    Unsync.do_allocate pool2x48 (ustate 4144 0 1 0 [1; 0] [1; 1]) 16 16
    = Thrown (OutOfFreeArenas 2) (ustate 4144 0 1 0 [1; 0] [1; 1]))).
Proof.
  split; [repeat split; try reflexivity; discriminate|].
  split; [sane_pow 4|]. split; [split; reflexivity|].
  apply (allocate_fails_only_when_full Unsynchronized pool2x48
           (ustate 4144 0 1 0 [1; 0] [1; 1] : EngineState Unsynchronized)
           [(4144, 48); (4096, 48)] 16 16).
  - repeat split; try reflexivity; discriminate.
  - apply (hist_allocate (requestOk Unsynchronized pool2x48) pool2x48
             (ustate 4096 0 0 1 [1; 0] [1; 0] : EngineState Unsynchronized)
             [(4096, 48)] 48 16 4144).
    + apply (hist_allocate (requestOk Unsynchronized pool2x48) pool2x48
               (ustate 4144 48 0 1 [1; 0] [0; 0] : EngineState Unsynchronized)
               [] 48 16 4096).
      * apply hist_construct. vm_compute; reflexivity.
      * sane_pow 4.
      * split; reflexivity.
      * vm_compute; reflexivity.
      * discriminate.
    + sane_pow 4.
    + split; reflexivity.
    + vm_compute; reflexivity.
    + discriminate.
  - sane_pow 4.
  - split; reflexivity.
  - split; [reflexivity | discriminate].
Defined.

(** In a pool with valid geometry whose blocks have all been given back,
    and whose requests were all within [SizeType] and kept to
    [requestOk], allocating a block by such a request and giving it back
    restores the very state the pool was in. *)
Theorem allocate_deallocate_round_trip (e : Engine) (c : Config)
    (st st' : EngineState e) (bytes alignment p : Z) :
  valid_geometry c → history (requestOk e c) c st [] →
  sane_request bytes alignment → requestOk e c bytes alignment →
  allocate c st bytes alignment = Returned p st' → p ≠ nullptr →
  deallocate c st' p bytes alignment = Returned () st.
Proof.
  intros Hgeo Hh Hsane Hok Hcall Hp.
  pose proof (history_inv e _ c st [] Hgeo Hh) as Hinv.
  pose proof (history_tight e c Hgeo st [] Hh) as Ht.
  destruct e; simpl in *.
  - by apply unsync_round_trip.
  - by apply sync_round_trip.
Qed.

Lemma allocate_deallocate_round_trip_witness :
  valid_geometry pool2x64 ∧ sane_request 40 8 ∧
  Sync.do_deallocate pool2x64 (sstate 4144 48 0 1 [1; 0] [1; 0] [0; 0]) 4096 40 8
  = Returned () (sstate 4096 0 0 1 [1; 0] [0; 0] [0; 0]).
Proof.
  split; [repeat split; try reflexivity; discriminate|].
  split; [sane_pow 3|].
  apply (allocate_deallocate_round_trip Synchronized pool2x64
           (sstate 4096 0 0 1 [1; 0] [0; 0] [0; 0] : EngineState Synchronized)
           (sstate 4144 48 0 1 [1; 0] [1; 0] [0; 0] : EngineState Synchronized)
           40 8 4096).
  - repeat split; try reflexivity; discriminate.
  - apply hist_construct. vm_compute; reflexivity.
  - sane_pow 3.
  - exact I.
  - vm_compute; reflexivity.
  - discriminate.
Defined.

(** ** The blocks the consumer holds *)

Lemma blocks_held (bl : list (Z * Z)) q : q ∈ bl → q.1 ∈ bl.*1.
Proof. intros Hq. by apply (list_elem_of_fmap_2 fst). Qed.

(** A block in an arena other than [a] is apart from every block of [a]. *)
Lemma arenas_apart c a lo hi q :
  0 < arenaSize c →
  arenaData c + a * arenaSize c ≤ lo → hi ≤ arenaData c + (a + 1) * arenaSize c →
  blockInArena c q → Unsync.arenaIdOf c q.1 ≠ a →
  hi ≤ q.1 ∨ q.1 + q.2 ≤ lo.
Proof.
  intros HS Hlo Hhi (Hpos & Hq1 & Hq2) Hne.
  destruct (Z.lt_total (Unsync.arenaIdOf c q.1) a) as [Hlt|[Heq|Hgt]]; [|done|].
  - right. nia.
  - left. nia.
Qed.

Section UnsyncBlocks.
Context (c : Config) (Hgeo : valid_geometry c).

Lemma unsync_place_blocks st bl bytes alignment :
  unsync_inv c st (bl.*1) → unsync_blocks c st bl →
  0 < bytes → sane_request bytes alignment →
  unsyncNeeded (Unsync.data st) bytes alignment ≤ Unsync.bytesLeft st →
  unsync_blocks c (unsyncPlace st bytes alignment)
    ((Unsync.data st - unsyncNeeded (Unsync.data st) bytes alignment, bytes) :: bl).
Proof.
  pose proof Hgeo as (HN & HS & _).
  intros Hinv [Hwithin Hused Hdisj] Hb Hsane Hfit.
  pose proof (ui_active _ _ _ Hinv) as Hact.
  pose proof (ui_left _ _ _ Hinv) as Hleft.
  pose proof (ui_data _ _ _ Hinv) as Hdata.
  destruct (unsync_offset_eq (Unsync.data st) bytes alignment Hsane) as (_ & _ & Hrange).
  unfold unsyncNeeded in *.
  remember (Unsync.data st - (bytes + (Unsync.data st - bytes) mod alignment))
    as p eqn:Hpdef.
  assert (Hlo : arenaData c + Unsync.activeArenaId st * arenaSize c ≤ p) by lia.
  assert (Hhi : p + bytes ≤ Unsync.data st) by lia.
  assert (Htop : Unsync.data st
                 ≤ arenaData c + (Unsync.activeArenaId st + 1) * arenaSize c) by lia.
  assert (Hx : Unsync.arenaIdOf c p = Unsync.activeArenaId st).
  { apply (arenaIdOf_in_arena c Hgeo); lia. }
  split.
  - constructor; [|done]. unfold blockInArena. simpl. rewrite Hx. lia.
  - constructor; simpl; unfold unsyncNeeded; [lia|].
    eapply Forall_impl; [exact Hused|]. simpl. intros q Hq Hqa. specialize (Hq Hqa). lia.
  - split; [|done]. simpl.
    apply Forall_forall. intros q Hq.
    rewrite Forall_forall in Hwithin. rewrite Forall_forall in Hused.
    destruct (Z.eq_dec (Unsync.arenaIdOf c q.1) (Unsync.activeArenaId st)) as [Hqa|Hqa].
    + left. pose proof (Hused q Hq Hqa). lia.
    + destruct (arenas_apart c (Unsync.activeArenaId st) p (p + bytes) q HS Hlo
                  ltac:(lia) (Hwithin q Hq) Hqa); [by left | by right].
Qed.

Lemma unsync_reserve_blocks st bl a :
  unsync_blocks c st bl → liveIn c a (bl.*1) = 0 →
  unsync_blocks c (unsyncReserve c st a) bl.
Proof.
  intros [Hwithin Hused Hdisj] Hz. split; [done| |done].
  apply Forall_forall. intros q Hq Hqa. simpl in Hqa. exfalso.
  by apply (liveIn_zero_not_held c a (bl.*1) q.1 Hz (blocks_held bl q Hq)).
Qed.

Lemma unsync_allocate_blocks st bl bytes alignment :
  unsync_inv c st (bl.*1) → unsync_blocks c st bl → sane_request bytes alignment →
  match Unsync.do_allocate c st bytes alignment with
  | Returned p st' =>
      if p =? nullptr then unsync_blocks c st' bl
      else unsync_blocks c st' ((p, bytes) :: bl)
  | Thrown _ st' => unsync_blocks c st' bl
  | Undefined => False
  end.
Proof.
  intros Hinv Hbl Hsane.
  destruct (Z.eq_dec bytes 0) as [->|Hnz]; [done|].
  assert (Hb : 0 < bytes) by (destruct Hsane; lia).
  destruct (unsync_allocate_general c Hgeo (bl.*1) bytes alignment Hb Hsane
              (λ st', unsync_blocks c st' bl))
    with (st := st) as (st0 & Hinv0 & Hbl0 & Hcases); [|done|done|].
  - intros st1 a _ Hbl1 _ _ _ _ _ Hz. by apply unsync_reserve_blocks.
  - destruct Hcases as [(-> & _)|(Hfit & -> & Hp & _)].
    + by destruct (exceptionsEnabled c).
    + destruct (Z.eqb_spec (Unsync.data st0 - unsyncNeeded (Unsync.data st0) bytes alignment)
                  nullptr); [done|].
      by apply unsync_place_blocks.
Qed.

Lemma unsync_deallocate_blocks st bl p bytes alignment st' :
  unsync_inv c st (bl.*1) → unsync_blocks c st bl → p ∈ bl.*1 →
  Unsync.do_deallocate c st p bytes alignment = Returned () st' →
  unsync_blocks c st' (removeBlock p bl).
Proof.
  intros Hinv [Hwithin Hused Hdisj] Hp Hcall.
  pose proof (unsync_deallocate_spec c st _ p bytes alignment Hgeo Hinv Hp) as H.
  cbv zeta in H. destruct H as (Hx & Hn1 & _ & Hd).
  rewrite Hd in Hcall. injection Hcall as <-.
  split; [by apply removeBlock_Forall | | by apply removeBlock_disjoint].
  destruct (Z.eqb_spec (liveIn c (Unsync.arenaIdOf c p) (bl.*1)) 1) as [H1|H1];
    [destruct (Z.eqb_spec (Unsync.arenaIdOf c p) (Unsync.activeArenaId st)) as [Hxa|Hxa]|];
    simpl; try (by apply removeBlock_Forall).
  apply Forall_forall. intros q Hq Hqa. exfalso.
  apply blocks_held in Hq. rewrite removeBlock_fst in Hq.
  apply (liveIn_zero_not_held c (Unsync.arenaIdOf c p) _ q.1) in Hq; [done|].
  rewrite liveIn_giveBack, Z.eqb_refl by done. lia.
Qed.
End UnsyncBlocks.

Section SyncBlocks.
Context (c : Config) (Hgeo : valid_geometry c).

Lemma sync_place_blocks st bl bytes n :
  sync_inv c st (bl.*1) → sync_blocks c st bl →
  0 < bytes ≤ n → Sync.bytesReserved st + n ≤ arenaSize c →
  sync_blocks c (syncPlace st n) ((Sync.data st, bytes) :: bl).
Proof.
  pose proof Hgeo as (HN & HS & _).
  intros Hinv [Hwithin Hused Hdisj] Hb Hfit.
  pose proof (si_active _ _ _ Hinv) as Hact.
  pose proof (si_reserved _ _ _ Hinv) as Hres.
  pose proof (si_data _ _ _ Hinv) as Hdata.
  assert (Hlo : arenaData c + Sync.activeArenaId st * arenaSize c ≤ Sync.data st) by lia.
  assert (Hhi : Sync.data st + bytes
                ≤ arenaData c + (Sync.activeArenaId st + 1) * arenaSize c) by lia.
  assert (Hx : Unsync.arenaIdOf c (Sync.data st) = Sync.activeArenaId st).
  { apply (arenaIdOf_in_arena c Hgeo); lia. }
  split.
  - constructor; [|done]. unfold blockInArena. simpl. rewrite Hx. lia.
  - constructor; simpl; [lia|].
    eapply Forall_impl; [exact Hused|]. simpl. intros q Hq Hqa. specialize (Hq Hqa). lia.
  - split; [|done]. simpl.
    apply Forall_forall. intros q Hq.
    rewrite Forall_forall in Hwithin. rewrite Forall_forall in Hused.
    destruct (Z.eq_dec (Unsync.arenaIdOf c q.1) (Sync.activeArenaId st)) as [Hqa|Hqa].
    + right. pose proof (Hused q Hq Hqa). lia.
    + destruct (arenas_apart c (Sync.activeArenaId st) (Sync.data st)
                  (Sync.data st + bytes) q HS Hlo Hhi (Hwithin q Hq) Hqa);
        [by left | by right].
Qed.

Lemma sync_reserve_blocks st bl a :
  sync_blocks c st bl → liveIn c a (bl.*1) = 0 →
  sync_blocks c (syncReserve c st a) bl.
Proof.
  intros [Hwithin Hused Hdisj] Hz. split; [done| |done].
  apply Forall_forall. intros q Hq Hqa. simpl in Hqa. exfalso.
  by apply (liveIn_zero_not_held c a (bl.*1) q.1 Hz (blocks_held bl q Hq)).
Qed.

Lemma sync_allocate_blocks st bl bytes alignment :
  sync_inv c st (bl.*1) → sync_blocks c st bl → sane_request bytes alignment →
  match Sync.do_allocate c st bytes alignment with
  | Returned p st' =>
      if p =? nullptr then sync_blocks c st' bl
      else sync_blocks c st' ((p, bytes) :: bl)
  | Thrown _ st' => sync_blocks c st' bl
  | Undefined => False
  end.
Proof.
  intros Hinv Hbl Hsane.
  destruct (sync_allocate_cases c Hgeo st _ bytes alignment Hinv Hsane)
    as [[-> _]|[(_ & _ & _ & _ & ->)
               |(st0 & Hst0 & Hb & Hn & Hinv0 & Hfit & Hp & -> & Hinv')]];
    [done | by destruct (exceptionsEnabled c) |].
  destruct (Z.eqb_spec (Sync.data st0) nullptr); [done|].
  apply sync_place_blocks; try done.
  destruct Hst0 as [->|(a & -> & Hra & Hne & Hz & Ha & Hnofit)]; [done|].
  by apply sync_reserve_blocks.
Qed.

Lemma sync_deallocate_blocks st bl p bytes alignment st' :
  sync_inv c st (bl.*1) → sync_blocks c st bl → p ∈ bl.*1 →
  Sync.do_deallocate c st p bytes alignment = Returned () st' →
  sync_blocks c st' (removeBlock p bl).
Proof.
  intros Hinv [Hwithin Hused Hdisj] Hp Hcall.
  pose proof (sync_deallocate_spec c st _ p bytes alignment Hgeo Hinv Hp) as H.
  cbv zeta in H. destruct H as (na & nd & Hx & Hle & Hdiff & _ & _ & Hd).
  rewrite Hd in Hcall. injection Hcall as <-.
  split; [by apply removeBlock_Forall | | by apply removeBlock_disjoint].
  destruct (Z.eqb_spec na (nd + 1)) as [H1|H1];
    [destruct (Z.eqb_spec (Unsync.arenaIdOf c p) (Sync.activeArenaId st)) as [Hxa|Hxa]|];
    simpl; try (by apply removeBlock_Forall).
  apply Forall_forall. intros q Hq Hqa. exfalso.
  apply blocks_held in Hq. rewrite removeBlock_fst in Hq.
  apply (liveIn_zero_not_held c (Unsync.arenaIdOf c p) _ q.1) in Hq; [done|].
  rewrite liveIn_giveBack, Z.eqb_refl by done. lia.
Qed.
End SyncBlocks.

Section EnginesBlocks.
Context (e : Engine) (c : Config) (Hgeo : valid_geometry c).

Lemma engine_construct_blocks (st : EngineState e) : engine_blocks e c st [].
Proof. destruct e; split; simpl; done. Qed.

Lemma engine_allocate_blocks (st : EngineState e) bl bytes alignment :
  engine_inv e c st (bl.*1) → engine_blocks e c st bl → sane_request bytes alignment →
  match allocate c st bytes alignment with
  | Returned p st' =>
      if p =? nullptr then engine_blocks e c st' bl
      else engine_blocks e c st' ((p, bytes) :: bl)
  | Thrown _ st' => engine_blocks e c st' bl
  | Undefined => False
  end.
Proof.
  intros Hinv Hbl Hsane. destruct e; simpl in *.
  - by apply unsync_allocate_blocks.
  - by apply sync_allocate_blocks.
Qed.

Lemma engine_deallocate_blocks (st : EngineState e) bl p bytes alignment st' :
  engine_inv e c st (bl.*1) → engine_blocks e c st bl → p ∈ bl.*1 →
  deallocate c st p bytes alignment = Returned () st' →
  engine_blocks e c st' (removeBlock p bl).
Proof.
  intros Hinv Hbl Hp Hcall. destruct e; simpl in *.
  - by apply (unsync_deallocate_blocks c Hgeo st bl p bytes alignment).
  - by apply (sync_deallocate_blocks c Hgeo st bl p bytes alignment).
Qed.

Lemma history_blocks ok (st : EngineState e) blocks :
  history ok c st blocks → engine_blocks e c st blocks.
Proof.
  induction 1 as [st Hst | st blocks bytes alignment p st' Hh IH Hsane Hok Hcall Hp
                 | st blocks bytes alignment st' Hh IH Hsane Hok Hcall
                 | st blocks bytes alignment x st' Hh IH Hsane Hok Hcall
                 | st blocks p bytes alignment st' Hh IH Hp Hcall].
  - apply engine_construct_blocks.
  - pose proof (engine_allocate_blocks st _ bytes alignment
                  (history_inv e _ c st blocks Hgeo Hh) IH Hsane) as H.
    rewrite Hcall in H. by destruct (Z.eqb_spec p nullptr).
  - pose proof (engine_allocate_blocks st _ bytes alignment
                  (history_inv e _ c st blocks Hgeo Hh) IH Hsane) as H.
    by rewrite Hcall in H.
  - pose proof (engine_allocate_blocks st _ bytes alignment
                  (history_inv e _ c st blocks Hgeo Hh) IH Hsane) as H.
    by rewrite Hcall in H.
  - apply (engine_deallocate_blocks st _ p bytes alignment);
      [by apply (history_inv e ok) | done..].
Qed.

Lemma engine_blocks_facts (st : EngineState e) blocks :
  engine_blocks e c st blocks → Forall (blockInArena c) blocks ∧ pairwiseDisjoint blocks.
Proof. destruct e; intros [? ? ?]; done. Qed.

Lemma engine_inv_live (st : EngineState e) lv :
  engine_inv e c st lv → Forall (inStorage c) lv.
Proof. destruct e; intros H; [apply (ui_live _ _ _ H) | apply (si_live _ _ _ H)]. Qed.
End EnginesBlocks.

(** On a pool with valid geometry, along every sequence of requests
    within [SizeType] and of deallocations of held pointers, the blocks
    the consumer holds, each with the size it was requested with, share
    no byte with one another, and each lies in one arena of the
    storage. *)
Theorem held_blocks_disjoint (e : Engine) (c : Config) (ok : Z → Z → Prop)
    (st : EngineState e) (blocks : list (Z * Z)) :
  valid_geometry c → history ok c st blocks →
  pairwiseDisjoint blocks ∧
  Forall (λ q, blockInArena c q ∧ blockInStorage c q) blocks.
Proof.
  intros Hgeo Hh. pose proof Hgeo as (HN & HS & _).
  destruct (engine_blocks_facts e c st blocks (history_blocks e c Hgeo ok st blocks Hh))
    as [Hwithin Hdisj].
  split; [done|].
  pose proof (engine_inv_live e c st _ (history_inv e ok c st blocks Hgeo Hh)) as Hlive.
  apply Forall_forall. intros q Hq.
  rewrite Forall_forall in Hwithin. rewrite Forall_forall in Hlive.
  pose proof (Hwithin q Hq) as Hqa. split; [done|].
  pose proof (arenaIdOf_range c Hgeo q.1 (Hlive _ (blocks_held blocks q Hq))) as Hx.
  destruct Hqa as (_ & Hlo & Hhi). unfold blockInStorage. nia.
Qed.

Lemma held_blocks_disjoint_witness :
  valid_geometry pool3x48 ∧
  pairwiseDisjoint [(4176, 16); (4096, 48)] ∧
  Forall (λ q, blockInArena pool3x48 q ∧ blockInStorage pool3x48 q)
         [(4176, 16); (4096, 48)].
Proof.
  split; [repeat split; try reflexivity; discriminate|].
  apply (held_blocks_disjoint Unsynchronized pool3x48 (λ _ _, True)
           (ustate 4176 32 1 1 [2; 1; 0] [1; 1; 0] : EngineState Unsynchronized)).
  - repeat split; try reflexivity; discriminate.
  - apply (hist_allocate (λ _ _, True) pool3x48
             (ustate 4096 0 0 2 [2; 1; 0] [1; 0; 0] : EngineState Unsynchronized)
             [(4096, 48)] 16 16 4176).
    + apply (hist_allocate (λ _ _, True) pool3x48
               (ustate 4144 48 0 2 [2; 1; 0] [0; 0; 0] : EngineState Unsynchronized)
               [] 48 32 4096).
      * apply hist_construct. vm_compute; reflexivity.
      * sane_pow 5.
      * exact I.
      * vm_compute; reflexivity.
      * discriminate.
    + sane_pow 4.
    + exact I.
    + vm_compute; reflexivity.
    + discriminate.
Defined.

(** ** The arenas accounted for *)

Lemma freeList_accounts (c : Config) fl head active (vacant : Z → Prop) lv :
  freeListOk c fl head active vacant → 0 ≤ active < numArenas c →
  (∀ a, 0 ≤ a < numArenas c → vacant a → liveIn c a lv = 0) →
  (∀ a, 0 ≤ a < numArenas c → a ≠ active → liveIn c a lv = 0 →
        ∃ i, 0 ≤ i < head ∧ read fl i = Some a) →
  head + 1 + Z.of_nat (length (busyNonActiveArenas c active lv)) = numArenas c.
Proof.
  intros (Hh & Hlen & Hnd & Hent) Hact Hvac Hlisted.
  assert (Hmem : ∀ y, y ∈ take (Z.to_nat head) fl →
                      0 ≤ y < numArenas c ∧ y ≠ active ∧ liveIn c y lv = 0).
  { intros y Hy. apply elem_of_take in Hy as (i & Hi & Hlt).
    destruct (Hent (Z.of_nat i)) as (a & Ha & Hr & Hne & Hv); [lia|].
    unfold read in Ha. rewrite Nat2Z.id, Hi in Ha. injection Ha as <-.
    split; [done|]. split; [done|]. by apply Hvac. }
  assert (Hperm : seqZ 0 (numArenas c)
                  ≡ₚ active :: take (Z.to_nat head) fl ++ busyNonActiveArenas c active lv).
  { apply NoDup_Permutation.
    - apply NoDup_seqZ.
    - constructor.
      + intros Hin. apply elem_of_app in Hin as [Hin|Hin].
        * by destruct (Hmem _ Hin) as (_ & ? & _).
        * unfold busyNonActiveArenas in Hin.
          by apply list_elem_of_filter in Hin as [[? _] _].
      + apply NoDup_app. split; [done|]. split; [|by apply NoDup_filter, NoDup_seqZ].
        intros y Hy Hy'. destruct (Hmem _ Hy) as (_ & _ & Hz).
        unfold busyNonActiveArenas in Hy'.
        apply list_elem_of_filter in Hy' as [[_ ?] _]. lia.
    - intros a. rewrite elem_of_seqZ, elem_of_cons, elem_of_app. split.
      + intros Ha. destruct (Z.eq_dec a active) as [|Hne]; [by left|]. right.
        pose proof (liveIn_nonneg c a lv).
        destruct (Z.eq_dec (liveIn c a lv) 0) as [Hz|Hnz].
        * left. destruct (Hlisted a ltac:(lia) Hne Hz) as (i & Hi & Hr).
          apply elem_of_take. exists (Z.to_nat i). split; [exact Hr | lia].
        * right. unfold busyNonActiveArenas. apply list_elem_of_filter.
          split; [split; [done | lia]|]. apply elem_of_seqZ. lia.
      + intros [->|[Hin|Hin]]; [lia | |].
        * destruct (Hmem _ Hin) as (? & _). lia.
        * unfold busyNonActiveArenas in Hin.
          apply list_elem_of_filter in Hin as [_ Hin]. by apply elem_of_seqZ in Hin. }
  apply Permutation_length in Hperm.
  rewrite length_seqZ in Hperm. simpl in Hperm.
  rewrite length_app, length_take_le in Hperm by lia. lia.
Qed.

(** On a pool with valid geometry, while every request is within
    [SizeType] and keeps to [requestOk] and every deallocation gives back
    a held pointer, every arena is accounted for: the arenas on the free list, the active arena and the other
    arenas in which the consumer holds a block are all the arenas,
    [_freeListHead + 1 + busyNonActiveArenas = numArenas]. *)
Theorem free_list_accounting (e : Engine) (c : Config) (st : EngineState e)
    (blocks : list (Z * Z)) :
  valid_geometry c → history (requestOk e c) c st blocks →
  freeListHeadOf e st + 1
  + Z.of_nat (length (busyNonActiveArenas c (activeArenaOf e st) (blocks.*1)))
  = numArenas c.
Proof.
  intros Hgeo Hh.
  pose proof (history_inv e _ c st blocks Hgeo Hh) as Hinv.
  pose proof (history_tight e c Hgeo st blocks Hh) as Ht.
  destruct e; simpl in *.
  - destruct Hinv as [Hact Hfree _ _ Hcnt _ _ _]. destruct Ht as [_ Hlisted].
    apply (freeList_accounts c _ _ _ _ _ Hfree Hact); [|done].
    intros a Ha Hv. rewrite Hcnt in Hv by done. by injection Hv.
  - destruct Hinv as [Hact Hfree _ _ _ Hcnt _ _]. destruct Ht as [_ Hlisted].
    apply (freeList_accounts c _ _ _ _ _ Hfree Hact); [|done].
    intros a Ha [Hv1 Hv2].
    destruct (Hcnt a Ha) as (na & nd & Hna & Hnd & _ & _ & Hdiff).
    rewrite Hna in Hv1. rewrite Hnd in Hv2. injection Hv1 as ->. injection Hv2 as ->.
    lia.
Qed.

Lemma free_list_accounting_witness :
  valid_geometry pool2x48 ∧
  0 + 1 + Z.of_nat (length (busyNonActiveArenas pool2x48 1 [4144; 4096])) = 2.
Proof.
  split; [repeat split; try reflexivity; discriminate|].
  apply (free_list_accounting Unsynchronized pool2x48
           (ustate 4144 0 1 0 [1; 0] [1; 1] : EngineState Unsynchronized)
           [(4144, 48); (4096, 48)]).
  - repeat split; try reflexivity; discriminate.
  - apply (hist_allocate (requestOk Unsynchronized pool2x48) pool2x48
             (ustate 4096 0 0 1 [1; 0] [1; 0] : EngineState Unsynchronized)
             [(4096, 48)] 48 16 4144).
    + apply (hist_allocate (requestOk Unsynchronized pool2x48) pool2x48
               (ustate 4144 48 0 1 [1; 0] [0; 0] : EngineState Unsynchronized)
               [] 48 16 4096).
      * apply hist_construct. vm_compute; reflexivity.
      * sane_pow 4.
      * split; reflexivity.
      * vm_compute; reflexivity.
      * discriminate.
    + sane_pow 4.
    + split; reflexivity.
    + vm_compute; reflexivity.
    + discriminate.
Defined.

(* ================================================================== *)
(** * Further properties of the statistics wrapper *)

(** ** The tracking map *)

Lemma sorted_keys_above k0 v0 (rest : StdMap.t) k v :
  StronglySorted Z.lt (((k0, v0) :: rest).*1) → (k, v) ∈ rest → k0 < k.
Proof.
  rewrite fmap_cons. intros Hs Hin. apply StronglySorted_inv in Hs as [_ Hall].
  rewrite Forall_forall in Hall. apply Hall. by apply (list_elem_of_fmap_2 fst _ (k, v)).
Qed.

Lemma sorted_keys_tail k0 v0 (rest : StdMap.t) :
  StronglySorted Z.lt (((k0, v0) :: rest).*1) → StronglySorted Z.lt (rest.*1).
Proof. rewrite fmap_cons. intros Hs. by apply StronglySorted_inv in Hs as [? _]. Qed.

(** [m[k] = v] on a map: the entry of [k] is [v], the others stay. *)
Lemma assign_elem_iff m k v k' v' :
  StronglySorted Z.lt (m.*1) →
  (k', v') ∈ StdMap.assign m k v ↔ (k' = k ∧ v' = v) ∨ (k' ≠ k ∧ (k', v') ∈ m).
Proof.
  induction m as [|[k0 v0] rest IH]; intros Hs; simpl.
  - rewrite list_elem_of_singleton. split.
    + intros [= -> ->]. by left.
    + intros [[-> ->]|[_ Hin]]; [done|]. by apply elem_of_nil in Hin.
  - pose proof (sorted_keys_above k0 v0 rest) as Habove.
    specialize (IH (sorted_keys_tail k0 v0 rest Hs)).
    destruct (Z.ltb_spec k k0) as [Hlt|Hge].
    + rewrite !elem_of_cons. split.
      * intros [[= -> ->]|[[= -> ->]|Hin]]; [by left | right; split; [lia | by left] |].
        right. specialize (Habove _ _ Hs Hin). split; [lia | by right].
      * intros [[-> ->]|[_ Hin]]; [by left | by right].
    + destruct (Z.eqb_spec k k0) as [->|Hne].
      * rewrite !elem_of_cons. split.
        -- intros [[= -> ->]|Hin]; [by left|]. right.
           specialize (Habove _ _ Hs Hin). split; [lia | by right].
        -- intros [[-> ->]|[Hne [[= -> ->]|Hin]]]; [by left | done | by right].
      * rewrite !elem_of_cons, IH. split.
        -- intros [[= -> ->]|[?|[? ?]]]; [right; split; [lia | by left] | by left |].
           right. split; [done | by right].
        -- intros [?|[? [[= -> ->]|Hin]]]; [right; by left | by left |].
           right. right. done.
Qed.

Lemma assign_size m k v :
  StdMap.size m ≤ StdMap.size (StdMap.assign m k v).
Proof.
  unfold StdMap.size. induction m as [|[k0 v0] rest IH]; simpl; [lia|].
  destruct (k <? k0); [simpl; lia|]. destruct (k =? k0); simpl; lia.
Qed.

(** [m.erase(k)] on a map: the entry of [k], if there is one, goes and is
    counted; the others stay. *)
Lemma erase_spec m k :
  StronglySorted Z.lt (m.*1) →
  ∃ n m', StdMap.erase m k = (n, m') ∧
    StronglySorted Z.lt (m'.*1) ∧
    (n = 0 ∧ m' = m ∧ k ∉ m.*1 ∨ n = 1 ∧ k ∈ m.*1) ∧
    StdMap.size m' ≤ StdMap.size m ∧
    ∀ k' v', (k', v') ∈ m' ↔ k' ≠ k ∧ (k', v') ∈ m.
Proof.
  unfold StdMap.size.
  induction m as [|[k0 v0] rest IH]; intros Hs; cbn [StdMap.erase].
  - exists 0, []. split; [done|]. split; [done|]. split.
    { left. split; [done|]. split; [done|]. apply not_elem_of_nil. }
    split; [done|]. intros k' v'. split; [by intros ?%elem_of_nil|].
    by intros [_ ?%elem_of_nil].
  - pose proof (sorted_keys_above k0 v0 rest) as Habove.
    pose proof (sorted_keys_tail k0 v0 rest Hs) as Hs'.
    destruct (Z.ltb_spec k k0) as [Hlt|Hge].
    + exists 0, ((k0, v0) :: rest). split; [done|]. split; [done|]. split.
      { left. split; [done|]. split; [done|]. rewrite fmap_cons. simpl.
        intros Hin. apply elem_of_cons in Hin as [->|Hin]; [lia|].
        apply list_elem_of_fmap in Hin as ([k1 v1] & -> & Hin).
        specialize (Habove _ _ Hs Hin). simpl in Hlt. lia. }
      split; [simpl; lia|]. intros k' v'. split; [|by intros [_ ?]].
      intros Hin. split; [|done].
      apply elem_of_cons in Hin as [[= -> ->]|Hin]; [lia|].
      specialize (Habove _ _ Hs Hin). lia.
    + destruct (Z.eqb_spec k k0) as [->|Hne].
      * exists 1, rest. split; [done|]. split; [done|]. split.
        { right. split; [done|]. rewrite fmap_cons. by left. }
        split; [simpl; lia|]. intros k' v'. split.
        -- intros Hin. specialize (Habove _ _ Hs Hin). split; [lia | by right].
        -- intros [Hne Hin]. apply elem_of_cons in Hin as [[= -> ->]|Hin]; done.
      * destruct (IH Hs') as (n & m' & He & Hsm & Hn & Hsz & Hel).
        rewrite He. exists n, ((k0, v0) :: m'). split; [done|]. split.
        { rewrite fmap_cons. simpl. constructor; [done|].
          apply Forall_forall. intros k1 Hin.
          apply list_elem_of_fmap in Hin as ([k2 v2] & -> & Hin). simpl.
          apply Hel in Hin as [_ Hin]. by apply (Habove _ _ Hs Hin). }
        split.
        { destruct Hn as [(-> & -> & Hk)|[-> Hk]].
          - left. split; [done|]. split; [done|]. rewrite fmap_cons. simpl.
            intros Hin. apply elem_of_cons in Hin as [?|?]; [lia | done].
          - right. split; [done|]. rewrite fmap_cons. by right. }
        split; [simpl; lia|]. intros k' v'. rewrite !elem_of_cons, Hel. split.
        -- intros [[= -> ->]|[? ?]]; [split; [lia | by left]|]. split; [done | by right].
        -- intros [? [?|?]]; [by left | by right].
Qed.

Lemma removeBlock_elem p (blocks : list (Z * Z)) q :
  NoDup (blocks.*1) → q ∈ removeBlock p blocks ↔ q.1 ≠ p ∧ q ∈ blocks.
Proof.
  induction blocks as [|[p0 b0] rest IH]; intros Hnd.
  - simpl. split; [by intros ?%elem_of_nil | by intros [_ ?%elem_of_nil]].
  - rewrite fmap_cons in Hnd. apply NoDup_cons in Hnd as [Hp0 Hnd]. simpl in Hp0.
    cbn [removeBlock]. destruct (Z.eqb_spec p p0) as [->|Hne].
    + split.
      * intros Hin. split; [|by right]. intros <-. apply Hp0.
        by apply (list_elem_of_fmap_2 fst).
      * intros [Hne Hin]. apply elem_of_cons in Hin as [->|Hin]; done.
    + rewrite !elem_of_cons, (IH Hnd). split.
      * intros [->|[? ?]]; [split; [simpl; lia | by left]|]. split; [done | by right].
      * intros [? [?|?]]; [by left | by right].
Qed.

(** Blocks that are not empty and apart from one another start at
    different addresses. *)
Lemma disjoint_keys_NoDup (blocks : list (Z * Z)) :
  Forall (λ q, 0 < q.2) blocks → pairwiseDisjoint blocks → NoDup (blocks.*1).
Proof.
  induction blocks as [|q rest IH]; intros Hpos Hdisj; [constructor|].
  apply Forall_cons in Hpos as [Hq Hpos]. destruct Hdisj as [Hap Hdisj].
  rewrite fmap_cons. constructor; [|by apply IH].
  intros Hin. apply list_elem_of_fmap in Hin as (q' & Heq & Hin).
  rewrite Forall_forall in Hap, Hpos.
  pose proof (Hap q' Hin). pose proof (Hpos q' Hin). lia.
Qed.

(** ** Runs of the statistics wrapper *)

Lemma statistics_allocate_returned c st bytes alignment p st' :
  Statistics.do_allocate c st bytes alignment = Returned p st' →
  ∃ busy,
    Unsync.do_allocate c (Statistics.pool st) bytes alignment
      = Returned p (Statistics.pool st') ∧
    Unsync.numberOfBusyArenas c (Statistics.pool st') = Some busy ∧
    Statistics.addressToBytesMap st'
      = StdMap.assign (Statistics.addressToBytesMap st) p (wrap32 bytes) ∧
    Statistics.maxBusyArenas st' = Z.max (Statistics.maxBusyArenas st) busy ∧
    Statistics.maxNumberOfAllocations st'
      = Z.max (Statistics.maxNumberOfAllocations st)
              (StdMap.size (Statistics.addressToBytesMap st')).
Proof.
  unfold Statistics.do_allocate.
  destruct (Unsync.do_allocate c (Statistics.pool st) bytes alignment)
    as [p0 pool'|x pool'|]; [|done..].
  destruct (Unsync.numberOfBusyArenas c pool') as [busy|] eqn:Hbusy; [|done].
  intros [= <- <-]. exists busy. done.
Qed.

Lemma statistics_allocate_thrown c st bytes alignment x st' :
  Statistics.do_allocate c st bytes alignment = Thrown x st' →
  Unsync.do_allocate c (Statistics.pool st) bytes alignment
    = Thrown x (Statistics.pool st') ∧
  Statistics.addressToBytesMap st' = Statistics.addressToBytesMap st ∧
  Statistics.maxBusyArenas st' = Statistics.maxBusyArenas st ∧
  Statistics.maxNumberOfAllocations st' = Statistics.maxNumberOfAllocations st.
Proof.
  unfold Statistics.do_allocate.
  destruct (Unsync.do_allocate c (Statistics.pool st) bytes alignment)
    as [p0 pool'|x0 pool'|]; [|by intros [= <- <-]|done].
  by destruct (Unsync.numberOfBusyArenas c pool').
Qed.

Lemma statistics_deallocate_returned c st p bytes alignment st' :
  Statistics.do_deallocate c st p bytes alignment = Returned () st' →
  Unsync.do_deallocate c (Statistics.pool st) p bytes alignment
    = Returned () (Statistics.pool st') ∧
  Statistics.maxBusyArenas st' = Statistics.maxBusyArenas st ∧
  Statistics.maxNumberOfAllocations st' = Statistics.maxNumberOfAllocations st ∧
  (if exceptionsEnabled c
   then ∃ n, n ≠ 0 ∧
             StdMap.erase (Statistics.addressToBytesMap st) p
             = (n, Statistics.addressToBytesMap st')
   else Statistics.addressToBytesMap st' = Statistics.addressToBytesMap st).
Proof.
  unfold Statistics.do_deallocate.
  destruct (exceptionsEnabled c).
  - destruct (StdMap.erase (Statistics.addressToBytesMap st) p) as [n m] eqn:He.
    destruct (Z.eqb_spec n 0) as [|Hn]; [done|]. simpl.
    destruct (Unsync.do_deallocate c (Statistics.pool st) p bytes alignment)
      as [[] pool'|x pool'|]; [|done..].
    intros [= <-]. simpl. repeat (split; [done|]). by exists n.
  - simpl.
    destruct (Unsync.do_deallocate c (Statistics.pool st) p bytes alignment)
      as [[] pool'|x pool'|]; [|done..].
    by intros [= <-].
Qed.

(** What the wrapper does to its pool is what a consumer of the
    unsynchronized engine could have done. *)
Lemma statistics_history_pool ok c (st : Statistics.State) blocks :
  history ok c st blocks →
  history ok c (Statistics.pool st : EngineState Unsynchronized) blocks.
Proof.
  induction 1 as [st Hst | st blocks bytes alignment p st' Hh IH Hsane Hok Hcall Hp
                 | st blocks bytes alignment st' Hh IH Hsane Hok Hcall
                 | st blocks bytes alignment x st' Hh IH Hsane Hok Hcall
                 | st blocks p bytes alignment st' Hh IH Hp Hcall]; simpl in *.
  - apply hist_construct. simpl. unfold Statistics.construct in Hst.
    destruct (Unsync.initializeArenas c); simpl in Hst; [|done].
    by injection Hst as <-.
  - apply statistics_allocate_returned in Hcall as (busy & Hcall & _).
    by apply (hist_allocate ok c _ blocks bytes alignment p _ IH).
  - apply statistics_allocate_returned in Hcall as (busy & Hcall & _).
    by apply (hist_allocate_null ok c _ blocks bytes alignment _ IH).
  - apply statistics_allocate_thrown in Hcall as (Hcall & _).
    by apply (hist_allocate_thrown ok c _ blocks bytes alignment x _ IH).
  - apply statistics_deallocate_returned in Hcall as (Hcall & _).
    by apply (hist_deallocate ok c _ blocks p bytes alignment _ IH).
Qed.

(** With exceptions enabled the unsynchronized [allocate] returns the
    null pointer for requests of zero bytes only. *)
Lemma unsync_null_return_zero c st bytes alignment st' :
  exceptionsEnabled c = true →
  Unsync.do_allocate c st bytes alignment = Returned nullptr st' → bytes = 0.
Proof.
  intros Hexc. unfold Unsync.do_allocate. rewrite Hexc.
  destruct (Z.eqb_spec bytes 0) as [|_]; [done|].
  destruct (Unsync.do_allocate_details c st bytes alignment) as [[p st0]|]; [|done].
  simpl. destruct (Z.eqb_spec p nullptr) as [->|Hne].
  - by destruct (arenaSize c <? bytes).
  - by intros [= -> _].
Qed.

Lemma pool_blocks_facts ok c (st : Statistics.State) blocks :
  valid_geometry c → history ok c st blocks →
  NoDup (blocks.*1) ∧ Forall (λ q, 0 < q.1 ∧ 0 < q.2 ≤ arenaSize c) blocks ∧
  unsync_inv c (Statistics.pool st) (blocks.*1).
Proof.
  intros Hgeo Hh. pose proof Hgeo as (HN & HS & _ & _ & Hbase & _).
  apply statistics_history_pool in Hh.
  pose proof (history_inv Unsynchronized ok c _ blocks Hgeo Hh) as Hinv.
  destruct (engine_blocks_facts Unsynchronized c _ blocks
              (history_blocks Unsynchronized c Hgeo ok _ blocks Hh)) as [Hwithin Hdisj].
  split; [|split; [|done]].
  - apply disjoint_keys_NoDup; [|done].
    eapply Forall_impl; [exact Hwithin|]. by intros q (? & _).
  - pose proof (ui_live _ _ _ Hinv) as Hlive.
    apply Forall_forall. intros q Hq.
    rewrite Forall_forall in Hwithin. rewrite Forall_forall in Hlive.
    destruct (Hwithin q Hq) as (Hpos & Hlo & Hhi).
    pose proof (Hlive _ (blocks_held blocks q Hq)) as [Hin _]. lia.
Qed.

Lemma removeBlock_subset p (blocks : list (Z * Z)) q :
  q ∈ removeBlock p blocks → q ∈ blocks.
Proof.
  induction blocks as [|[p0 b0] rest IH]; simpl; [done|].
  destruct (p =? p0); [by right|].
  intros [->|Hin]%elem_of_cons; [by left | right; by apply IH].
Qed.

(** The tracking map along a run. *)
Lemma statistics_history_inv ok c (st : Statistics.State) blocks :
  valid_geometry c → history ok c st blocks → stat_inv c st blocks.
Proof.
  intros Hgeo.
  induction 1 as [st Hst | st blocks bytes alignment p st' Hh IH Hsane Hok Hcall Hp
                 | st blocks bytes alignment st' Hh IH Hsane Hok Hcall
                 | st blocks bytes alignment x st' Hh IH Hsane Hok Hcall
                 | st blocks p bytes alignment st' Hh IH Hp Hcall].
  - simpl in Hst. unfold Statistics.construct in Hst.
    destruct (Unsync.initializeArenas c); simpl in Hst; [|done].
    injection Hst as <-. split; simpl.
    + constructor.
    + by intros q ?%elem_of_nil.
    + done.
    + by intros _ p b ?%elem_of_nil.
  - pose proof (hist_allocate ok c st blocks bytes alignment p st' Hh Hsane Hok Hcall Hp)
      as Hh'.
    destruct (pool_blocks_facts ok c st' _ Hgeo Hh') as (Hnd & _).
    rewrite fmap_cons in Hnd. apply NoDup_cons in Hnd as [Hfresh _]. simpl in Hfresh.
    simpl in Hcall.
    apply statistics_allocate_returned in Hcall as (busy & _ & _ & Hm & _ & Hmax).
    rewrite (wrap32_small bytes) in Hm
      by (pose proof (sane_bytes_bound _ _ Hsane); destruct Hsane; lia).
    destruct IH as [Hsorted Hheld Hsize Htracked].
    split; rewrite ?Hmax, ?Hm.
    + by apply assign_sorted.
    + intros [q b] Hq. apply assign_elem_iff; [done|].
      apply elem_of_cons in Hq as [[= -> ->]|Hq]; [by left|]. right.
      split; [|by apply Hheld]. intros ->. apply Hfresh.
      by apply (list_elem_of_fmap_2 fst _ (p, b)).
    + rewrite <- Hm. lia.
    + intros Hexc q b Hq. apply assign_elem_iff in Hq; [|done].
      destruct Hq as [[-> ->]|[Hne Hq]]; [left; split; [done | by left]|].
      destruct (Htracked Hexc q b Hq) as [[? ?]|?]; [left; split; [done | by right]|].
      by right.
  - destruct (pool_blocks_facts ok c st _ Hgeo Hh) as (_ & Hpos & _).
    simpl in Hcall.
    apply statistics_allocate_returned in Hcall as (busy & Hcall & _ & Hm & _ & Hmax).
    destruct IH as [Hsorted Hheld Hsize Htracked].
    split; rewrite ?Hmax, ?Hm.
    + by apply assign_sorted.
    + intros [q b] Hq. apply assign_elem_iff; [done|]. right.
      split; [|by apply Hheld]. rewrite Forall_forall in Hpos.
      destruct (Hpos _ Hq) as [Hq0 _]. simpl in Hq0. unfold nullptr. lia.
    + rewrite <- Hm. lia.
    + intros Hexc q b Hq. apply assign_elem_iff in Hq; [|done].
      destruct Hq as [[-> ->]|[Hne Hq]].
      * right. split; [done|].
        by rewrite (unsync_null_return_zero c _ _ _ _ Hexc Hcall).
      * destruct (Htracked Hexc q b Hq) as [[? ?]|[? ?]]; [by left | done].
  - simpl in Hcall.
    apply statistics_allocate_thrown in Hcall as (_ & Hm & _ & Hmax).
    destruct IH as [Hsorted Hheld Hsize Htracked].
    split; rewrite ?Hmax, ?Hm; done.
  - destruct (pool_blocks_facts ok c st _ Hgeo Hh) as (Hnd & _).
    simpl in Hcall.
    apply statistics_deallocate_returned in Hcall as (_ & _ & Hmax & Hm).
    destruct IH as [Hsorted Hheld Hsize Htracked].
    destruct (exceptionsEnabled c) eqn:Hexc.
    + destruct Hm as (n & Hn & He).
      destruct (erase_spec (Statistics.addressToBytesMap st) p Hsorted)
        as (n' & m' & He' & Hsm & _ & Hsz & Hel).
      rewrite He in He'. injection He' as <- <-.
      split; rewrite ?Hmax.
      * done.
      * intros [q b] Hq. apply removeBlock_elem in Hq as [Hne Hq]; [|done].
        apply Hel. split; [done | by apply Hheld].
      * lia.
      * intros _ q b Hq. apply Hel in Hq as [Hne Hq].
        destruct (Htracked eq_refl q b Hq) as [[? ?]|?]; [|by right].
        left. split; [done|]. by apply removeBlock_elem.
    + split; rewrite ?Hmax, ?Hm.
      * done.
      * intros q Hq. apply Hheld. by apply (removeBlock_subset p).
      * done.
      * intros Hexc'. congruence.
Qed.

(** On a pool with valid geometry and with exceptions enabled, along
    every run of the statistics wrapper (requests within [SizeType],
    deallocations of held pointers) the tracking map is in ascending
    order of address and holds, apart
    from a possible entry of the null pointer with size 0, exactly the
    blocks the consumer holds, each with the size it was requested with. *)
Theorem statistics_map_tracks_held (ok : Z → Z → Prop) (c : Config)
    (st : Statistics.State) (blocks : list (Z * Z)) :
  valid_geometry c → exceptionsEnabled c = true → history ok c st blocks →
  StronglySorted Z.lt ((Statistics.addressToBytesMap st).*1) ∧
  (∀ p b, p ≠ nullptr →
          (p, b) ∈ Statistics.addressToBytesMap st ↔ (p, b) ∈ blocks) ∧
  (∀ b, (nullptr, b) ∈ Statistics.addressToBytesMap st → b = 0).
Proof.
  intros Hgeo Hexc Hh.
  destruct (statistics_history_inv ok c st blocks Hgeo Hh)
    as [Hsorted Hheld Hsize Htracked].
  split; [done|]. split.
  - intros p b Hp. split; [|apply Hheld].
    intros Hin. by destruct (Htracked Hexc p b Hin) as [[_ ?]|[? _]].
  - intros b Hin. by destruct (Htracked Hexc _ b Hin) as [[? _]|[_ ?]].
Qed.

Lemma statistics_map_tracks_held_witness :
  valid_geometry pool3x16 ∧
  ∀ p b, p ≠ nullptr →
         (p, b) ∈ [(4096, 16); (4120, 8)] ↔ (p, b) ∈ [(4120, 8); (4096, 16)].
Proof.
  split; [repeat split; try reflexivity; discriminate|].
  apply (statistics_map_tracks_held (λ _ _, True) pool3x16
           (stats (ustate 4120 8 1 1 [2; 1; 0] [1; 1; 0]) [(4096, 16); (4120, 8)] 2 2)
           [(4120, 8); (4096, 16)]).
  - repeat split; try reflexivity; discriminate.
  - reflexivity.
  - apply (hist_allocate (λ _ _, True) pool3x16
             (stats (ustate 4096 0 0 2 [2; 1; 0] [1; 0; 0]) [(4096, 16)] 1 1)
             [(4096, 16)] 8 8 4120).
    + apply (hist_allocate (λ _ _, True) pool3x16
               (stats (ustate 4112 16 0 2 [2; 1; 0] [0; 0; 0]) [] 0 0) [] 16 16 4096).
      * apply hist_construct. vm_compute; reflexivity.
      * sane_pow 4.
      * exact I.
      * vm_compute; reflexivity.
      * discriminate.
    + sane_pow 3.
    + exact I.
    + vm_compute; reflexivity.
    + discriminate.
Defined.

(** On a pool with valid geometry and with exceptions enabled, along
    every run of the statistics wrapper (requests within [SizeType],
    deallocations of held pointers),
    giving back an address other than the null pointer that the consumer
    does not hold (a block given back before, or an address never handed
    out) throws [std::runtime_error] and changes nothing. *)
Theorem statistics_detects_unheld (ok : Z → Z → Prop) (c : Config)
    (st : Statistics.State) (blocks : list (Z * Z)) (p bytes alignment : Z) :
  valid_geometry c → exceptionsEnabled c = true → history ok c st blocks →
  p ≠ nullptr → p ∉ blocks.*1 →
  Statistics.do_deallocate c st p bytes alignment = Thrown RuntimeError st.
Proof.
  intros Hgeo Hexc Hh Hp Hnot.
  destruct (statistics_history_inv ok c st blocks Hgeo Hh)
    as [Hsorted Hheld Hsize Htracked].
  destruct (erase_spec (Statistics.addressToBytesMap st) p Hsorted)
    as (n & m' & He & _ & [(-> & -> & _)|[_ Hin]] & _).
  - unfold Statistics.do_deallocate. rewrite Hexc, He. reflexivity.
  - exfalso. apply list_elem_of_fmap in Hin as ([q b] & -> & Hin).
    destruct (Htracked Hexc q b Hin) as [[_ Hb]|[? _]]; [|done].
    apply Hnot. by apply (list_elem_of_fmap_2 fst _ (q, b)).
Qed.

Lemma statistics_detects_unheld_witness :
  valid_geometry pool3x16 ∧
  Statistics.do_deallocate pool3x16
    (stats (ustate 4112 16 0 2 [2; 1; 0] [0; 0; 0]) [] 1 1) 4096 16 16
  = Thrown RuntimeError (stats (ustate 4112 16 0 2 [2; 1; 0] [0; 0; 0]) [] 1 1).
Proof.
  split; [repeat split; try reflexivity; discriminate|].
  apply (statistics_detects_unheld (λ _ _, True) pool3x16
           (stats (ustate 4112 16 0 2 [2; 1; 0] [0; 0; 0]) [] 1 1) [] 4096 16 16).
  - repeat split; try reflexivity; discriminate.
  - reflexivity.
  - apply (hist_deallocate (λ _ _, True) pool3x16
             (stats (ustate 4096 0 0 2 [2; 1; 0] [1; 0; 0]) [(4096, 16)] 1 1)
             [(4096, 16)] 4096 16 16).
    + apply (hist_allocate (λ _ _, True) pool3x16
               (stats (ustate 4112 16 0 2 [2; 1; 0] [0; 0; 0]) [] 0 0) [] 16 16 4096).
      * apply hist_construct. vm_compute; reflexivity.
      * sane_pow 4.
      * exact I.
      * vm_compute; reflexivity.
      * discriminate.
    + repeat constructor.
    + vm_compute; reflexivity.
  - discriminate.
  - apply not_elem_of_nil.
Defined.

(** On a pool with valid geometry, along every run of the statistics
    wrapper (requests within [SizeType], deallocations of held pointers),
    with exceptions enabled or not, the tracking map has at least as many entries as the consumer
    holds blocks, and [maxNumberOfAllocations] is at least the number of
    entries. *)
Theorem statistics_allocations_high_water (ok : Z → Z → Prop) (c : Config)
    (st : Statistics.State) (blocks : list (Z * Z)) :
  valid_geometry c → history ok c st blocks →
  Z.of_nat (length blocks) ≤ StdMap.size (Statistics.addressToBytesMap st) ∧
  StdMap.size (Statistics.addressToBytesMap st) ≤ Statistics.maxNumberOfAllocations st.
Proof.
  intros Hgeo Hh.
  destruct (statistics_history_inv ok c st blocks Hgeo Hh)
    as [Hsorted Hheld Hsize Htracked].
  destruct (pool_blocks_facts ok c st blocks Hgeo Hh) as (Hnd & _).
  split; [|done].
  assert (Hsub : blocks ⊆+ Statistics.addressToBytesMap st).
  { apply NoDup_submseteq; [|done]. by apply (NoDup_fmap_1 fst). }
  apply submseteq_length in Hsub. unfold StdMap.size. lia.
Qed.

Lemma statistics_allocations_high_water_witness :
  valid_geometry pool3x16 ∧
  Z.of_nat (length [(4096, 16)]) ≤ StdMap.size [(4096, 16)] ∧
  StdMap.size [(4096, 16)] ≤ 1.
Proof.
  split; [repeat split; try reflexivity; discriminate|].
  apply (statistics_allocations_high_water (λ _ _, True) pool3x16
           (stats (ustate 4096 0 0 2 [2; 1; 0] [1; 0; 0]) [(4096, 16)] 1 1)
           [(4096, 16)]).
  - repeat split; try reflexivity; discriminate.
  - apply (hist_allocate (λ _ _, True) pool3x16
             (stats (ustate 4112 16 0 2 [2; 1; 0] [0; 0; 0]) [] 0 0) [] 16 16 4096).
    + apply hist_construct. vm_compute; reflexivity.
    + sane_pow 4.
    + exact I.
    + vm_compute; reflexivity.
    + discriminate.
Defined.

(** ** The bytes in use *)

Lemma sumSizes_mass (m : list (Z * Z)) : sumSizes m = mass (λ _, true) m.
Proof. reflexivity. Qed.

Lemma sumSizes_perm (l k : list (Z * Z)) : l ≡ₚ k → sumSizes l = sumSizes k.
Proof.
  induction 1 as [|q l k _ IH|q q' l|l k j _ IH1 _ IH2]; simpl; lia.
Qed.

Lemma sumSizes_filter (m : list (Z * Z)) :
  Forall (λ e, e.1 = nullptr → e.2 = 0) m →
  sumSizes (filter (λ e, e.1 ≠ nullptr) m) = sumSizes m.
Proof.
  induction 1 as [|e m He _ IH]; [done|].
  rewrite filter_cons. destruct (decide (e.1 ≠ nullptr)) as [Hne|Heq].
  - unfold sumSizes in *. simpl. lia.
  - unfold sumSizes in *. simpl. rewrite IH.
    assert (e.1 = nullptr) by (destruct (Z.eq_dec e.1 nullptr); done). lia.
Qed.

Lemma sorted_lt_NoDup (l : list Z) : StronglySorted Z.lt l → NoDup l.
Proof.
  induction 1 as [|x l _ IH Hall]; constructor; [|done].
  intros Hin. rewrite Forall_forall in Hall. specialize (Hall x Hin). lia.
Qed.

Lemma sumSizes_bound (S : Z) (blocks : list (Z * Z)) :
  Forall (λ q, 0 < q.2 ≤ S) blocks →
  0 ≤ sumSizes blocks ≤ Z.of_nat (length blocks) * S.
Proof.
  induction 1 as [|q rest Hq _ IH]; [done|].
  unfold sumSizes in *. simpl length. simpl foldr. nia.
Qed.

(** On a pool with valid geometry and with exceptions enabled, along
    every run of the statistics wrapper (requests within [SizeType],
    deallocations of held pointers)
    [bytesAllocated()] is the sum of the sizes the held blocks were
    requested with. *)
Theorem statistics_bytes_allocated (ok : Z → Z → Prop) (c : Config)
    (st : Statistics.State) (blocks : list (Z * Z)) :
  valid_geometry c → exceptionsEnabled c = true → history ok c st blocks →
  Statistics.bytesAllocated st = sumSizes blocks.
Proof.
  intros Hgeo Hexc Hh. pose proof Hgeo as (HN & HS & _ & H32 & _).
  destruct (statistics_history_inv ok c st blocks Hgeo Hh)
    as [Hsorted Hheld Hsize Htracked].
  destruct (pool_blocks_facts ok c st blocks Hgeo Hh) as (Hnd & Hpos & Hinv).
  set (m := Statistics.addressToBytesMap st) in *.
  assert (Hperm : filter (λ e, e.1 ≠ nullptr) m ≡ₚ blocks).
  { apply NoDup_Permutation.
    - apply NoDup_filter, (NoDup_fmap_1 fst).
      by apply sorted_lt_NoDup.
    - by apply (NoDup_fmap_1 fst).
    - intros [p b]. rewrite list_elem_of_filter. simpl. split.
      + intros [Hp Hin]. by destruct (Htracked Hexc p b Hin) as [[_ ?]|[? _]].
      + intros Hin. split; [|by apply Hheld].
        rewrite Forall_forall in Hpos. destruct (Hpos _ Hin) as [Hp0 _].
        simpl in Hp0. unfold nullptr. lia. }
  assert (Hnull : Forall (λ e, e.1 = nullptr → e.2 = 0) m).
  { apply Forall_forall. intros [p b] Hin Hp. simpl in *. subst p.
    by destruct (Htracked Hexc _ b Hin) as [[? _]|[_ ?]]. }
  assert (Hsum : sumSizes m = sumSizes blocks).
  { rewrite <- (sumSizes_filter m Hnull). by apply sumSizes_perm. }
  assert (Hlen : Z.of_nat (length blocks) ≤ numArenas c * arenaSize c).
  { rewrite <- (length_fmap fst), <- (sumTo_liveIn c Hgeo) by apply (ui_live _ _ _ Hinv).
    etrans; [apply sumTo_le; intros a Ha; apply (ui_bound _ _ _ Hinv); lia|]. lia. }
  pose proof (sumSizes_bound (arenaSize c) blocks) as Hbound.
  destruct Hbound as [Hb0 Hb1].
  { eapply Forall_impl; [exact Hpos|]. by intros q (_ & ?). }
  unfold Statistics.bytesAllocated. fold m.
  rewrite totalFrequency_fold.
  - rewrite <- sumSizes_mass. lia.
  - apply Forall_forall. intros [p b] Hin. simpl.
    destruct (Htracked Hexc p b Hin) as [[_ Hb]|[_ ->]]; [|done].
    rewrite Forall_forall in Hpos. destruct (Hpos _ Hb) as (_ & ? & _). simpl in *. lia.
  - done.
  - rewrite <- sumSizes_mass, Hsum. nia.
Qed.

Lemma statistics_bytes_allocated_witness :
  valid_geometry pool3x16 ∧
  Statistics.bytesAllocated
    (stats (ustate 4120 8 1 1 [2; 1; 0] [1; 1; 0]) [(4096, 16); (4120, 8)] 2 2) = 24.
Proof.
  split; [repeat split; try reflexivity; discriminate|].
  apply (statistics_bytes_allocated (λ _ _, True) pool3x16
           (stats (ustate 4120 8 1 1 [2; 1; 0] [1; 1; 0]) [(4096, 16); (4120, 8)] 2 2)
           [(4120, 8); (4096, 16)]).
  - repeat split; try reflexivity; discriminate.
  - reflexivity.
  - apply (hist_allocate (λ _ _, True) pool3x16
             (stats (ustate 4096 0 0 2 [2; 1; 0] [1; 0; 0]) [(4096, 16)] 1 1)
             [(4096, 16)] 8 8 4120).
    + apply (hist_allocate (λ _ _, True) pool3x16
               (stats (ustate 4112 16 0 2 [2; 1; 0] [0; 0; 0]) [] 0 0) [] 16 16 4096).
      * apply hist_construct. vm_compute; reflexivity.
      * sane_pow 4.
      * exact I.
      * vm_compute; reflexivity.
      * discriminate.
    + sane_pow 3.
    + exact I.
    + vm_compute; reflexivity.
    + discriminate.
Defined.

(** ** The high-water mark of busy arenas *)

(** Giving back a held block does not raise the number of busy arenas. *)
Lemma unsync_deallocate_busy c st lv p bytes alignment st' :
  valid_geometry c → unsync_inv c st lv → p ∈ lv →
  Unsync.do_deallocate c st p bytes alignment = Returned () st' →
  ∃ b b', Unsync.numberOfBusyArenas c st = Some b ∧
          Unsync.numberOfBusyArenas c st' = Some b' ∧ b' ≤ b.
Proof.
  intros Hgeo Hinv Hp Hcall.
  pose proof Hgeo as (HN & HS & _ & H32 & _).
  pose proof (unsync_deallocate_spec c st lv p bytes alignment Hgeo Hinv Hp) as H.
  cbv zeta in H. destruct H as (Hx & Hn1 & Hn & Hd).
  rewrite Hd in Hcall. injection Hcall as <-.
  pose proof (ui_active _ _ _ Hinv) as Hact.
  pose proof (ui_free _ _ _ Hinv) as Hfree. pose proof Hfree as (Hh & _).
  pose proof (ui_counts _ _ _ Hinv _ Hact) as Hna.
  pose proof (read_lt _ _ _ Hn) as Hlen. unfold Unsync.allocationsInArena in Hn.
  pose proof (liveIn_nonneg c (Unsync.activeArenaId st) lv) as Hn0.
  unfold Unsync.numberOfBusyArenas, Unsync.allocationsInArena.
  rewrite (wrap32_small (numArenas c - Unsync.freeListHead st)) by nia.
  rewrite Hna. simpl.
  destruct (Z.eqb_spec (liveIn c (Unsync.arenaIdOf c p) lv) 1) as [H1|H1];
    [destruct (Z.eqb_spec (Unsync.arenaIdOf c p) (Unsync.activeArenaId st)) as [Hxa|Hxa]|];
    simpl.
  - rewrite (wrap32_small (numArenas c - Unsync.freeListHead st)) by nia.
    rewrite read_insert_eq by lia. simpl.
    destruct (Z.eqb_spec (numArenas c - Unsync.freeListHead st) 1).
    + eexists _, _. split; [done|]. split; [done|].
      destruct (liveIn c (Unsync.activeArenaId st) lv =? 0); lia.
    + eexists _, _. split; [done|]. split; [done|]. lia.
  - assert (Hroom : Unsync.freeListHead st + 2 ≤ numArenas c).
    { eapply (freeList_room c _ _ _ _ (Unsync.arenaIdOf c p) Hfree); try done.
      rewrite Hn. intros [= H0]. lia. }
    rewrite (wrap32_small (numArenas c - (Unsync.freeListHead st + 1))) by nia.
    rewrite read_insert_ne, Hna by lia. simpl.
    destruct (Z.eqb_spec (numArenas c - Unsync.freeListHead st) 1); [lia|].
    destruct (Z.eqb_spec (numArenas c - (Unsync.freeListHead st + 1)) 1).
    + eexists _, _. split; [done|]. split; [done|].
      destruct (liveIn c (Unsync.activeArenaId st) lv =? 0); lia.
    + eexists _, _. split; [done|]. split; [done|]. lia.
  - rewrite (wrap32_small (numArenas c - Unsync.freeListHead st)) by nia.
    destruct (Z.eqb_spec (numArenas c - Unsync.freeListHead st) 1).
    + destruct (Z.eq_dec (Unsync.arenaIdOf c p) (Unsync.activeArenaId st)) as [Hxa|Hxa].
      * rewrite Hxa, read_insert_eq by lia. simpl.
        rewrite Hxa in H1, Hn1.
        destruct (Z.eqb_spec (liveIn c (Unsync.activeArenaId st) lv) 0); [lia|].
        destruct (Z.eqb_spec (liveIn c (Unsync.activeArenaId st) lv - 1) 0); [lia|].
        eexists _, _. split; [done|]. split; [done|]. lia.
      * rewrite read_insert_ne, Hna by lia. simpl.
        eexists _, _. split; [done|]. split; [done|]. lia.
    + eexists _, _. split; [done|]. split; [done|]. lia.
Qed.

(** On a pool with valid geometry, while every request is within
    [SizeType] and has an alignment that divides the arena size and the
    address of the storage, and every deallocation gives back a held
    pointer, [maxBusyArenas] of the statistics wrapper is at least the
    number of arenas that are busy. *)
Theorem statistics_busy_high_water (c : Config) (st : Statistics.State)
    (blocks : list (Z * Z)) :
  valid_geometry c → history (requestOk Unsynchronized c) c st blocks →
  ∃ busy, Unsync.numberOfBusyArenas c (Statistics.pool st) = Some busy ∧
          busy ≤ Statistics.maxBusyArenas st.
Proof.
  intros Hgeo.
  induction 1 as [st Hst | st blocks bytes alignment p st' Hh IH Hsane Hok Hcall Hp
                 | st blocks bytes alignment st' Hh IH Hsane Hok Hcall
                 | st blocks bytes alignment x st' Hh IH Hsane Hok Hcall
                 | st blocks p bytes alignment st' Hh IH Hp Hcall]; try (simpl in Hcall).
  - simpl in Hst. unfold Statistics.construct in Hst.
    rewrite (unsync_initial_state c Hgeo) in Hst. simpl in Hst. injection Hst as <-.
    destruct (unsync_construct_inv c Hgeo) as (st0 & Hst0 & Hinv).
    pose proof (unsync_construct_tight c Hgeo st0 Hst0) as Ht.
    rewrite (unsync_initial_state c Hgeo) in Hst0. injection Hst0 as <-.
    exists 0. split; [|done]. by apply unsync_idle_busy.
  - apply statistics_allocate_returned in Hcall as (busy & _ & Hbusy & _ & -> & _).
    exists busy. split; [done | lia].
  - apply statistics_allocate_returned in Hcall as (busy & _ & Hbusy & _ & -> & _).
    exists busy. split; [done | lia].
  - apply statistics_allocate_thrown in Hcall as (Hcall & _ & -> & _).
    destruct (pool_blocks_facts _ c st blocks Hgeo Hh) as (_ & _ & Hinv).
    pose proof (unsync_allocate_tight c Hgeo _ _ bytes alignment Hinv Hsane Hok) as H.
    rewrite Hcall in H. by rewrite H.
  - apply statistics_deallocate_returned in Hcall as (Hcall & -> & _).
    destruct (pool_blocks_facts _ c st blocks Hgeo Hh) as (_ & _ & Hinv).
    destruct (unsync_deallocate_busy c _ _ p bytes alignment _ Hgeo Hinv Hp Hcall)
      as (b & b' & Hb & Hb' & Hle).
    destruct IH as (busy & Hbusy & Hmax). rewrite Hb in Hbusy. injection Hbusy as ->.
    exists b'. split; [done | lia].
Qed.

Lemma statistics_busy_high_water_witness :
  valid_geometry pool3x16 ∧
  ∃ busy, Unsync.numberOfBusyArenas pool3x16 (ustate 4112 16 0 2 [2; 1; 0] [0; 0; 0])
          = Some busy ∧ busy ≤ 1.
Proof.
  split; [repeat split; try reflexivity; discriminate|].
  apply (statistics_busy_high_water pool3x16
           (stats (ustate 4112 16 0 2 [2; 1; 0] [0; 0; 0]) [] 1 1) []).
  - repeat split; try reflexivity; discriminate.
  - apply (hist_deallocate (requestOk Unsynchronized pool3x16) pool3x16
             (stats (ustate 4096 0 0 2 [2; 1; 0] [1; 0; 0]) [(4096, 16)] 1 1)
             [(4096, 16)] 4096 16 16).
    + apply (hist_allocate (requestOk Unsynchronized pool3x16) pool3x16
               (stats (ustate 4112 16 0 2 [2; 1; 0] [0; 0; 0]) [] 0 0) [] 16 16 4096).
      * apply hist_construct. vm_compute; reflexivity.
      * sane_pow 4.
      * split; reflexivity.
      * vm_compute; reflexivity.
      * discriminate.
    + repeat constructor.
    + vm_compute; reflexivity.
Defined.

(** ** The histogram and the percentile *)

(** On a histogram in ascending order, [hist[s]] is the frequency at [s]. *)
Lemma at_mass h s :
  StronglySorted Z.lt (h.*1) → StdMap.at_ h s = mass (λ x, x =? s) h.
Proof.
  induction h as [|[k0 v0] rest IH]; intros Hs; [done|].
  pose proof (sorted_keys_above k0 v0 rest) as Habove.
  specialize (IH (sorted_keys_tail k0 v0 rest Hs)).
  assert (Hnone : s ≤ k0 → mass (λ x, x =? s) rest = 0).
  { intros Hle. apply mass_none. apply Forall_forall. intros [k v] Hin.
    specialize (Habove _ _ Hs Hin). simpl. lia. }
  cbn [StdMap.at_]. unfold mass in *. cbn [foldr fst snd].
  destruct (Z.ltb_spec s k0) as [Hlt|Hge].
  - destruct (Z.eqb_spec k0 s); [lia|]. rewrite Hnone by lia. done.
  - destruct (Z.eqb_spec s k0) as [->|Hne].
    + rewrite Z.eqb_refl, Hnone by lia. lia.
    + destruct (Z.eqb_spec k0 s); [lia|]. rewrite IH. done.
Qed.

(** With fewer than [2 ^ 32] tracked allocations, [histogram()] is in
    ascending order of size, maps every size to the number of tracked
    allocations of that size ([hist[s]] is 0 for a size that is not
    tracked), has no entry with frequency 0, and its frequencies add up to
    the number of tracked allocations. *)
Theorem histogram_counts (st : Statistics.State) :
  StdMap.size (Statistics.addressToBytesMap st) < 2 ^ 32 →
  StronglySorted Z.lt ((Statistics.histogram st).*1) ∧
  Forall (λ e, 1 ≤ e.2) (Statistics.histogram st) ∧
  (∀ s, StdMap.at_ (Statistics.histogram st) s = countIf (λ x, x =? s) (sizes st)) ∧
  Statistics.totalFrequency (Statistics.histogram st)
  = StdMap.size (Statistics.addressToBytesMap st).
Proof.
  intros HT. destruct (histogram_facts st HT) as (Hsorted & Hpos & Hmass).
  split; [done|]. split; [done|]. split.
  - intros s. by rewrite at_mass, Hmass.
  - by apply totalFrequency_histogram.
Qed.

Lemma histogram_counts_witness :
  StdMap.size (Statistics.addressToBytesMap (tracking [16; 8; 32; 16])) < 2 ^ 32 ∧
  StdMap.at_ (Statistics.histogram (tracking [16; 8; 32; 16])) 16 = 2.
Proof.
  split; [reflexivity|].
  destruct (histogram_counts (tracking [16; 8; 32; 16])) as (_ & _ & H & _);
    [reflexivity|].
  rewrite H. reflexivity.
Defined.

Lemma countIf_mono (P Q : Z → bool) l :
  (∀ x, P x = true → Q x = true) → countIf P l ≤ countIf Q l.
Proof.
  intros HPQ. induction l as [|x l IH]; simpl; [lia|].
  specialize (HPQ x). destruct (P x), (Q x); try lia.
  all: by specialize (HPQ eq_refl).
Qed.

(** With fewer than [2 ^ 32] entries in the tracking map, [percentile]
    does not decrease in its factor where it is defined: for factors
    [p <= q] in (0, 1] such that the limit of [p] (the double product of
    [p] and the number of entries, converted to [std::size_t]) is at least
    one, both calls return a size and [percentile(p) <= percentile(q)]. *)
Theorem percentile_monotone (st : Statistics.State) (p q : Q) (Lp : Z) :
  let T := StdMap.size (Statistics.addressToBytesMap st) in
  T < 2 ^ 32 → (0 < p)%Q → (p <= q)%Q → (q <= 1)%Q →
  Statistics.upperLimit p T = Some Lp → 1 ≤ Lp →
  ∃ kp kq, Statistics.percentile st p = Some kp ∧
           Statistics.percentile st q = Some kq ∧ kp ≤ kq.
Proof.
  intros T HT Hp0 Hpq Hq1 HLp HL.
  assert (HT0 : 0 ≤ T) by (unfold T, StdMap.size; lia).
  assert (HT1 : 1 ≤ T).
  { destruct (Z.eq_dec T 0) as [Hz|]; [|lia].
    rewrite Hz, upperLimit_empty in HLp. injection HLp as <-. lia. }
  destruct (upperLimit_spec q T (Qlt_le_trans _ _ _ Hp0 Hpq) Hq1 ltac:(lia))
    as (Lq & HLq & _).
  pose proof (upperLimit_mono p q T Lp Lq Hp0 Hpq Hq1 ltac:(lia) HLp HLq) as Hmono.
  destruct (percentile_reaches_limit st p Lp HT Hp0 (Qle_trans _ _ _ Hpq Hq1) HLp HL)
    as (kp & Hkp & _ & Hbp).
  destruct (percentile_reaches_limit st q Lq HT (Qlt_le_trans _ _ _ Hp0 Hpq) Hq1
              HLq ltac:(lia)) as (kq & Hkq & _ & Hbq).
  exists kp, kq. split; [done|]. split; [done|].
  destruct (Z.le_gt_cases kp kq) as [|Hgt]; [done|]. exfalso.
  assert (countUpTo kq st ≤ countBelow kp st); [|lia].
  apply countIf_mono. intros x Hx. apply Z.leb_le in Hx. apply Z.ltb_lt. lia.
Qed.

Lemma percentile_monotone_witness :
  StdMap.size (Statistics.addressToBytesMap (tracking [8; 16; 24; 32; 40])) < 2 ^ 32 ∧
  Statistics.upperLimit (1 # 2) 5 = Some 2 ∧
  ∃ kp kq, Statistics.percentile (tracking [8; 16; 24; 32; 40]) (1 # 2) = Some kp ∧
           Statistics.percentile (tracking [8; 16; 24; 32; 40]) double_0_6 = Some kq ∧
           kp ≤ kq.
Proof.
  split; [reflexivity|]. split; [vm_compute; reflexivity|].
  apply (percentile_monotone (tracking [8; 16; 24; 32; 40]) (1 # 2) double_0_6 2).
  - reflexivity.
  - reflexivity.
  - discriminate.
  - discriminate.
  - vm_compute. reflexivity.
  - lia.
Defined.

(** With at least one and fewer than [2 ^ 32] entries in the tracking
    map, a factor [p] in (0, 1] whose limit (the double product of [p]
    and the number of entries, converted to [std::size_t]) is zero makes
    [percentile] step back from the beginning of the histogram
    ([std::prev(hist.cbegin())]): the call has no defined behaviour.  So
    it is for [percentile(0.5)] with one entry. *)
Theorem percentile_limit_zero (st : Statistics.State) (p : Q) :
  let T := StdMap.size (Statistics.addressToBytesMap st) in
  1 ≤ T < 2 ^ 32 → (0 < p)%Q → (p <= 1)%Q →
  Statistics.upperLimit p T = Some 0 →
  Statistics.percentile st p = None.
Proof.
  intros T HT Hp0 Hp1 HL.
  unfold Statistics.percentile. rewrite clamp_unit by done.
  destruct (Qeq_bool p 0) eqn:Hz.
  { apply Qeq_bool_iff in Hz. rewrite Hz in Hp0. by apply Qlt_irrefl in Hp0. }
  rewrite totalFrequency_histogram by (fold T; lia). fold T.
  destruct (Z.eqb_spec T 0) as [|_]; [lia|].
  rewrite HL. apply walk_done. lia.
Qed.

Lemma percentile_limit_zero_witness :
  1 ≤ StdMap.size (Statistics.addressToBytesMap (tracking [16])) < 2 ^ 32 ∧
  Statistics.upperLimit (1 # 2) 1 = Some 0 ∧
  Statistics.percentile (tracking [16]) (1 # 2) = None.
Proof.
  split; [split; [discriminate | reflexivity]|].
  split; [vm_compute; reflexivity|].
  apply (percentile_limit_zero (tracking [16]) (1 # 2)).
  - split; [discriminate | reflexivity].
  - reflexivity.
  - discriminate.
  - vm_compute. reflexivity.
Defined.

(** ** The wrapper without exceptions *)

(** Built with exceptions disabled, the statistics wrapper never removes
    an entry of the tracking map: [deallocate] leaves the map as it is,
    and along every run [maxNumberOfAllocations] is the number of entries
    of the map, blocks given back included. *)
Theorem statistics_without_exceptions (ok : Z → Z → Prop) (c : Config)
    (st : Statistics.State) (blocks : list (Z * Z)) :
  exceptionsEnabled c = false → history ok c st blocks →
  StdMap.size (Statistics.addressToBytesMap st) = Statistics.maxNumberOfAllocations st ∧
  ∀ p bytes alignment st',
    Statistics.do_deallocate c st p bytes alignment = Returned () st' →
    Statistics.addressToBytesMap st' = Statistics.addressToBytesMap st ∧
    Statistics.bytesAllocated st' = Statistics.bytesAllocated st.
Proof.
  intros Hexc Hh. split.
  - induction Hh as [st Hst | st blocks bytes alignment p st' Hh IH Hsane Hok Hcall Hp
                    | st blocks bytes alignment st' Hh IH Hsane Hok Hcall
                    | st blocks bytes alignment x st' Hh IH Hsane Hok Hcall
                    | st blocks p bytes alignment st' Hh IH Hp Hcall];
      try (simpl in Hcall).
    + simpl in Hst. unfold Statistics.construct in Hst.
      destruct (Unsync.initializeArenas c); simpl in Hst; [|done].
      by injection Hst as <-.
    + apply statistics_allocate_returned in Hcall as (busy & _ & _ & Hm & _ & ->).
      pose proof (assign_size (Statistics.addressToBytesMap st) p (wrap32 bytes)).
      rewrite Hm. lia.
    + apply statistics_allocate_returned in Hcall as (busy & _ & _ & Hm & _ & ->).
      pose proof (assign_size (Statistics.addressToBytesMap st) nullptr (wrap32 bytes)).
      rewrite Hm. lia.
    + apply statistics_allocate_thrown in Hcall as (_ & -> & _ & ->). done.
    + apply statistics_deallocate_returned in Hcall as (_ & _ & -> & Hm).
      rewrite Hexc in Hm. by rewrite Hm.
  - intros p bytes alignment st' Hcall.
    apply statistics_deallocate_returned in Hcall as (_ & _ & _ & Hm).
    rewrite Hexc in Hm. unfold Statistics.bytesAllocated. by rewrite Hm.
Qed.

Lemma statistics_without_exceptions_witness :
  exceptionsEnabled pool3x16quiet = false ∧
  Statistics.do_deallocate pool3x16quiet
    (stats (ustate 4096 0 0 2 [2; 1; 0] [1; 0; 0]) [(4096, 16)] 1 1) 4096 16 16
  = Returned () (stats (ustate 4112 16 0 2 [2; 1; 0] [0; 0; 0]) [(4096, 16)] 1 1) ∧
  Statistics.bytesAllocated
    (stats (ustate 4112 16 0 2 [2; 1; 0] [0; 0; 0]) [(4096, 16)] 1 1) = 16.
Proof.
  split; [reflexivity|]. split; [vm_compute; reflexivity|].
  destruct (statistics_without_exceptions (λ _ _, True) pool3x16quiet
              (stats (ustate 4096 0 0 2 [2; 1; 0] [1; 0; 0]) [(4096, 16)] 1 1)
              [(4096, 16)]) as [_ H].
  - reflexivity.
  - apply (hist_allocate (λ _ _, True) pool3x16quiet
             (stats (ustate 4112 16 0 2 [2; 1; 0] [0; 0; 0]) [] 0 0) [] 16 16 4096).
    + apply hist_construct. vm_compute; reflexivity.
    + sane_pow 4.
    + exact I.
    + vm_compute; reflexivity.
    + discriminate.
  - destruct (H 4096 16 16
                (stats (ustate 4112 16 0 2 [2; 1; 0] [0; 0; 0]) [(4096, 16)] 1 1))
      as [_ Hb]; [vm_compute; reflexivity|].
    rewrite Hb. reflexivity.
Defined.

(** ** A failed request in the wrapper without exceptions *)

(** On a pool with valid geometry, built with exceptions disabled, the
    statistics wrapper records a request within [SizeType] larger than an
    arena although it fails, in every state of a run (requests within
    [SizeType], deallocations of held pointers): [allocate] returns
    the null pointer and leaves the pool as it was, and the tracking map
    then maps the null pointer to the requested size, which
    [bytesAllocated()] and [histogram()] count from then on. *)
Theorem statistics_records_failed_request (ok : Z → Z → Prop) (c : Config)
    (st : Statistics.State) (blocks : list (Z * Z)) (bytes alignment : Z) :
  valid_geometry c → exceptionsEnabled c = false → history ok c st blocks →
  sane_request bytes alignment → arenaSize c < bytes →
  ∃ st', Statistics.do_allocate c st bytes alignment = Returned nullptr st' ∧
         Statistics.pool st' = Statistics.pool st ∧
         Statistics.addressToBytesMap st'
         = StdMap.assign (Statistics.addressToBytesMap st) nullptr bytes ∧
         (nullptr, bytes) ∈ Statistics.addressToBytesMap st'.
Proof.
  intros Hgeo Hexc Hh Hsane Hbig. pose proof Hgeo as (HN & HS & _).
  destruct (pool_blocks_facts ok c st blocks Hgeo Hh) as (_ & _ & Hinv).
  pose proof (ui_left _ _ _ Hinv) as Hleft.
  destruct (unsync_offset_eq (Unsync.data (Statistics.pool st)) bytes alignment Hsane)
    as (_ & _ & Hrange).
  assert (Hcall : Unsync.do_allocate c (Statistics.pool st) bytes alignment
                  = Returned nullptr (Statistics.pool st)).
  { unfold Unsync.do_allocate, Unsync.do_allocate_details.
    destruct (Z.eqb_spec bytes 0) as [|_]; [lia|].
    rewrite (unsync_fail_spec c _ _ bytes alignment _ Hinv ltac:(lia) Hsane)
      by (unfold unsyncNeeded; lia || (left; lia)).
    by rewrite Hexc. }
  destruct (unsync_busy_inv c _ _ Hgeo Hinv) as (busy & Hbusy & _).
  unfold Statistics.do_allocate. rewrite Hcall, Hbusy.
  rewrite (wrap32_small bytes)
    by (pose proof (sane_bytes_bound _ _ Hsane); lia).
  eexists. split; [reflexivity|]. simpl. split; [done|]. split; [done|].
  apply assign_elem.
Qed.

Lemma statistics_records_failed_request_witness :
  valid_geometry pool3x16quiet ∧ sane_request 32 8 ∧
  ∃ st', Statistics.do_allocate pool3x16quiet
           (stats (ustate 4112 16 0 2 [2; 1; 0] [0; 0; 0]) [] 0 0) 32 8
         = Returned nullptr st' ∧
         Statistics.bytesAllocated st' = 32.
Proof.
  split; [repeat split; try reflexivity; discriminate|].
  split; [sane_pow 3|].
  destruct (statistics_records_failed_request (λ _ _, True) pool3x16quiet
              (stats (ustate 4112 16 0 2 [2; 1; 0] [0; 0; 0]) [] 0 0) [] 32 8)
    as (st' & Hcall & _ & Hm & _).
  - repeat split; try reflexivity; discriminate.
  - reflexivity.
  - apply hist_construct. vm_compute; reflexivity.
  - sane_pow 3.
  - reflexivity.
  - exists st'. split; [exact Hcall|].
    unfold Statistics.bytesAllocated. rewrite Hm. reflexivity.
Defined.
